(** * figma-console-mcp-cli: the reconciliation engine and the bridge verifier

    A shallow embedding of
    - [src/utils/config.ts]     (read / write / merge of a client's JSON config),
    - [src/steps/clientDetect.ts], [src/steps/doctor.ts]
                                (scan, update, remove and add over a batch),
    - [src/steps/healthCheck.ts] (the bridge wait: port scan, three-way race,
                                WebSocket accept token; the health check),
    - [src/steps/auth.ts], [src/steps/configure.ts],
      [src/steps/systemCheck.ts], [src/utils/process.ts]
                                (the token prompt, the wizard's selection and
                                configuration steps, the system check, the
                                command runner and its retry loop),
    followed by the properties the specification states about them and by
    further properties of the code.

    JavaScript values are modelled at run time: a TypeScript cast
    ([as Record<string, unknown>], [as string[]]) checks nothing, so a value
    read from a config file is an arbitrary JSON value wherever the program
    obtained it through such a cast. *)

From Stdlib Require Import ZArith String Ascii List Bool Lia DecimalString DecimalNat
  Sorted.
From stdpp Require Import base gmap strings list.

Open Scope string_scope.
Open Scope list_scope.

(** ** JavaScript values that JSON can carry *)

Module JS.

(** A value produced by [JSON.parse].  An object is the list of its own
    properties in enumeration order; [JSON.parse] never yields two properties
    with one key.  Numbers are only ever tested for being zero by the program,
    so an integer stands for the number.  A character stands for the UTF-16
    code unit of the same value. *)
#[warnings="-register-all"]
Inductive json : Type :=
| JNull
| JBool (b : bool)
| JNum (z : Z)
| JStr (s : string)
| JArr (items : list json)
| JObj (props : list (string * json)).

(** [None] is [undefined]. *)
Abbreviation value := (option json).

(** Evaluation of code that can throw: the exception is represented by the
    text the program's handlers print for it ([err.message]). *)
Inductive outcome (A : Type) : Type :=
| Ok (a : A)
| Thrown (message : string).
Arguments Ok {A} a.
Arguments Thrown {A} message.

Definition is_ok {A} (r : outcome A) : bool :=
  match r with Ok _ => true | Thrown _ => false end.

(** [ToBoolean]. *)
Definition truthy (v : value) : bool :=
  match v with
  | None | Some JNull => false
  | Some (JBool b) => b
  | Some (JNum z) => negb (Z.eqb z 0)
  | Some (JStr s) => negb (String.eqb s "")
  | Some (JArr _) | Some (JObj _) => true
  end.

(** [v === undefined || v === null]. *)
Definition nullish (v : value) : bool :=
  match v with None | Some JNull => true | Some _ => false end.

(** The property key of an array index, and back: only the canonical decimal
    spelling of a number is an index. *)
Definition key_of_index (i : nat) : string :=
  NilEmpty.string_of_uint (Nat.to_uint i).

Definition index_of_key (k : string) : option nat :=
  match NilEmpty.uint_of_string k with
  | Some d =>
      let i := Nat.of_uint d in
      if String.eqb (key_of_index i) k then Some i else None
  | None => None
  end.

Fixpoint string_nth (s : string) (i : nat) : option ascii :=
  match s, i with
  | EmptyString, _ => None
  | String c _, O => Some c
  | String _ s', S i' => string_nth s' i'
  end.

(** Own properties of an object. *)
Fixpoint obj_get (k : string) (o : list (string * json)) : value :=
  match o with
  | [] => None
  | (k', v) :: o' => if String.eqb k' k then Some v else obj_get k o'
  end.

(** [o[k] = v] and the [k: v] of an object literal: an existing property keeps
    its place, a new one goes last.  (Keys that spell an array index would be
    ordered first; the program only ever sets ['mcpServers'] and
    ['figma-console'].) *)
Fixpoint obj_set (k : string) (v : json) (o : list (string * json))
  : list (string * json) :=
  match o with
  | [] => [(k, v)]
  | (k', v') :: o' =>
      if String.eqb k' k then (k, v) :: o' else (k', v') :: obj_set k v o'
  end.

(** [delete o[k]]. *)
Fixpoint obj_delete (k : string) (o : list (string * json))
  : list (string * json) :=
  match o with
  | [] => []
  | (k', v') :: o' =>
      if String.eqb k' k then obj_delete k o' else (k', v') :: obj_delete k o'
  end.

(** [v[k]] for [v] other than [null]: own properties only (none of the keys the
    program reads is found on a prototype). *)
Definition get (v : json) (k : string) : value :=
  match v with
  | JNull | JBool _ | JNum _ => None
  | JStr s =>
      if String.eqb k "length" then Some (JNum (Z.of_nat (String.length s)))
      else match index_of_key k with
           | Some i => (fun c => JStr (String c EmptyString)) <$> string_nth s i
           | None => None
           end
  | JArr items =>
      if String.eqb k "length" then Some (JNum (Z.of_nat (length items)))
      else match index_of_key k with
           | Some i => nth_error items i
           | None => None
           end
  | JObj o => obj_get k o
  end.

(** [v.k]: reading a property of [null] throws. *)
Definition member (v : json) (k : string) : outcome value :=
  match v with
  | JNull =>
      Thrown ("Cannot read properties of null (reading '" +:+ k +:+ "')")
  | _ => Ok (get v k)
  end.

(** [v?.k] and [v?.[k]]. *)
Definition opt_member (v : value) (k : string) : value :=
  match v with
  | None | Some JNull => None
  | Some v' => get v' k
  end.

Fixpoint chars_from (i : nat) (s : string) : list (string * json) :=
  match s with
  | EmptyString => []
  | String c s' =>
      (key_of_index i, JStr (String c EmptyString)) :: chars_from (S i) s'
  end.

Fixpoint items_from (i : nat) (l : list json) : list (string * json) :=
  match l with
  | [] => []
  | v :: l' => (key_of_index i, v) :: items_from (S i) l'
  end.

(** The own enumerable properties that [{...v}] copies. *)
Definition own_props (v : value) : list (string * json) :=
  match v with
  | Some (JObj o) => o
  | Some (JArr items) => items_from 0 items
  | Some (JStr s) => chars_from 0 s
  | Some JNull | Some (JBool _) | Some (JNum _) | None => []
  end.

Definition is_object (v : json) : bool :=
  match v with JObj _ => true | _ => false end.

End JS.

Export JS.

(** ** [src/utils/config.ts] *)

Module Config.

(** What [JSON.parse] makes of a file's text. *)
Inductive file : Type :=
| Unparsable
| Parsed (j : json).

(** The file system as the program sees it: the files that exist, and the
    paths at which [fs.mkdirSync] / [fs.writeFileSync] fail, with the message
    of the error they throw there. *)
Record FS : Type := {
  files : gmap string file;
  unwritable : gmap string string;
}.

Definition existsSync (fs : FS) (p : string) : bool :=
  bool_decide (is_Some (files fs !! p)).

(** [readJsonConfig]: whatever [readFileSync] or [JSON.parse] throws is caught. *)
Definition readJsonConfig (fs : FS) (filePath : string) : json :=
  match files fs !! filePath with
  | Some (Parsed j) => j
  | Some Unparsable | None => JObj []
  end.

(** [writeJsonConfig]: the file afterwards holds the text of [data], which
    parses back to [data]. *)
Definition writeJsonConfig (filePath : string) (data : json) (fs : FS)
  : outcome unit * FS :=
  match unwritable fs !! filePath with
  | Some message => (Thrown message, fs)
  | None =>
      (Ok tt, {| files := <[filePath := Parsed data]> (files fs);
                 unwritable := unwritable fs |})
  end.

(** [InstallMethod].  TypeScript declares [path: string];
    [detectInstallMethodFromConfig] stores [args[0]] there unchecked, so the
    field holds the value found at run time. *)
Inductive InstallMethod : Type :=
| Npx
| Local (path : json).

Definition SERVERS_KEY : string := "mcpServers".
Definition RESERVED_KEY : string := "figma-console".

Definition getServerCommand (method : InstallMethod) : string * list json :=
  match method with
  | Local path => ("node", [path])
  | Npx => ("npx", [JStr "-y"; JStr "figma-console-mcp@latest"])
  end.

(** The object literal under ['figma-console'] in [mergeServerConfig]. *)
Definition serverEntry (token : string) (method : InstallMethod) : json :=
  let '(command, args) := getServerCommand method in
  JObj [("command", JStr command);
        ("args", JArr args);
        ("env", JObj [("FIGMA_ACCESS_TOKEN", JStr token);
                      ("ENABLE_MCP_APPS", JStr "true")])].

Definition mergeServerConfig (existing : json) (token : string)
    (method : InstallMethod) : outcome json :=
  match member existing SERVERS_KEY with
  | Thrown e => Thrown e
  | Ok m =>
      let mcpServers := if truthy m then m else Some (JObj []) in
      Ok (JObj (obj_set SERVERS_KEY
                  (JObj (obj_set RESERVED_KEY (serverEntry token method)
                           (own_props mcpServers)))
                  (own_props (Some existing))))
  end.

(** [v === s] for a string literal [s]. *)
Definition strict_eq_string (v : value) (s : string) : bool :=
  match v with
  | Some (JStr s') => String.eqb s' s
  | _ => false
  end.

(** [v.k] on a possibly undefined [v]. *)
Definition member_of (v : value) (k : string) : outcome value :=
  match v with
  | None =>
      Thrown ("Cannot read properties of undefined (reading '" +:+ k +:+ "')")
  | Some j => member j k
  end.

Definition detectInstallMethodFromConfig (fs : FS) (configPath : string)
  : outcome InstallMethod :=
  let config := readJsonConfig fs configPath in
  match member config SERVERS_KEY with
  | Thrown e => Thrown e
  | Ok mcpServers =>
      let figmaConsole := opt_member mcpServers RESERVED_KEY in
      if strict_eq_string (opt_member figmaConsole "command") "node" then
        match member_of figmaConsole "args" with
        | Thrown e => Thrown e
        | Ok args =>
            match opt_member args "0" with
            | Some a0 => if truthy (Some a0) then Ok (Local a0) else Ok Npx
            | None => Ok Npx
            end
        end
      else Ok Npx
  end.

End Config.

Export Config.

(** ** The world the wizard runs in *)

Module Host.

(** The client that has no config file is managed through the [claude]
    command-line tool.  What the tool does is outside the program: its store
    (and whatever the operator answers while it runs) is a state of some type
    [Cli] on which the tool's commands act.  The notices and prompts that
    [configureClaudeCode] shows while it runs are not modelled. *)
Class CliManagedTarget : Type := {
  Cli : Type;
  (** [which cmd] exits with status 0. *)
  which : Cli → string → bool;
  (** The output of [claude mcp list], [None] when [execSync] throws. *)
  claudeMcpList : Cli → option string;
  (** [execSync('claude mcp remove figma-console -s user')]. *)
  claudeMcpRemove : Cli → outcome unit * Cli;
  (** [configureClaudeCode(token, method)], as doctor.ts calls it. *)
  configureClaudeCode : string → InstallMethod → Cli → outcome bool * Cli;
}.

(** [os.platform()], [os.homedir()], [process.env.APPDATA] and [path.join]. *)
Record Machine : Type := {
  os_platform : string;
  homedir : string;
  env_APPDATA : option string;
  path_join : list string → string;
}.

(** A status line that doctor.ts prints. *)
Inductive line : Type :=
| Done (name verb : string)         (** green: [✓ name verb] *)
| Failed (name message : string)    (** red: [✗ name failed: message] *)
| Dim (text : string).

Record World `{CliManagedTarget} : Type := {
  fs : FS;
  cli : Cli;
  machine : Machine;
  console : list line;                (** what doctor.ts printed, oldest first *)
}.

Section Monad.
Context `{CliManagedTarget}.

(** Code that changes the world and can throw; the changes made before a throw
    stay. *)
Definition M (A : Type) : Type := World → outcome A * World.

Definition ret {A} (a : A) : M A := λ w, (Ok a, w).

Definition throw {A} (message : string) : M A := λ w, (Thrown message, w).

Definition bind {A B} (m : M A) (k : A → M B) : M B :=
  λ w, match m w with
       | (Ok a, w') => k a w'
       | (Thrown e, w') => (Thrown e, w')
       end.

(** [try { body } catch (err) { handler(message of err) }]. *)
Definition try_catch {A} (body : M A) (handler : string → M A) : M A :=
  λ w, match body w with
       | (Ok a, w') => (Ok a, w')
       | (Thrown e, w') => handler e w'
       end.

(** [for (const x of xs) { body(x) }]. *)
Fixpoint for_of {A} (xs : list A) (body : A → M unit) : M unit :=
  match xs with
  | [] => ret tt
  | x :: xs' => bind (body x) (λ _, for_of xs' body)
  end.

(** A value computed from the world without changing it. *)
Definition lift {A} (f : World → outcome A) : M A := λ w, (f w, w).

Definition on_fs {A} (f : FS → outcome A * FS) : M A :=
  λ w, let '(r, fs') := f (fs w) in
       (r, {| fs := fs'; cli := cli w; machine := machine w;
              console := console w |}).

Definition on_cli {A} (f : Cli → outcome A * Cli) : M A :=
  λ w, let '(r, cli') := f (cli w) in
       (r, {| fs := fs w; cli := cli'; machine := machine w;
              console := console w |}).

Definition console_log (l : line) : M unit :=
  λ w, (Ok tt, {| fs := fs w; cli := cli w; machine := machine w;
                  console := console w ++ [l] |}).

End Monad.

End Host.

Export Host.

Notation "'let*' x ':=' m 'in' k" := (bind m (λ x, k))
  (at level 10, x pattern, m at level 100, k at level 200, only parsing).

(** ** [src/steps/clientDetect.ts] and [isFigmaConsoleConfigured] *)

Module ClientDetect.

Record Client : Type := {
  name : string;
  id : string;
  configPath : option string;         (** [null] for Claude Code *)
  detected : bool;
  configured : bool;
}.

(** [hay.includes(needle)]. *)
Fixpoint includes (hay needle : string) : bool :=
  String.prefix needle hay ||
  match hay with
  | EmptyString => false
  | String _ hay' => includes hay' needle
  end.

Section WithCli.
Context `{CliManagedTarget}.

Definition getPlatform (w : World) : string :=
  let p := os_platform (machine w) in
  if String.eqb p "darwin" then "macos"
  else if String.eqb p "win32" then "windows"
  else "linux".

Definition getHomedir (w : World) : string := homedir (machine w).

Definition resolveConfigPath (w : World) (segments : list string) : string :=
  path_join (machine w) (getHomedir w :: segments).

Definition getAppDataPath (w : World) : string :=
  if String.eqb (getPlatform w) "windows" then
    match env_APPDATA (machine w) with
    | Some d => if String.eqb d "" then
                  path_join (machine w) [getHomedir w; "AppData"; "Roaming"]
                else d
    | None => path_join (machine w) [getHomedir w; "AppData"; "Roaming"]
    end
  else if String.eqb (getPlatform w) "macos" then
    path_join (machine w) [getHomedir w; "Library"; "Application Support"]
  else path_join (machine w) [getHomedir w; ".config"].

Definition isCommandAvailable (w : World) (cmd : string) : bool :=
  which (cli w) cmd.

(** [isClaudeCodeConfigured] of clientDetect.ts and [isFigmaConsoleConfigured]
    of configure.ts are the same code. *)
Definition isFigmaConsoleConfigured (w : World) : bool :=
  match claudeMcpList (cli w) with
  | Some output => includes output "figma-console"
  | None => false
  end.

Definition isJsonClientConfigured (w : World) (configPath : string)
  : outcome bool :=
  let config := readJsonConfig (fs w) configPath in
  match member config SERVERS_KEY with
  | Thrown e => Thrown e
  | Ok mcpServers =>
      Ok (bool_decide (is_Some (opt_member mcpServers RESERVED_KEY)))
  end.

(** [fs.existsSync(p) && isJsonClientConfigured(p)]. *)
Definition jsonClient (w : World) (nm ident p : string) : outcome Client :=
  if existsSync (fs w) p then
    match isJsonClientConfigured w p with
    | Thrown e => Thrown e
    | Ok c => Ok {| name := nm; id := ident; configPath := Some p;
                    detected := true; configured := c |}
    end
  else Ok {| name := nm; id := ident; configPath := Some p;
             detected := false; configured := false |}.

Definition getClients (w : World) : outcome (list Client) :=
  let appData := getAppDataPath w in
  let claudeDesktopPath :=
    if String.eqb (getPlatform w) "windows"
    then appData +:+ "\Claude\claude_desktop_config.json"
    else appData +:+ "/Claude/claude_desktop_config.json" in
  let cursorPath := resolveConfigPath w [".cursor"; "mcp.json"] in
  let windsurfPath :=
    resolveConfigPath w [".codeium"; "windsurf"; "mcp_config.json"] in
  let claudeCodeDetected := isCommandAvailable w "claude" in
  match jsonClient w "Claude Desktop" "claude-desktop" claudeDesktopPath with
  | Thrown e => Thrown e
  | Ok desktop =>
  match jsonClient w "Cursor" "cursor" cursorPath with
  | Thrown e => Thrown e
  | Ok cursor =>
  match jsonClient w "Windsurf" "windsurf" windsurfPath with
  | Thrown e => Thrown e
  | Ok windsurf =>
      Ok [ {| name := "Claude Code"; id := "claude-code"; configPath := None;
              detected := claudeCodeDetected;
              configured := claudeCodeDetected && isFigmaConsoleConfigured w |};
           desktop; cursor; windsurf ]
  end end end.

End WithCli.

End ClientDetect.

Export ClientDetect.

(** ** [src/steps/configure.ts] and [src/steps/doctor.ts] *)

Module Doctor.

Record ScanResult : Type := {
  client : Client;
  is_configured : bool;               (** the field [configured] *)
  token : value;                      (** [None] is [null] *)
}.

(** An entry of an [@inquirer/prompts] checkbox. *)
Record Choice : Type := {
  choice_name : string;
  choice_value : string;
}.

(** The checkbox prompt returns the values of the entries the operator ticked,
    in the order of the entries. *)
Definition checkbox (ticked : Choice → bool) (choices : list Choice)
  : list string :=
  map choice_value (List.filter ticked choices).

(** [client.configPath] where the program tests it for truth. *)
Definition truthy_path (c : Client) : option string :=
  match configPath c with
  | Some p => if String.eqb p "" then None else Some p
  | None => None
  end.

(** Lines 125 to 128 of doctor.ts: the value that [writeJsonConfig] then
    serialises.  A property assigned to an array is not serialised; assigning
    one to a string, number or boolean throws in a module (strict mode); the
    thrown messages are abbreviated. *)
Definition removeEntry (config : json) : outcome json :=
  match member config SERVERS_KEY with
  | Thrown e => Thrown e
  | Ok m =>
      let mcpServers :=
        match m with
        | None | Some JNull => JObj []
        | Some v => v
        end in
      let mcpServers' :=
        match mcpServers with
        | JObj o => JObj (obj_delete RESERVED_KEY o)
        | v => v
        end in
      match config with
      | JObj o => Ok (JObj (obj_set SERVERS_KEY mcpServers' o))
      | JArr items => Ok (JArr items)
      | JStr _ => Thrown "Cannot create property 'mcpServers' on string"
      | JNum _ => Thrown "Cannot create property 'mcpServers' on number"
      | JBool _ => Thrown "Cannot create property 'mcpServers' on boolean"
      | JNull => Thrown "Cannot set properties of null (setting 'mcpServers')"
      end
  end.

Section WithCli.
Context `{CliManagedTarget}.

Definition of_outcome {A} (r : outcome A) : M A := λ w, (r, w).

(** [result.client], where [result] comes from [find(...)!]. *)
Definition client_of (result : option ScanResult) : M Client :=
  match result with
  | Some r => ret (client r)
  | None => throw "Cannot read properties of undefined (reading 'client')"
  end.

(** [configureJsonClient(client, token)] of configure.ts, lines 98 to 103.
    It has two parameters and calls [mergeServerConfig(existing, token)], so
    the merge uses its default method, the on-demand one.  doctor.ts calls it
    with the install method as a third argument; JavaScript evaluates and
    drops an argument that has no parameter.  With a [null] path the read
    gives [{}] and [path.dirname] in [writeJsonConfig] throws. *)
Definition configureJsonClient (c : Client) (tok : string) : M unit :=
  match configPath c with
  | None => throw "The 'path' argument must be of type string. Received null"
  | Some p =>
      let* existing := lift (λ w, Ok (readJsonConfig (fs w) p)) in
      let* merged := of_outcome (mergeServerConfig existing tok Npx) in
      on_fs (writeJsonConfig p merged)
  end.

Definition scanClient (w : World) (c : Client) : outcome ScanResult :=
  if String.eqb (id c) "claude-code" then
    Ok {| client := c;
          is_configured := detected c && isFigmaConsoleConfigured w;
          token := None |}
  else
    match (if detected c then truthy_path c else None) with
    | None => Ok {| client := c; is_configured := false; token := None |}
    | Some p =>
        let config := readJsonConfig (fs w) p in
        match member config SERVERS_KEY with
        | Thrown e => Thrown e
        | Ok mcpServers =>
            let figmaConsole := opt_member mcpServers RESERVED_KEY in
            if negb (truthy figmaConsole) then
              Ok {| client := c; is_configured := false; token := None |}
            else
              match member_of figmaConsole "env" with
              | Thrown e => Thrown e
              | Ok env =>
                  let tok := opt_member env "FIGMA_ACCESS_TOKEN" in
                  Ok {| client := c; is_configured := true;
                        token := if nullish tok then None else tok |}
              end
        end
    end.

(** [xs.map(f)] with an [f] that can throw. *)
Fixpoint map_outcome {A B} (f : A → outcome B) (xs : list A)
  : outcome (list B) :=
  match xs with
  | [] => Ok []
  | x :: xs' =>
      match f x with
      | Thrown e => Thrown e
      | Ok y =>
          match map_outcome f xs' with
          | Thrown e => Thrown e
          | Ok ys => Ok (y :: ys)
          end
      end
  end.

Definition scanClients (w : World) : outcome (list ScanResult) :=
  match getClients w with
  | Thrown e => Thrown e
  | Ok clients => map_outcome (scanClient w) clients
  end.

(** [updateToken]; [prompt] is what [promptForToken()] gives.  The method is
    inferred (which can throw) and handed to [configureJsonClient] as a third
    argument, which that function does not take. *)
Definition updateToken (prompt : outcome string) (results : list ScanResult)
  : M unit :=
  let* tok := of_outcome prompt in
  let batch := List.filter is_configured results in
  for_of batch (λ r,
    let c := client r in
    try_catch
      (let* method :=
         match truthy_path c with
         | Some p => lift (λ w, detectInstallMethodFromConfig (fs w) p)
         | None => ret Npx
         end in
       let* _ :=
         if String.eqb (id c) "claude-code" then
           let* _ := on_cli (configureClaudeCode tok method) in ret tt
         else
           match truthy_path c with
           | Some _ => configureJsonClient c tok
           | None => ret tt
           end in
       console_log (Done (name c) "updated"))
      (λ message, console_log (Failed (name c) message))).

Definition choices_of (rs : list ScanResult) : list Choice :=
  map (λ r, {| choice_name := name (client r);
               choice_value := id (client r) |}) rs.

Definition find_by_id (rs : list ScanResult) (ident : string)
  : option ScanResult :=
  List.find (λ r, String.eqb (id (client r)) ident) rs.

(** The loop of [removeIntegrations], lines 119 to 137. *)
Definition removeLoop (batch : list ScanResult) (toRemove : list string)
  : M unit :=
  for_of toRemove (λ ident,
    let result := find_by_id batch ident in
    try_catch
      (let* _ :=
         if String.eqb ident "claude-code" then on_cli claudeMcpRemove
         else
           let* c := client_of result in
           match truthy_path c with
           | Some p =>
               let* config := lift (λ w, Ok (readJsonConfig (fs w) p)) in
               let* data := of_outcome (removeEntry config) in
               on_fs (writeJsonConfig p data)
           | None => ret tt
           end in
       let* c := client_of result in
       console_log (Done (name c) "removed"))
      (λ message,
         let* c := client_of result in
         console_log (Failed (name c) message))).

Definition removeIntegrations (ticked : Choice → bool)
    (results : list ScanResult) : M unit :=
  let batch := List.filter is_configured results in
  let toRemove := checkbox ticked (choices_of batch) in
  match toRemove with
  | [] => console_log (Dim "No clients selected.")
  | _ => removeLoop batch toRemove
  end.

(** The loop of [addIntegrations], lines 173 to 187.  [configureJsonClient]
    does not take the method that line 179 hands to it. *)
Definition addLoop (tok : string) (method : InstallMethod)
    (batch : list ScanResult) (toAdd : list string) : M unit :=
  for_of toAdd (λ ident,
    let result := find_by_id batch ident in
    try_catch
      (let* _ :=
         if String.eqb ident "claude-code" then
           let* _ := on_cli (configureClaudeCode tok method) in ret tt
         else
           let* c := client_of result in
           match truthy_path c with
           | Some _ => configureJsonClient c tok
           | None => ret tt
           end in
       let* c := client_of result in
       console_log (Done (name c) "configured"))
      (λ message,
         let* c := client_of result in
         console_log (Failed (name c) message))).

(** [addIntegrations]; [prompts] is what the token prompts (reuse or a new
    token) and [selectInstallMethod()] give, in that order. *)
Definition addIntegrations (ticked : Choice → bool)
    (prompts : outcome (string * InstallMethod)) (results : list ScanResult)
  : M unit :=
  let batch :=
    List.filter (λ r, detected (client r) && negb (is_configured r)) results in
  let toAdd := checkbox ticked (choices_of batch) in
  match toAdd with
  | [] => console_log (Dim "No clients selected.")
  | _ =>
      let* answers := of_outcome prompts in
      addLoop (fst answers) (snd answers) batch toAdd
  end.

End WithCli.

End Doctor.

Export Doctor.

(** ** [node:crypto]: SHA-1 (FIPS 180-4) and base64 (RFC 4648)

    [createHash('sha1').update(s).digest('base64')] hashes the UTF-8 encoding
    of [s] and prints the 20 bytes of the digest in base64. *)

Module Crypto.

Local Open Scope Z_scope.

Abbreviation word := Z (only parsing).          (* a 32-bit word, 0 <= w < 2^32 *)
Abbreviation byte := Z (only parsing).          (* 0 <= b < 256 *)

Definition wrap32 (x : Z) : word := x mod 2 ^ 32.

Definition add32 (x y : word) : word := wrap32 (x + y).

Definition rotl32 (n : Z) (x : word) : word :=
  wrap32 (Z.lor (Z.shiftl x n) (Z.shiftr x (32 - n))).

Definition not32 (x : word) : word := 2 ^ 32 - 1 - x.

(** The round function and constant of round [t]. *)
Definition sha1_f (t : nat) (b c d : word) : word :=
  if (t <? 20)%nat then Z.lor (Z.land b c) (Z.land (not32 b) d)
  else if (t <? 40)%nat then Z.lxor (Z.lxor b c) d
  else if (t <? 60)%nat then
    Z.lor (Z.lor (Z.land b c) (Z.land b d)) (Z.land c d)
  else Z.lxor (Z.lxor b c) d.

Definition sha1_k (t : nat) : word :=
  if (t <? 20)%nat then 0x5A827999
  else if (t <? 40)%nat then 0x6ED9EBA1
  else if (t <? 60)%nat then 0x8F1BBCDC
  else 0xCA62C1D6.

(** The message followed by the bit 1, zeros up to 56 modulo 64, and the
    length in bits as a 64-bit big-endian number. *)
Definition be_bytes (n : nat) (x : Z) : list byte :=
  map (λ i, Z.shiftr x (8 * Z.of_nat i) mod 256) (rev (seq 0 n)).

Definition sha1_pad (msg : list byte) : list byte :=
  let len := Z.of_nat (length msg) in
  let zeros := Z.to_nat ((55 - len) mod 64) in
  msg ++ [0x80] ++ repeat 0 zeros ++ be_bytes 8 (8 * len).

Fixpoint be_word (bs : list byte) (acc : Z) : word :=
  match bs with
  | [] => acc
  | b :: bs' => be_word bs' (acc * 256 + b)
  end.

(** The big-endian 32-bit words of a byte string, four bytes at a time. *)
Fixpoint words_of (fuel : nat) (bs : list byte) : list word :=
  match fuel, bs with
  | S fuel', b0 :: b1 :: b2 :: b3 :: bs' =>
      be_word [b0; b1; b2; b3] 0 :: words_of fuel' bs'
  | _, _ => []
  end.

Record sha1_state : Type := {
  h0 : word; h1 : word; h2 : word; h3 : word; h4 : word;
}.

Definition sha1_init : sha1_state :=
  {| h0 := 0x67452301; h1 := 0xEFCDAB89; h2 := 0x98BADCFE;
     h3 := 0x10325476; h4 := 0xC3D2E1F0 |}.

Definition nth_word (ws : list word) (i : nat) : word := nth i ws 0.

(** Rounds [t], [t+1], ... of one block: [ws] holds the sixteen words
    W(t) ... W(t+15) of the message schedule. *)
Fixpoint sha1_rounds (n t : nat) (ws : list word) (s : sha1_state)
  : sha1_state :=
  match n with
  | O => s
  | S n' =>
      let w := nth_word ws 0 in
      let tmp :=
        add32 (add32 (add32 (add32 (rotl32 5 (h0 s))
                                   (sha1_f t (h1 s) (h2 s) (h3 s)))
                            (h4 s))
                     (sha1_k t))
              w in
      let next :=
        rotl32 1 (Z.lxor (Z.lxor (Z.lxor (nth_word ws 13) (nth_word ws 8))
                                 (nth_word ws 2))
                         (nth_word ws 0)) in
      sha1_rounds n' (S t) (tl ws ++ [next])
        {| h0 := tmp; h1 := h0 s; h2 := rotl32 30 (h1 s); h3 := h2 s;
           h4 := h3 s |}
  end.

Definition sha1_block (s : sha1_state) (block : list word) : sha1_state :=
  let r := sha1_rounds 80 0 block s in
  {| h0 := add32 (h0 s) (h0 r); h1 := add32 (h1 s) (h1 r);
     h2 := add32 (h2 s) (h2 r); h3 := add32 (h3 s) (h3 r);
     h4 := add32 (h4 s) (h4 r) |}.

Fixpoint sha1_blocks (fuel : nat) (ws : list word) (s : sha1_state)
  : sha1_state :=
  match fuel, ws with
  | S fuel', _ :: _ => sha1_blocks fuel' (skipn 16 ws) (sha1_block s (firstn 16 ws))
  | _, _ => s
  end.

Definition sha1 (msg : list byte) : list byte :=
  let padded := sha1_pad msg in
  let ws := words_of (length padded) padded in
  let s := sha1_blocks (length ws) ws sha1_init in
  be_bytes 4 (h0 s) ++ be_bytes 4 (h1 s) ++ be_bytes 4 (h2 s) ++
  be_bytes 4 (h3 s) ++ be_bytes 4 (h4 s).

(** [Buffer.from(s, 'utf8')] for a string of code units below 256: one byte
    below 128, two bytes from 128 on. *)
Definition utf8_of_char (c : ascii) : list byte :=
  let n := Z.of_N (N_of_ascii c) in
  if n <? 128 then [n] else [0xC0 + n / 64; 0x80 + n mod 64].

Definition utf8 (s : string) : list byte :=
  flat_map utf8_of_char (list_ascii_of_string s).

Definition base64_alphabet : string :=
  "ABCDEFGHIJKLMNOPQRSTUVWXYZabcdefghijklmnopqrstuvwxyz0123456789+/".

Definition base64_char (i : Z) : ascii :=
  match String.get (Z.to_nat i) base64_alphabet with
  | Some c => c
  | None => "="%char
  end.

Fixpoint base64_go (fuel : nat) (bs : list byte) : string :=
  match fuel, bs with
  | S fuel', b0 :: b1 :: b2 :: bs' =>
      String (base64_char (b0 / 4))
        (String (base64_char ((b0 mod 4) * 16 + b1 / 16))
           (String (base64_char ((b1 mod 16) * 4 + b2 / 64))
              (String (base64_char (b2 mod 64)) (base64_go fuel' bs'))))
  | S _, [b0; b1] =>
      String (base64_char (b0 / 4))
        (String (base64_char ((b0 mod 4) * 16 + b1 / 16))
           (String (base64_char ((b1 mod 16) * 4)) "="))
  | S _, [b0] =>
      String (base64_char (b0 / 4))
        (String (base64_char ((b0 mod 4) * 16)) "==")
  | _, _ => ""
  end.

Definition base64 (bs : list byte) : string := base64_go (S (length bs)) bs.

Definition hex_digit (i : Z) : ascii :=
  match String.get (Z.to_nat i) "0123456789abcdef" with
  | Some c => c
  | None => "?"%char
  end.

Fixpoint hex (bs : list byte) : string :=
  match bs with
  | [] => ""
  | b :: bs' => String (hex_digit (b / 16)) (String (hex_digit (b mod 16)) (hex bs'))
  end.

(** [createHash('sha1').update(s).digest('base64')]. *)
Definition sha1_base64 (s : string) : string := base64 (sha1 (utf8 s)).

End Crypto.

(** ** [src/steps/healthCheck.ts]: [waitForBridgeWithCancel] *)

Module HealthCheck.

Definition BRIDGE_PORTS : list Z :=
  [9223; 9224; 9225; 9226; 9227; 9228; 9229; 9230; 9231; 9232]%Z.

Definition BRIDGE_TIMEOUT_MS : Z := 60000.

(** The port that [checkCdp] polls. *)
Definition CDP_PORT : Z := 9222.

Inductive BridgeResult : Type := connected | timeout | cancelled.

Definition WS_MAGIC : string := "258EAFA5-E914-47DA-95CA-5AB5E34B13E5".

(** The globally unique identifier that RFC 6455 (section 1.3) has the server
    append to the client's key. *)
Definition RFC6455_GUID : string := "258EAFA5-E914-47DA-95CA-C5AB0DC85B11".

Definition CRLF : string := String "013" (String "010" "").

Definition ESC : string := String "027" "".

(** Lines 110 to 112. *)
Definition accept_token (key : string) : string :=
  Crypto.sha1_base64 (key +:+ WS_MAGIC).

(** The text of lines 113 to 119. *)
Definition upgrade_response (accept : string) : string :=
  "HTTP/1.1 101 Switching Protocols" +:+ CRLF +:+
  "Upgrade: websocket" +:+ CRLF +:+
  "Connection: Upgrade" +:+ CRLF +:+
  "Sec-WebSocket-Accept: " +:+ accept +:+ CRLF +:+
  CRLF.

(** [tryListen(server, port)]: [free port] tells whether
    [server.listen(port, '127.0.0.1')] succeeds rather than emits ['error']. *)
Definition tryListen (free : Z → bool) (port : Z) : bool := free port.

(** The loop of lines 44 to 47: the ports tried, in the order tried, and the
    port the server is bound to in the end. *)
Fixpoint tryPorts (free : Z → bool) (ports : list Z) : list Z * option Z :=
  match ports with
  | [] => ([], None)
  | port :: ports' =>
      if tryListen free port then ([port], Some port)
      else let '(tried, bound) := tryPorts free ports' in (port :: tried, bound)
  end.

(** Everything the promise of lines 55 to 125 owns or touches. *)
Record Wait : Type := {
  resolved : bool;                    (** the flag of [cleanup] *)
  promise : option BridgeResult;      (** the value the promise is settled with *)
  spinner : bool;                     (** [spinnerInterval] is armed *)
  frame : nat;
  timer : bool;                       (** [timer] is armed *)
  listening : option Z;               (** the port the server listens on *)
  close_calls : nat;                  (** calls of [server.close()] *)
  close_pending : bool;               (** ['close'] is still to be emitted *)
  isTTY : bool;
  isRaw : bool;
  flowing : bool;                     (** stdin is resumed *)
  onData : bool;                      (** [onData] listens on stdin *)
  exit_hook : bool;                   (** [restoreStdin] listens on ['exit'] *)
  sent : list string;                 (** what was written to upgrade sockets *)
}.

Definition restoreStdin (s : Wait) : Wait :=
  if isTTY s && isRaw s then
    {| resolved := resolved s; promise := promise s; spinner := spinner s;
       frame := frame s; timer := timer s; listening := listening s;
       close_calls := close_calls s; close_pending := close_pending s;
       isTTY := isTTY s; isRaw := false; flowing := false;
       onData := onData s; exit_hook := exit_hook s; sent := sent s |}
  else s.

Definition cleanup (s : Wait) : Wait :=
  if resolved s then s
  else
    let s1 :=
      {| resolved := true; promise := promise s; spinner := false;
         frame := frame s; timer := false; listening := None;
         close_calls := S (close_calls s);
         close_pending := bool_decide (is_Some (listening s));
         isTTY := isTTY s; isRaw := isRaw s; flowing := flowing s;
         onData := onData s; exit_hook := exit_hook s; sent := sent s |} in
    let s2 := restoreStdin s1 in
    {| resolved := resolved s2; promise := promise s2; spinner := spinner s2;
       frame := frame s2; timer := timer s2; listening := listening s2;
       close_calls := close_calls s2; close_pending := close_pending s2;
       isTTY := isTTY s2; isRaw := isRaw s2; flowing := flowing s2;
       onData := onData s2; exit_hook := false; sent := sent s2 |}.

(** [resolve(r)]: settling a settled promise does nothing. *)
Definition resolve (r : BridgeResult) (s : Wait) : Wait :=
  match promise s with
  | Some _ => s
  | None =>
      {| resolved := resolved s; promise := Some r; spinner := spinner s;
         frame := frame s; timer := timer s; listening := listening s;
         close_calls := close_calls s; close_pending := close_pending s;
         isTTY := isTTY s; isRaw := isRaw s; flowing := flowing s;
         onData := onData s; exit_hook := exit_hook s; sent := sent s |}
  end.

Definition removeDataListener (s : Wait) : Wait :=
  {| resolved := resolved s; promise := promise s; spinner := spinner s;
     frame := frame s; timer := timer s; listening := listening s;
     close_calls := close_calls s; close_pending := close_pending s;
     isTTY := isTTY s; isRaw := isRaw s; flowing := flowing s;
     onData := false; exit_hook := exit_hook s; sent := sent s |}.

Definition socket_write (text : string) (s : Wait) : Wait :=
  {| resolved := resolved s; promise := promise s; spinner := spinner s;
     frame := frame s; timer := timer s; listening := listening s;
     close_calls := close_calls s; close_pending := close_pending s;
     isTTY := isTTY s; isRaw := isRaw s; flowing := flowing s;
     onData := onData s; exit_hook := exit_hook s; sent := sent s ++ [text] |}.

(** What the event loop can deliver during the wait. *)
Inductive event : Type :=
| Tick                                (** the 80 ms spinner interval *)
| TimerFires                          (** the 60 s timeout *)
| Data (data : string)                (** a ['data'] event of stdin *)
| Upgrade (key : option string)       (** an upgrade request and its
                                          [sec-websocket-key] header *)
| ServerClose.                        (** the server's ['close'] event *)

(** The callbacks of lines 72, 79, 91, 101 and 107.  An event whose source is
    disarmed, paused or has no listener runs no callback.  The ['upgrade']
    listener is never removed, so it runs whenever the server emits the event
    (after [server.close()] that can only be on a connection accepted
    before). *)
Definition step (s : Wait) (e : event) : Wait :=
  match e with
  | Tick =>
      if spinner s then
        {| resolved := resolved s; promise := promise s; spinner := spinner s;
           frame := S (frame s); timer := timer s; listening := listening s;
           close_calls := close_calls s; close_pending := close_pending s;
           isTTY := isTTY s; isRaw := isRaw s; flowing := flowing s;
           onData := onData s; exit_hook := exit_hook s; sent := sent s |}
      else s
  | TimerFires =>
      if timer s then
        let s1 :=
          {| resolved := resolved s; promise := promise s;
             spinner := spinner s; frame := frame s; timer := false;
             listening := listening s; close_calls := close_calls s;
             close_pending := close_pending s; isTTY := isTTY s;
             isRaw := isRaw s; flowing := flowing s; onData := onData s;
             exit_hook := exit_hook s; sent := sent s |} in
        resolve timeout (cleanup s1)
      else s
  | Data data =>
      if onData s && flowing s then
        if String.eqb data ESC then
          resolve cancelled (cleanup (removeDataListener s))
        else s
      else s
  | Upgrade key =>
      let s1 :=
        match key with
        | Some k => socket_write (upgrade_response (accept_token k)) s
        | None => s
        end in
      resolve connected (cleanup s1)
  | ServerClose =>
      if close_pending s then
        let s1 :=
          {| resolved := resolved s; promise := promise s;
             spinner := spinner s; frame := frame s; timer := timer s;
             listening := listening s; close_calls := close_calls s;
             close_pending := false; isTTY := isTTY s; isRaw := isRaw s;
             flowing := flowing s; onData := onData s;
             exit_hook := exit_hook s; sent := sent s |} in
        if isTTY s then removeDataListener s1 else s1
      else s
  end.

(** The state in which the promise's executor leaves things: the server bound
    to [port], spinner and timer armed and, on a terminal, stdin raw and
    resumed with [onData] listening. *)
Definition start (port : Z) (tty : bool) : Wait :=
  {| resolved := false; promise := None; spinner := true; frame := 0;
     timer := true; listening := Some port; close_calls := 0;
     close_pending := false; isTTY := tty; isRaw := tty; flowing := tty;
     onData := tty; exit_hook := tty; sent := [] |}.

Definition run (s : Wait) (events : list event) : Wait :=
  fold_left step events s.

(** The result of [waitForBridgeWithCancel] when the event loop delivers
    [events]: the ports tried, the state of the wait if there was one, and the
    value returned so far. *)
Record BridgeRun : Type := {
  tried : list Z;
  bound : option Z;                   (** the port the server got to listen on *)
  wait : option Wait;
  returned : option BridgeResult;
}.

Definition waitForBridgeWithCancel (free : Z → bool) (tty : bool)
    (events : list event) : BridgeRun :=
  let '(ports, listener) := tryPorts free BRIDGE_PORTS in
  match listener with
  | None =>
      {| tried := ports; bound := None; wait := None;
         returned := Some connected |}
  | Some port =>
      let s := run (start port tty) events in
      {| tried := ports; bound := Some port; wait := Some s;
         returned := promise s |}
  end.

(** One of the three events of the race reaches its callback in [s]. *)
Definition fires (s : Wait) (e : event) : bool :=
  match e with
  | TimerFires => timer s
  | Data data => onData s && flowing s && String.eqb data ESC
  | Upgrade _ => true
  | Tick | ServerClose => false
  end.

Definition outcome_of (e : event) : BridgeResult :=
  match e with
  | Data _ => cancelled
  | Upgrade _ => connected
  | _ => timeout
  end.

End HealthCheck.

(** ** Concrete configurations and worlds used as examples *)

Module Examples.

(** A file system with the single file [p], holding [content]. *)
Definition one_file (p : string) (content : file) : FS :=
  {| files := {[ p := content ]}; unwritable := ∅ |}.

Definition empty_fs : FS := {| files := ∅; unwritable := ∅ |}.

(** [{"theme": "dark", "mcpServers": {"other": {"command": "x"}}}] *)
Definition sample_config : list (string * json) :=
  [("theme", JStr "dark");
   ("mcpServers", JObj [("other", JObj [("command", JStr "x")])])].

(** A reserved entry whose [args] holds a number:
    [{"mcpServers": {"figma-console": {"command": "node", "args": [5]}}}] *)
Definition numeric_args_config : json :=
  JObj [("mcpServers",
         JObj [("figma-console",
                JObj [("command", JStr "node"); ("args", JArr [JNum 5])])])].

Definition local_method : InstallMethod :=
  Local (JStr "/home/u/figma-console-mcp/dist/local.js").

(** [sample_config] merged with a token and [method]. *)
Definition merged_sample (method : InstallMethod) : json :=
  match mergeServerConfig (JObj sample_config) "figd_1" method with
  | Ok merged => merged
  | Thrown _ => JNull
  end.

(** The file system after [merged_sample method] is written to [cfg.json]. *)
Definition fs_merged (method : InstallMethod) : FS :=
  snd (writeJsonConfig "cfg.json" (merged_sample method) empty_fs).

(** A machine without the [claude] tool: every command fails to start. *)
Definition no_claude : CliManagedTarget :=
  {| Cli := unit;
     which := λ _ _, false;
     claudeMcpList := λ _, None;
     claudeMcpRemove := λ c, (Thrown "spawnSync /bin/sh ENOENT", c);
     configureClaudeCode := λ _ _ c, (Thrown "spawnSync /bin/sh ENOENT", c) |}.

Definition linux_machine : Machine :=
  {| os_platform := "linux"; homedir := "/home/u"; env_APPDATA := None;
     path_join := String.concat "/" |}.

Definition desktop_path : string :=
  "/home/u/.config/Claude/claude_desktop_config.json".
Definition cursor_path : string := "/home/u/.cursor/mcp.json".
Definition windsurf_path : string :=
  "/home/u/.codeium/windsurf/mcp_config.json".

Definition EACCES : string :=
  "EACCES: permission denied, open '/home/u/.cursor/mcp.json'".

(** Three clients installed, none configured; Cursor's file is read-only. *)
Definition fresh_world : @World no_claude :=
  @Build_World no_claude
    {| files := {[ desktop_path := Parsed (JObj []);
                   cursor_path := Parsed (JObj sample_config);
                   windsurf_path := Unparsable ]};
       unwritable := {[ cursor_path := EACCES ]} |}
    tt linux_machine [].



Definition client_at (nm ident p : string) (was_configured : bool) : Client :=
  {| name := nm; id := ident; configPath := Some p; detected := true;
     configured := was_configured |}.

Definition result_at (nm ident p : string) (was_configured : bool)
  : ScanResult :=
  {| client := client_at nm ident p was_configured;
     is_configured := was_configured; token := None |}.

(** Scan results for the three file-backed clients, all unconfigured or all
    configured. *)
Definition three_results (was_configured : bool) : list ScanResult :=
  [result_at "Claude Desktop" "claude-desktop" desktop_path was_configured;
   result_at "Cursor" "cursor" cursor_path was_configured;
   result_at "Windsurf" "windsurf" windsurf_path was_configured].

End Examples.

(** ** Vocabulary of the properties

    Predicates and auxiliary functions in which the properties below are
    stated; none of them is part of the program. *)

Module Vocabulary.

Import HealthCheck.

(** The entry under the reserved key, [config.mcpServers?.['figma-console']]. *)
Definition reserved_entry (config : json) : value :=
  opt_member (get config SERVERS_KEY) RESERVED_KEY.

(** The methods that [detectInstallMethodFromConfig] gives back: on-demand, and
    local with a path that is truthy (for a string: not empty). *)
Definition recoverable (m : InstallMethod) : Prop :=
  match m with
  | Npx => True
  | Local path => truthy (Some path) = true
  end.

(** The file system after [data] is written to [p]. *)
Definition written (f : FS) (p : string) (data : json) : FS :=
  {| files := <[p := Parsed data]> (files f); unwritable := unwritable f |}.

(** No config file holds the JSON text [null]. *)
Definition no_null_file (f : FS) : Prop :=
  ∀ p, files f !! p ≠ Some (Parsed JNull).

(** [c] is not the CLI-managed client and has the config path [p]. *)
Definition file_backed (c : Client) (p : string) : Prop :=
  String.eqb (id c) "claude-code" = false ∧ truthy_path c = Some p.

(** [l] is the status line of the target named [nm]: success, or failure with
    some message. *)
Definition report_of (nm verb : string) (l : line) : Prop :=
  l = Done nm verb ∨ ∃ message, l = Failed nm message.

(** The ids of a batch, in order: what the checkbox returns when every entry
    is ticked. *)
Definition ids_of (rs : list ScanResult) : list string :=
  map (λ r, id (client r)) rs.

(** Success for the first target, failure for the second, success for the
    third. *)
Definition three_lines (verb : string) (r1 r2 r3 : ScanResult)
    (message : string) : list line :=
  [Done (name (client r1)) verb; Failed (name (client r2)) message;
   Done (name (client r3)) verb].

Section WithCli.
Context `{CliManagedTarget}.

(** The world after one more line of console output. *)
Definition logged (w : World) (l : line) : World :=
  {| fs := fs w; cli := cli w; machine := machine w;
     console := console w ++ [l] |}.

(** The world with its file system replaced. *)
Definition with_fs (w : World) (f : FS) : World :=
  {| fs := f; cli := cli w; machine := machine w; console := console w |}.

(** A computation that prints nothing. *)
Definition silent {A} (m : M A) : Prop :=
  ∀ w, console (snd (m w)) = console w.


(** What the loop of [updateToken] does to a target before it reports. *)
Definition update_target (tok : string) (c : Client) : M unit :=
  let* method :=
    match truthy_path c with
    | Some p => lift (λ w, detectInstallMethodFromConfig (fs w) p)
    | None => ret Npx
    end in
  if String.eqb (id c) "claude-code" then
    let* _ := on_cli (configureClaudeCode tok method) in ret tt
  else
    match truthy_path c with
    | Some _ => configureJsonClient c tok
    | None => ret tt
    end.

(** What the loop of [removeIntegrations] does to a target before it reports. *)
Definition remove_target (c : Client) : M unit :=
  if String.eqb (id c) "claude-code" then on_cli claudeMcpRemove
  else
    match truthy_path c with
    | Some p =>
        let* config := lift (λ w, Ok (readJsonConfig (fs w) p)) in
        let* data := of_outcome (removeEntry config) in
        on_fs (writeJsonConfig p data)
    | None => ret tt
    end.

(** What the loop of [addIntegrations] does to a target before it reports. *)
Definition add_target (tok : string) (method : InstallMethod) (c : Client)
  : M unit :=
  if String.eqb (id c) "claude-code" then
    let* _ := on_cli (configureClaudeCode tok method) in ret tt
  else
    match truthy_path c with
    | Some _ => configureJsonClient c tok
    | None => ret tt
    end.

(** The world after an attempt on a file-backed target: the file rewritten and
    a success line, or, when the write fails, nothing but a failure line. *)
Definition after_attempt (w : World) (c : Client) (p : string) (verb : string)
    (data : json) : World :=
  match unwritable (fs w) !! p with
  | None => logged (with_fs w (written (fs w) p data)) (Done (name c) verb)
  | Some message => logged w (Failed (name c) message)
  end.

(** Three file-backed targets with distinct ids, whose config files hold JSON
    objects; the first and the third at distinct writable paths, the second
    at a path where writing fails with [message]. *)
Definition second_unwritable (w : World) (r1 r2 r3 : ScanResult)
    (p1 p2 p3 : string) (x1 x2 x3 : list (string * json)) (message : string)
  : Prop :=
  file_backed (client r1) p1 ∧ file_backed (client r2) p2 ∧
  file_backed (client r3) p3 ∧
  id (client r1) ≠ id (client r2) ∧ id (client r1) ≠ id (client r3) ∧
  id (client r2) ≠ id (client r3) ∧
  p1 ≠ p3 ∧
  readJsonConfig (fs w) p1 = JObj x1 ∧ readJsonConfig (fs w) p2 = JObj x2 ∧
  readJsonConfig (fs w) p3 = JObj x3 ∧
  unwritable (fs w) !! p1 = None ∧ unwritable (fs w) !! p2 = Some message ∧
  unwritable (fs w) !! p3 = None.

End WithCli.

(** The wait is on: nothing has fired, everything acquired is still held. *)
Definition waiting (s : Wait) : Prop :=
  resolved s = false ∧ promise s = None ∧ timer s = true ∧
  spinner s = true ∧ is_Some (listening s) ∧ close_calls s = 0%nat ∧
  close_pending s = false ∧ isRaw s = isTTY s ∧ flowing s = isTTY s ∧
  onData s = isTTY s ∧ exit_hook s = isTTY s.

(** Everything the wait acquired is released: [cleanup] ran, once; the timer
    and the spinner are cleared, the server no longer listens, stdin is out of
    raw mode and paused, the exit hook is gone. *)
Definition torn_down (s : Wait) : Prop :=
  resolved s = true ∧ timer s = false ∧ spinner s = false ∧
  listening s = None ∧ close_calls s = 1%nat ∧ isRaw s = false ∧
  flowing s = false ∧ exit_hook s = false.

(** The promise is settled with [r] and the wait is torn down. *)
Definition settled (r : BridgeResult) (s : Wait) : Prop :=
  promise s = Some r ∧ torn_down s.

(** The data listener is attached only while the server's ['close'] event
    is still to come, and only on a terminal. *)
Definition listener_awaits_close (s : Wait) : Prop :=
  onData s = true → close_pending s = true ∧ isTTY s = true.

(** The outcome of the first of [events] that reaches its callback. *)
Fixpoint winner (s : Wait) (events : list event) : option BridgeResult :=
  match events with
  | [] => None
  | e :: events' =>
      if fires s e then Some (outcome_of e) else winner (step s e) events'
  end.

(** Neither an upgrade request, nor the timeout, nor the Escape key. *)
Definition idle (e : event) : bool :=
  match e with
  | Tick | ServerClose => true
  | Data data => negb (String.eqb data ESC)
  | TimerFires | Upgrade _ => false
  end.

(** The nonce and the accept value of the example handshake in RFC 6455,
    section 1.3. *)
Definition RFC_SAMPLE_NONCE : string := "dGhlIHNhbXBsZSBub25jZQ==".
Definition RFC_SAMPLE_ACCEPT : string := "s3pPLMBiTxaQ9kYGzzhZRbK+xOo=".

End Vocabulary.

Export Vocabulary.


(** ** [maskToken] of [src/steps/doctor.ts] *)

Module Display.

(** [s.slice(start, stop)] on a string: a negative index counts from the end,
    every index is clamped to the string, and an empty range gives [""]. *)
Definition slice_index (len i : Z) : Z :=
  if (i <? 0)%Z then Z.max (len + i) 0 else Z.min i len.

Definition slice (s : string) (start : Z) (stop : option Z) : string :=
  let len := Z.of_nat (String.length s) in
  let from := slice_index len start in
  let to := match stop with Some e => slice_index len e | None => len end in
  String.substring (Z.to_nat from) (Z.to_nat (to - from)) s.

Definition maskToken (token : string) : string :=
  if (String.length token <=? 9)%nat then token
  else slice token 0 (Some 5%Z) +:+ "****" +:+ slice token (-4) None.

End Display.

(** ** [promptForToken] of [src/steps/auth.ts] *)

Module Auth.

Inductive auth_line : Type :=
| TokenAccepted                       (** green: [✓ Token accepted] *)
| InvalidToken.                       (** red: [✗ Invalid token ...] *)

(** The loop of [promptForToken], run on the answers the [password] prompt
    gives one after the other (an answer is what the prompt returns, or what
    it throws).  The first component is [None] while the loop is still waiting
    for an answer; the second is what was printed. *)
Fixpoint promptForToken (answers : list (outcome string))
  : option (outcome string) * list auth_line :=
  match answers with
  | [] => (None, [])
  | Thrown e :: _ => (Some (Thrown e), [])
  | Ok tok :: answers' =>
      if String.eqb tok "" then (Some (Thrown "Setup cancelled"), [])
      else if String.prefix "figd_" tok then (Some (Ok tok), [TokenAccepted])
      else
        let '(r, printed) := promptForToken answers' in
        (r, InvalidToken :: printed)
  end.

End Auth.

(** ** [configureClients] of [src/steps/configure.ts]

    [configureJsonClient] of the same file is embedded in [Doctor] above. *)

Module Configure.

Inductive wizard_line : Type :=
| Configured (name : string)          (** green: [✓ name configured] *)
| Skipped (name : string)             (** yellow: [⊘ name skipped] *)
| NotConfigured (name message : string). (** red: [✗ name failed: message] *)

Section WithCli.
Context `{CliManagedTarget}.

(** The body of the loop of [configureClients] for one client: the client to
    push onto [configured], if any, and the line printed.  In this revision
    [configureClaudeCode] takes the token only and registers the on-demand
    command: it is the tool's operation at the on-demand method. *)
Definition configureClient (c : Client) (tok : string)
  : M (option Client * wizard_line) :=
  try_catch
    (if String.eqb (id c) "claude-code" then
       let* ok := on_cli (configureClaudeCode tok Npx) in
       if ok then ret (Some c, Configured (name c))
       else ret (None, Skipped (name c))
     else
       let* _ :=
         match truthy_path c with
         | Some _ => configureJsonClient c tok
         | None => ret tt
         end in
       ret (Some c, Configured (name c)))
    (λ message, ret (None, NotConfigured (name c) message)).

(** [configureClients(clients, token)]: the clients configured, and the lines
    printed after the heading. *)
Fixpoint configureClients (clients : list Client) (tok : string)
  : M (list Client * list wizard_line) :=
  match clients with
  | [] => ret ([], [])
  | c :: clients' =>
      let* first := configureClient c tok in
      let* others := configureClients clients' tok in
      ret (match fst first with
           | Some kept => kept :: fst others
           | None => fst others
           end,
           snd first :: snd others)
  end.

End WithCli.

End Configure.

(** ** [runCommandWithSpinner] of [src/utils/process.ts] *)

Module Process.

(** The loop of [runCommandWithSpinner].  [runSingle i] is how the [i]-th
    [runSingleCommand] of this call ends; the result has the outcome, the
    number of commands started and the retry notices printed
    ([⚠ Retry attempt/retries...]).  [None] is an exhausted [fuel]. *)
Fixpoint retryLoop (fuel : nat) (runSingle : nat → outcome unit)
    (retries attempt : Z) (started : nat) (notices : list Z)
  : option (outcome unit * nat * list Z) :=
  match fuel with
  | O => None
  | S fuel' =>
      if (attempt <=? retries)%Z then
        let notices' :=
          if (0 <? attempt)%Z then notices ++ [attempt] else notices in
        match runSingle started with
        | Ok _ => Some (Ok tt, S started, notices')
        | Thrown e =>
            if (attempt =? retries)%Z
            then Some (Thrown e, S started, notices')
            else retryLoop fuel' runSingle retries (attempt + 1) (S started)
                   notices'
        end
      else Some (Ok tt, started, notices)
  end.

(** [retries] is an integer here; the callers in the repository pass none,
    which makes it 0. *)
Definition runCommandWithSpinner (runSingle : nat → outcome unit)
    (retries : Z) : option (outcome unit * nat * list Z) :=
  retryLoop (S (Z.to_nat (retries + 1))) runSingle retries 0 0 [].

End Process.

(** ** [runSingleCommand] of [src/utils/process.ts] *)

Module Command.

(** What the promise is rejected with. *)
Inductive failure : Type :=
| ExitStatus (code : option Z) (stderr : string)
    (** [Command failed with code <code>: <stderr, trimmed>]; the code is
        [null] when a signal ended the child *)
| SpawnFailed (message : string)      (** the error of the ['error'] event *)
| TimedOut (ms : Z).                  (** [Command timed out after <ms>ms] *)

Inductive verdict : Type :=
| Resolved
| Rejected (why : failure).

(** Everything the promise owns or touches. *)
Record Run : Type := {
  settled : option verdict;           (** what the promise is settled with *)
  spinner : bool;                     (** [spinnerInterval] is armed *)
  frame : nat;
  erased : nat;                       (** calls of [cleanup] *)
  stderrOutput : string;
  kills : nat;                        (** calls of [child.kill()] *)
  timer : option Z;                   (** the timeout, while it is armed *)
}.

Inductive event : Type :=
| Tick                                (** the 80 ms spinner interval *)
| Stderr (chunk : string)             (** ['data'] on the child's stderr *)
| Close (code : option Z)             (** the child's ['close'] event *)
| Error (message : string)            (** the child's ['error'] event *)
| TimeoutFires.                       (** the timer of [options.timeout] *)

Definition cleanup (s : Run) : Run :=
  {| settled := settled s; spinner := false; frame := frame s;
     erased := S (erased s); stderrOutput := stderrOutput s;
     kills := kills s; timer := timer s |}.

(** [resolve()] and [reject(...)]: settling a settled promise does nothing. *)
Definition settle (v : verdict) (s : Run) : Run :=
  match settled s with
  | Some _ => s
  | None =>
      {| settled := Some v; spinner := spinner s; frame := frame s;
         erased := erased s; stderrOutput := stderrOutput s;
         kills := kills s; timer := timer s |}
  end.

(** The callbacks of lines 93, 107, 117, 128 and 134.  No callback is ever
    removed and the timer is never cleared, so each runs whenever its event
    arrives; the interval and the timer stop firing once cleared or fired. *)
Definition step (s : Run) (e : event) : Run :=
  match e with
  | Tick =>
      if spinner s then
        {| settled := settled s; spinner := spinner s; frame := S (frame s);
           erased := erased s; stderrOutput := stderrOutput s;
           kills := kills s; timer := timer s |}
      else s
  | Stderr chunk =>
      {| settled := settled s; spinner := spinner s; frame := frame s;
         erased := erased s; stderrOutput := stderrOutput s +:+ chunk;
         kills := kills s; timer := timer s |}
  | Close code =>
      let s1 := cleanup s in
      match code with
      | Some 0%Z => settle Resolved s1
      | _ => settle (Rejected (ExitStatus code (stderrOutput s1))) s1
      end
  | Error message => settle (Rejected (SpawnFailed message)) (cleanup s)
  | TimeoutFires =>
      match timer s with
      | Some ms =>
          let s1 :=
            {| settled := settled s; spinner := spinner s; frame := frame s;
               erased := erased s; stderrOutput := stderrOutput s;
               kills := S (kills s); timer := None |} in
          settle (Rejected (TimedOut ms)) (cleanup s1)
      | None => s
      end
  end.

(** The state in which the executor leaves things; [timeout] is
    [options.timeout], and the timer is set only when it is truthy. *)
Definition start (timeout : option Z) : Run :=
  {| settled := None; spinner := true; frame := 0; erased := 0;
     stderrOutput := ""; kills := 0;
     timer := match timeout with
              | Some 0%Z | None => None
              | Some ms => Some ms
              end |}.

Definition run (s : Run) (events : list event) : Run :=
  fold_left step events s.

(** [runSingleCommand] while the event loop delivers [events]. *)
Definition runSingleCommand (timeout : option Z) (events : list event) : Run :=
  run (start timeout) events.

End Command.

(** ** [checkCdp] and [runHealthCheck] of [src/steps/healthCheck.ts] *)

Module HealthLoop.

Import HealthCheck.

(** What [fetch('http://localhost:9222')] gives: a response with its status,
    or a rejection (connection refused, or the abort after 3 s). *)
Inductive fetch_result : Type :=
| Response (status : Z)
| Rejected.

(** [res.ok] is a status from 200 to 299. *)
Definition checkCdp (r : fetch_result) : bool :=
  match r with
  | Response status =>
      ((200 <=? status)%Z && (status <=? 299)%Z) || (0 <? status)%Z
  | Rejected => false
  end.

Inductive Method : Type := bridge | cdp.

Inductive Answer : Type := retry | exit.

(** What the environment and the operator supply to one turn of the loop:
    the response of the debug port, the ports that can be bound, whether stdin
    is a terminal, the events delivered during the wait, and the answer to
    [Retry health check / Exit setup]. *)
Record Turn : Type := {
  fetched : fetch_result;
  free : Z → bool;
  tty : bool;
  events : list event;
  answer : outcome Answer;
}.

Inductive health_line : Type :=
| Heading                             (** [Health Check] *)
| CompleteStepsFirst                  (** [Complete the setup steps above ...] *)
| CdpReachable                        (** [✓ Figma CDP endpoint reachable] *)
| CdpNotReachable                     (** [⚠ Figma CDP endpoint not reachable] *)
| StartPlugin                         (** [→ Start (or restart) the ... plugin] *)
| BridgeConnected                     (** [✓ Bridge plugin connected] *)
| SetupCancelled                      (** [Setup cancelled. ...] *)
| BridgeNotDetected                   (** [⚠ Bridge plugin not detected] *)
| SetupIncomplete                     (** [Setup incomplete. ...] *)
| Blank
| SetupComplete                       (** the banner [✅ Setup Complete!] *)
| ConfiguredClient (name : string)    (** [• name] *)
| TryThesePrompts.

(** The success dashboard, lines 270 to 285. *)
Definition dashboard (clients : list Client) : list health_line :=
  SetupComplete :: map (λ c, ConfiguredClient (name c)) clients
    ++ [TryThesePrompts].

(** The [while (!healthy)] loop and the dashboard after it.  The first
    component is [None] when the loop is still running after the given turns
    (a wait that has not settled, or no turn left). *)
Fixpoint healthLoop (clients : list Client) (method : Method)
    (turns : list Turn) : option (outcome unit) * list health_line :=
  match turns with
  | [] => (None, [])
  | t :: turns' =>
      let again :=
        match answer t with
        | Thrown e => (Some (Thrown e), [])
        | Ok exit => (Some (Ok tt), [SetupIncomplete])
        | Ok retry =>
            let '(r, printed) := healthLoop clients method turns' in
            (r, Blank :: printed)
        end in
      match method with
      | cdp =>
          if checkCdp (fetched t)
          then (Some (Ok tt), CdpReachable :: dashboard clients)
          else (fst again, CdpNotReachable :: snd again)
      | bridge =>
          match returned (waitForBridgeWithCancel (free t) (tty t) (events t))
          with
          | None => (None, [StartPlugin])
          | Some connected =>
              (Some (Ok tt), StartPlugin :: BridgeConnected :: dashboard clients)
          | Some cancelled => (Some (Ok tt), [StartPlugin; SetupCancelled])
          | Some timeout =>
              (fst again, StartPlugin :: BridgeNotDetected :: snd again)
          end
      end
  end.

(** [runHealthCheck(clients, method)]; [ready] is the answer to the
    confirmation asked for the debug-port method. *)
Definition runHealthCheck (clients : list Client) (method : Method)
    (ready : outcome bool) (turns : list Turn)
  : option (outcome unit) * list health_line :=
  match method with
  | cdp =>
      match ready with
      | Thrown e => (Some (Thrown e), [Heading])
      | Ok false => (Some (Ok tt), [Heading; CompleteStepsFirst])
      | Ok true =>
          let '(r, printed) := healthLoop clients cdp turns in
          (r, Heading :: printed)
      end
  | bridge =>
      let '(r, printed) := healthLoop clients bridge turns in
      (r, Heading :: printed)
  end.

End HealthLoop.

(** ** [detectAndSelectClients] of [src/steps/clientDetect.ts] *)

Module ClientSelect.

Inductive detect_line : Type :=
| DetectedLine (name : string) (already : bool)
    (** green: [✓ name detected], with the tag [(already configured)] *)
| NotFoundLine (name : string)        (** dim: [· name not found] *)
| NoneDetected                        (** [No supported clients detected.] *)
| DoctorTip                           (** the two lines of the tip *)
| BlankLine.

(** The entry that the checkbox shows for a client. *)
Definition choice_for (c : Client) : Choice :=
  {| choice_name := name c; choice_value := id c |}.

Section WithCli.
Context `{CliManagedTarget}.

(** [detectAndSelectClients]: the clients returned and the lines printed
    after the heading; [selection] is what the operator does with the
    checkbox: the entries ticked, or the prompt closed. *)
Definition detectAndSelectClients (selection : outcome (Choice → bool))
    (w : World) : outcome (list Client * list detect_line) :=
  match getClients w with
  | Thrown e => Thrown e
  | Ok clients =>
      let found := List.filter detected clients in
      let notDetected := List.filter (λ c, negb (detected c)) clients in
      let printed :=
        map (λ c, DetectedLine (name c) (configured c)) found
        ++ map (λ c, NotFoundLine (name c)) notDetected in
      match found with
      | [] => Ok ([], printed ++ [NoneDetected])
      | _ =>
          let tip := if existsb configured found then [DoctorTip] else [] in
          match selection with
          | Thrown e => Thrown e
          | Ok ticked =>
              let selected := checkbox ticked (map choice_for found) in
              Ok (List.filter (λ c, existsb (String.eqb (id c)) selected) found,
                  printed ++ tip ++ [BlankLine])
          end
      end
  end.

End WithCli.

End ClientSelect.

(** ** [runSystemCheck] of [src/steps/systemCheck.ts] *)

Module SystemCheck.

(** A decimal digit. *)
Definition is_digit (c : ascii) : bool :=
  (48 <=? nat_of_ascii c)%nat && (nat_of_ascii c <=? 57)%nat.

Definition digit_value (c : ascii) : nat := (nat_of_ascii c - 48)%nat.

(** The white space and line terminators of the ASCII range, which
    [parseInt] skips at the start. *)
Definition is_space (c : ascii) : bool :=
  let n := nat_of_ascii c in
  ((9 <=? n)%nat && (n <=? 13)%nat) || (n =? 32)%nat.

Fixpoint skip_space (s : string) : string :=
  match s with
  | String c rest => if is_space c then skip_space rest else s
  | EmptyString => s
  end.

(** The value of the longest prefix of decimal digits, read after [acc]. *)
Fixpoint digits (s : string) (acc : nat) : nat :=
  match s with
  | String c rest =>
      if is_digit c then digits rest (10 * acc + digit_value c) else acc
  | EmptyString => acc
  end.

(** [parseInt(s, 10)] on a string of the ASCII range; [None] is [NaN].  The
    value is the exact integer: for more digits than a double holds the
    result is the nearest double, which lies on the same side of 18. *)
Definition parseInt (s : string) : option Z :=
  let s1 := skip_space s in
  let '(negative, s2) :=
    match s1 with
    | String "-" rest => (true, rest)
    | String "+" rest => (false, rest)
    | _ => (false, s1)
    end in
  match s2 with
  | String c _ =>
      if is_digit c then
        Some (if negative then (- Z.of_nat (digits s2 0))%Z
              else Z.of_nat (digits s2 0))
      else None
  | EmptyString => None
  end.

(** [s.split('.')[0]]: what comes before the first full stop. *)
Fixpoint first_segment (s : string) : string :=
  match s with
  | String c rest =>
      if Ascii.eqb c "." then EmptyString else String c (first_segment rest)
  | EmptyString => EmptyString
  end.

(** [s.slice(1)]. *)
Definition drop_first (s : string) : string :=
  match s with
  | String _ rest => rest
  | EmptyString => EmptyString
  end.

(** [parseInt(nodeVersion.slice(1).split('.')[0], 10)]. *)
Definition major (nodeVersion : string) : option Z :=
  parseInt (first_segment (drop_first nodeVersion)).

(** [major >= 18]; a comparison with [NaN] is false. *)
Definition supported (nodeVersion : string) : bool :=
  match major nodeVersion with
  | Some m => (18 <=? m)%Z
  | None => false
  end.

Inductive check_line : Type :=
| NodeOk (version : string)           (** green: [✓ Node.js version] *)
| NodeTooOld (version : string)       (** red: [✗ ... version 18+ required] *)
| FigmaDetected                       (** green: [✓ Figma Desktop detected] *)
| FigmaNotFound.                      (** yellow: [⚠ Figma Desktop not found] *)

Section WithCli.
Context `{CliManagedTarget}.

(** [getLocalAppDataPath] of platform.ts; [localAppData] is
    [process.env.LOCALAPPDATA]. *)
Definition getLocalAppDataPath (w : World) (localAppData : option string)
  : string :=
  match localAppData with
  | Some d => if String.eqb d ""
              then path_join (machine w) [getHomedir w; "AppData"; "Local"]
              else d
  | None => path_join (machine w) [getHomedir w; "AppData"; "Local"]
  end.

Definition figmaInstalled (w : World) (localAppData : option string) : bool :=
  if String.eqb (getPlatform w) "macos" then
    existsSync (fs w) "/Applications/Figma.app"
  else if String.eqb (getPlatform w) "windows" then
    existsSync (fs w)
      (path_join (machine w)
         [getLocalAppDataPath w localAppData; "Figma"; "Figma.exe"])
  else false.

(** [runSystemCheck]: the lines printed after the heading and, when the
    process exits, its exit code; [nodeVersion] is [process.version]. *)
Definition runSystemCheck (nodeVersion : string) (w : World)
    (localAppData : option string) : list check_line * option Z :=
  if supported nodeVersion then
    ([NodeOk nodeVersion;
      if figmaInstalled w localAppData then FigmaDetected else FigmaNotFound],
     None)
  else ([NodeTooOld nodeVersion], Some 1%Z).

End WithCli.

End SystemCheck.

(** ** Further vocabulary *)

Module MoreVocabulary.

(** The configs on which Remove and Add agree about the collection: the value
    under ['mcpServers'] is a mapping, is [null], or is missing. *)
Definition plain_collection (x : list (string * json)) : Prop :=
  match obj_get SERVERS_KEY x with
  | None | Some JNull | Some (JObj _) => True
  | Some _ => False
  end.


(** The entry that the checkbox shows for a scan result. *)
Definition choice_of (r : ScanResult) : Choice :=
  {| choice_name := name (client r); choice_value := id (client r) |}.

(** The handshake responses that the upgrade requests among [events] get. *)
Definition responses (events : list HealthCheck.event) : list string :=
  flat_map (λ e, match e with
                 | HealthCheck.Upgrade (Some key) =>
                     [HealthCheck.upgrade_response
                        (HealthCheck.accept_token key)]
                 | _ => []
                 end) events.

(** The check of a turn of [runHealthCheck] is positive. *)
Definition healthy (method : HealthLoop.Method) (t : HealthLoop.Turn) : bool :=
  match method with
  | HealthLoop.cdp => HealthLoop.checkCdp (HealthLoop.fetched t)
  | HealthLoop.bridge =>
      match HealthCheck.returned
              (HealthCheck.waitForBridgeWithCancel
                 (HealthLoop.free t) (HealthLoop.tty t) (HealthLoop.events t))
      with
      | Some HealthCheck.connected => true
      | _ => false
      end
  end.

(** The line reports success. *)
Definition configured_line (l : Configure.wizard_line) : bool :=
  match l with Configure.Configured _ => true | _ => false end.

(** The clients among [clients] whose line, at the same position in [lines],
    reports success. *)
Definition reported_configured (clients : list Client)
    (lines : list Configure.wizard_line) : list Client :=
  map fst (List.filter (λ cl, configured_line (snd cl)) (combine clients lines)).

(** The text of [process.version] for the release [major.rest]. *)
Definition node_version (major : nat) (rest : string) : string :=
  "v" +:+ NilEmpty.string_of_uint (Nat.to_uint major) +:+ "." +:+ rest.

(** What the first of [events] that settles the promise settles it with,
    when [armed] is the timeout still armed and [err] the stderr output
    collected so far. *)
Fixpoint first_verdict (armed : option Z) (err : string)
    (events : list Command.event) : option Command.verdict :=
  match events with
  | [] => None
  | Command.Tick :: rest => first_verdict armed err rest
  | Command.Stderr chunk :: rest => first_verdict armed (err +:+ chunk) rest
  | Command.Close (Some 0%Z) :: _ => Some Command.Resolved
  | Command.Close code :: _ =>
      Some (Command.Rejected (Command.ExitStatus code err))
  | Command.Error message :: _ =>
      Some (Command.Rejected (Command.SpawnFailed message))
  | Command.TimeoutFires :: rest =>
      match armed with
      | Some ms => Some (Command.Rejected (Command.TimedOut ms))
      | None => first_verdict armed err rest
      end
  end.

(** The timer fires among [events]. *)
Definition timeout_among (events : list Command.event) : bool :=
  existsb (λ e, match e with Command.TimeoutFires => true | _ => false end)
    events.

(** The number of times [events] make [cleanup] run. *)
Fixpoint cleanups (armed : option Z) (events : list Command.event) : nat :=
  match events with
  | [] => 0
  | Command.Close _ :: rest | Command.Error _ :: rest =>
      S (cleanups armed rest)
  | Command.TimeoutFires :: rest =>
      match armed with
      | Some _ => S (cleanups None rest)
      | None => cleanups None rest
      end
  | _ :: rest => cleanups armed rest
  end.

(** [configured] of [updateToken] and [removeIntegrations]. *)
Definition configured_of (results : list ScanResult) : list ScanResult :=
  List.filter is_configured results.

(** [unconfigured] of [addIntegrations]. *)
Definition unconfigured_of (results : list ScanResult) : list ScanResult :=
  List.filter (λ r, detected (client r) && negb (is_configured r)) results.

(** [c] is the CLI-managed client, or has no config path. *)
Definition not_file_backed (c : Client) : Prop :=
  String.eqb (id c) "claude-code" = true ∨ truthy_path c = None.

(** The ids under which [getClients] registers the clients, in its order. *)
Definition CLIENT_IDS : list string :=
  ["claude-code"; "claude-desktop"; "cursor"; "windsurf"].

Section WithCli.
Context `{CliManagedTarget}.

(** [m] changes no file outside the paths in [P], and makes no path
    unwritable or writable. *)
Definition keeps_files (P : string → Prop) {A} (m : M A) : Prop :=
  ∀ w, unwritable (fs (snd (m w))) = unwritable (fs w) ∧
       ∀ q, ¬ P q → files (fs (snd (m w))) !! q = files (fs w) !! q.

(** A config path of one of the clients of [rs]. *)
Definition path_among (rs : list ScanResult) (q : string) : Prop :=
  ∃ r, In r rs ∧ configPath (client r) = Some q.

(** The line that reports how an attempt on [c] ended. *)
Definition line_of (verb : string) (c : Client) (r : outcome unit) : line :=
  match r with
  | Ok _ => Done (name c) verb
  | Thrown message => Failed (name c) message
  end.

(** The world after [target] was attempted on each of [cs] in turn, each
    attempt reported on the console. *)
Fixpoint attempts (verb : string) (target : Client → M unit)
    (cs : list Client) (w : World) : World :=
  match cs with
  | [] => w
  | c :: cs' =>
      attempts verb target cs'
        (logged (snd (target c w)) (line_of verb c (fst (target c w))))
  end.

(** The lines these attempts print, in order. *)
Fixpoint attempt_lines (verb : string) (target : Client → M unit)
    (cs : list Client) (w : World) : list line :=
  match cs with
  | [] => []
  | c :: cs' =>
      let l := line_of verb c (fst (target c w)) in
      l :: attempt_lines verb target cs' (logged (snd (target c w)) l)
  end.

(** Every attempt either leaves the files alone or writes the config file of
    its target, and then ends well. *)
Definition writes_own_file (target : Client → M unit) : Prop :=
  ∀ c (w : World),
    fs (snd (target c w)) = fs w ∨
    ∃ p data u, file_backed c p ∧ fst (target c w) = Ok u ∧
                fs (snd (target c w)) = written (fs w) p data.

(** The scan finds [c] configured, with the token [tok]. *)
Definition scans_configured (w : World) (c : Client) (tok : string) : Prop :=
  scanClient w c
  = Ok {| client := c; is_configured := true; token := Some (JStr tok) |}.

(** The scan finds [c] not configured. *)
Definition scans_unconfigured (w : World) (c : Client) : Prop :=
  scanClient w c = Ok {| client := c; is_configured := false; token := None |}.

End WithCli.

End MoreVocabulary.

Export MoreVocabulary.

(** ** Further examples *)

Module MoreExamples.

Import Examples.

(** Claude Desktop as the wizard configures it; no other client installed. *)
Definition desktop_world : @World no_claude :=
  @Build_World no_claude
    (one_file desktop_path (Parsed (merged_sample Npx))) tt linux_machine [].

(** Claude Desktop configured to run a local build of the server; no other
    client installed. *)
Definition local_world : @World no_claude :=
  @Build_World no_claude
    (one_file desktop_path (Parsed (merged_sample local_method))) tt
    linux_machine [].

(** What the scan of Doctor finds in [desktop_world]. *)
Definition desktop_scan : list ScanResult :=
  match scanClients (H := no_claude) desktop_world with
  | Ok rs => rs
  | Thrown _ => []
  end.



Definition claude_code : Client :=
  {| name := "Claude Code"; id := "claude-code"; configPath := None;
     detected := true; configured := true |}.

Definition desktop_client (was_configured : bool) : Client :=
  client_at "Claude Desktop" "claude-desktop" desktop_path was_configured.

(** A turn of the health check in which every port is taken. *)
Definition ports_taken : HealthLoop.Turn :=
  {| HealthLoop.fetched := HealthLoop.Rejected;
     HealthLoop.free := λ _, false;
     HealthLoop.tty := true;
     HealthLoop.events := [];
     HealthLoop.answer := Ok HealthLoop.exit |}.

(** A turn in which the debug port answers with the status [status]. *)
Definition answered (status : Z) : HealthLoop.Turn :=
  {| HealthLoop.fetched := HealthLoop.Response status;
     HealthLoop.free := λ _, true;
     HealthLoop.tty := true;
     HealthLoop.events := [];
     HealthLoop.answer := Ok HealthLoop.exit |}.

(** A turn in which the fetch is rejected and the operator retries. *)
Definition refused : HealthLoop.Turn :=
  {| HealthLoop.fetched := HealthLoop.Rejected;
     HealthLoop.free := λ _, true;
     HealthLoop.tty := true;
     HealthLoop.events := [];
     HealthLoop.answer := Ok HealthLoop.retry |}.

(** A turn in which the fetch is rejected and the operator closes the
    prompt. *)
Definition interrupted : HealthLoop.Turn :=
  {| HealthLoop.fetched := HealthLoop.Rejected;
     HealthLoop.free := λ _, true;
     HealthLoop.tty := true;
     HealthLoop.events := [];
     HealthLoop.answer := Thrown "User force closed the prompt" |}.

(** What [detectAndSelectClients] gives in [fresh_world] when every entry is
    left ticked. *)
Definition fresh_selection : list Client * list ClientSelect.detect_line :=
  match ClientSelect.detectAndSelectClients (H := no_claude)
          (Ok (λ _, true)) fresh_world with
  | Ok r => r
  | Thrown _ => ([], [])
  end.

(** A command that fails twice and then succeeds. *)
Definition third_time (i : nat) : outcome unit :=
  if (i <? 2)%nat then Thrown "Command failed with code 1: " else Ok tt.

End MoreExamples.

(** * Properties *)

(** ** Objects as property lists *)

Module ObjectFacts.

Ltac eqb_cases :=
  repeat match goal with
  | |- context [String.eqb ?a ?b] =>
      destruct (String.eqb_spec a b); subst; simpl; try congruence
  end.

Lemma obj_get_set_eq k v o : obj_get k (obj_set k v o) = Some v.
Proof.
  induction o as [|[k' v'] o IH]; simpl.
  - now rewrite String.eqb_refl.
  - destruct (String.eqb_spec k' k); simpl.
    + now rewrite String.eqb_refl.
    + destruct (String.eqb_spec k' k); [contradiction | exact IH].
Qed.

Lemma obj_get_set_ne k k' v o :
  k ≠ k' → obj_get k' (obj_set k v o) = obj_get k' o.
Proof.
  intros Hne. induction o as [|[k0 v0] o IH]; simpl.
  - destruct (String.eqb_spec k k'); [contradiction | reflexivity].
  - destruct (String.eqb_spec k0 k); subst; simpl.
    + destruct (String.eqb_spec k k'); [contradiction | reflexivity].
    + destruct (String.eqb_spec k0 k'); [reflexivity | exact IH].
Qed.

Lemma obj_delete_set k v o : obj_delete k (obj_set k v o) = obj_delete k o.
Proof.
  induction o as [|[k0 v0] o IH]; simpl.
  - now rewrite String.eqb_refl.
  - destruct (String.eqb_spec k0 k); subst; simpl.
    + now rewrite String.eqb_refl.
    + destruct (String.eqb_spec k0 k); [contradiction | now rewrite IH].
Qed.

Lemma obj_delete_set_ne k k' v o :
  k ≠ k' → obj_get k (obj_delete k' (obj_set k' v o)) = obj_get k o.
Proof.
  intros Hne. rewrite obj_delete_set.
  induction o as [|[k0 v0] o IH]; simpl; [reflexivity|].
  destruct (String.eqb_spec k0 k'); subst; simpl.
  - destruct (String.eqb_spec k' k); [congruence | exact IH].
  - destruct (String.eqb_spec k0 k); [reflexivity | exact IH].
Qed.

Lemma obj_set_set k v v' o : obj_set k v (obj_set k v' o) = obj_set k v o.
Proof.
  induction o as [|[k0 v0] o IH]; simpl.
  - now rewrite String.eqb_refl.
  - destruct (String.eqb_spec k0 k); subst; simpl.
    + now rewrite String.eqb_refl.
    + destruct (String.eqb_spec k0 k); [contradiction | now rewrite IH].
Qed.

Lemma obj_set_same k v o : obj_get k o = Some v → obj_set k v o = o.
Proof.
  induction o as [|[k0 v0] o IH]; simpl; [discriminate|].
  destruct (String.eqb_spec k0 k); subst.
  - now intros [= ->].
  - intros Hg. now rewrite IH.
Qed.

Lemma obj_delete_absent k o : obj_get k o = None → obj_delete k o = o.
Proof.
  induction o as [|[k0 v0] o IH]; simpl; [reflexivity|].
  destruct (String.eqb_spec k0 k); [discriminate|].
  intros Hg. now rewrite IH.
Qed.

Lemma own_props_falsy (v : value) : truthy v = false → own_props v = [].
Proof.
  destruct v as [[| b | z | s | items | o]|]; simpl; try reflexivity;
    try discriminate.
  destruct s; [reflexivity | discriminate].
Qed.

(** [{...(v || {})}] copies the same properties as [{...v}]. *)
Lemma own_props_or_empty (v : value) :
  own_props (if truthy v then v else Some (JObj [])) = own_props v.
Proof.
  destruct (truthy v) eqn:Ht; [reflexivity|].
  now rewrite (own_props_falsy v Ht).
Qed.

End ObjectFacts.

(** ** [src/utils/config.ts] *)

Module ConfigSpec.

Import ObjectFacts Examples.

Lemma merge_object (x : list (string * json)) t m :
  mergeServerConfig (JObj x) t m =
  Ok (JObj (obj_set SERVERS_KEY
              (JObj (obj_set RESERVED_KEY (serverEntry t m)
                       (own_props (obj_get SERVERS_KEY x))))
              x)).
Proof.
  unfold mergeServerConfig. simpl member. cbv beta iota.
  now rewrite own_props_or_empty.
Qed.

Example merge_sample_npx :
  mergeServerConfig (JObj sample_config) "figd_1" Npx
  = Ok (JObj
      [("theme", JStr "dark");
       ("mcpServers",
        JObj [("other", JObj [("command", JStr "x")]);
              ("figma-console",
               JObj [("command", JStr "npx");
                     ("args", JArr [JStr "-y"; JStr "figma-console-mcp@latest"]);
                     ("env", JObj [("FIGMA_ACCESS_TOKEN", JStr "figd_1");
                                   ("ENABLE_MCP_APPS", JStr "true")])])])]).
Proof. reflexivity. Qed.

(** A config without ['mcpServers'] gets one, after its other keys; an
    ['mcpServers'] that is an array is copied as the object of its indices. *)
Example merge_without_servers :
  mergeServerConfig (JObj [("theme", JStr "dark")]) "figd_1" local_method
  = Ok (JObj
      [("theme", JStr "dark");
       ("mcpServers",
        JObj [("figma-console",
               JObj [("command", JStr "node");
                     ("args",
                      JArr [JStr "/home/u/figma-console-mcp/dist/local.js"]);
                     ("env", JObj [("FIGMA_ACCESS_TOKEN", JStr "figd_1");
                                   ("ENABLE_MCP_APPS", JStr "true")])])])]).
Proof. reflexivity. Qed.

Example merge_array_servers :
  mergeServerConfig (JObj [("mcpServers", JArr [JBool true; JNull])]) "t" Npx
  = Ok (JObj
      [("mcpServers",
        JObj [("0", JBool true); ("1", JNull);
              ("figma-console", serverEntry "t" Npx)])]).
Proof. reflexivity. Qed.

Example merge_null_throws :
  mergeServerConfig JNull "figd_1" Npx
  = Thrown "Cannot read properties of null (reading 'mcpServers')".
Proof. reflexivity. Qed.

(** C2.  For every config mapping [x], token [t] and method [m], the merge
    succeeds with a mapping [merged] such that: [merged] without ['mcpServers']
    is [x] without ['mcpServers'] (so every other top-level key reads as in
    [x]); under ['mcpServers'], [merged] holds a mapping [servers] which without
    ['figma-console'] is the entries [x] has there without ['figma-console']
    (so every other entry reads as in [x]); and ['figma-console'] in [servers]
    is the freshly built server entry. *)
Theorem merge_preserves_unrelated_keys
    (x : list (string * json)) (t : string) (m : InstallMethod) :
  ∃ merged servers,
    mergeServerConfig (JObj x) t m = Ok (JObj merged) ∧
    obj_delete SERVERS_KEY merged = obj_delete SERVERS_KEY x ∧
    (∀ k, k ≠ SERVERS_KEY → obj_get k merged = obj_get k x) ∧
    obj_get SERVERS_KEY merged = Some (JObj servers) ∧
    obj_delete RESERVED_KEY servers =
      obj_delete RESERVED_KEY (own_props (obj_get SERVERS_KEY x)) ∧
    (∀ k, k ≠ RESERVED_KEY →
          obj_get k servers = obj_get k (own_props (obj_get SERVERS_KEY x))) ∧
    obj_get RESERVED_KEY servers = Some (serverEntry t m).
Proof.
  set (servers := obj_set RESERVED_KEY (serverEntry t m)
                    (own_props (obj_get SERVERS_KEY x))).
  exists (obj_set SERVERS_KEY (JObj servers) x), servers.
  split; [apply merge_object|].
  split; [apply obj_delete_set|].
  split; [intros k Hk; apply obj_get_set_ne; congruence|].
  split; [apply obj_get_set_eq|].
  split; [apply obj_delete_set|].
  split; [intros k Hk; apply obj_get_set_ne; congruence|].
  apply obj_get_set_eq.
Qed.

(** C4.  For every config mapping [x], token [t] and method [m], merging
    succeeds with a mapping [y], and merging [y] again with the same token and
    method gives [y] itself.  ([mergeServerConfig] takes and returns values
    only: it has no access to the file system or the console.) *)
Theorem merge_idempotent
    (x : list (string * json)) (t : string) (m : InstallMethod) :
  ∃ y, mergeServerConfig (JObj x) t m = Ok (JObj y) ∧
       mergeServerConfig (JObj y) t m = Ok (JObj y).
Proof.
  eexists. split; [apply merge_object|].
  rewrite merge_object. rewrite obj_get_set_eq. simpl own_props.
  now rewrite !obj_set_set.
Qed.

(** Merging never throws on anything but [null], and is idempotent on every
    value it accepts. *)
Lemma merge_idempotent_any (x y : json) t m :
  mergeServerConfig x t m = Ok y → mergeServerConfig y t m = Ok y.
Proof.
  unfold mergeServerConfig at 1.
  destruct (member x SERVERS_KEY) as [mcp|] eqn:Hm; [|discriminate].
  intros [= <-]. rewrite merge_object. rewrite obj_get_set_eq.
  simpl own_props. now rewrite !obj_set_set.
Qed.

Lemma read_after_write p data f f' :
  writeJsonConfig p data f = (Ok tt, f') → readJsonConfig f' p = data.
Proof.
  unfold writeJsonConfig, readJsonConfig.
  destruct (unwritable f !! p); [discriminate|].
  intros [= <-]. simpl. now rewrite lookup_insert_eq.
Qed.

Lemma detect_of_merged (f : FS) p x t m :
  readJsonConfig f p = JObj x →
  obj_get SERVERS_KEY x =
    Some (JObj (obj_set RESERVED_KEY (serverEntry t m)
                  (own_props (obj_get SERVERS_KEY x)))) →
  recoverable m →
  detectInstallMethodFromConfig f p = Ok m.
Proof.
  intros Hread Hget Hm.
  assert (He : opt_member (obj_get SERVERS_KEY x) RESERVED_KEY
               = Some (serverEntry t m)).
  { rewrite Hget. simpl. apply obj_get_set_eq. }
  unfold detectInstallMethodFromConfig.
  rewrite Hread. cbn [member get]. rewrite He.
  destruct m as [|path]; [reflexivity|].
  simpl in Hm. simpl. now rewrite Hm.
Qed.

(** C3, as amended.  For the on-demand method, and for every local method
    whose path is truthy (a string path: not empty), writing the merge of a
    config mapping with that method to a file and inferring the method from
    that file gives the method back. *)
Theorem infer_after_merge
    (f f' : FS) (p : string) (x : list (string * json)) (t : string)
    (m : InstallMethod) (merged : json) :
  recoverable m →
  mergeServerConfig (JObj x) t m = Ok merged →
  writeJsonConfig p merged f = (Ok tt, f') →
  detectInstallMethodFromConfig f' p = Ok m.
Proof.
  intros Hm Hmerge Hwrite. rewrite merge_object in Hmerge.
  injection Hmerge as <-.
  eapply detect_of_merged with (t := t); [| | exact Hm].
  - eapply read_after_write, Hwrite.
  - rewrite !obj_get_set_eq. simpl own_props. now rewrite obj_set_set.
Qed.

Lemma infer_after_merge_witness :
  detectInstallMethodFromConfig (fs_merged local_method) "cfg.json"
    = Ok local_method ∧
  detectInstallMethodFromConfig (fs_merged Npx) "cfg.json" = Ok Npx.
Proof.
  split.
  - apply (infer_after_merge empty_fs (fs_merged local_method) "cfg.json"
             sample_config "figd_1" local_method (merged_sample local_method));
      reflexivity.
  - apply (infer_after_merge empty_fs (fs_merged Npx) "cfg.json"
             sample_config "figd_1" Npx (merged_sample Npx));
      [exact I | reflexivity | reflexivity].
Defined.

(** Counterexample to C3 as the specification states it: for the local method
    with the empty path, [mergeServerConfig] writes [args: ['']], [args[0]] is
    then falsy, and the method inferred is the on-demand one. *)
Lemma infer_after_merge_empty_path :
  mergeServerConfig (JObj sample_config) "figd_1" (Local (JStr ""))
    = Ok (merged_sample (Local (JStr ""))) ∧
  writeJsonConfig "cfg.json" (merged_sample (Local (JStr ""))) empty_fs
    = (Ok tt, fs_merged (Local (JStr ""))) ∧
  detectInstallMethodFromConfig (fs_merged (Local (JStr ""))) "cfg.json"
    = Ok Npx ∧
  detectInstallMethodFromConfig (fs_merged (Local (JStr ""))) "cfg.json"
    ≠ Ok (Local (JStr "")).
Proof.
  split; [reflexivity|]. split; [reflexivity|].
  split; [vm_compute; reflexivity | vm_compute; discriminate].
Qed.

Lemma member_of_after_command (e : value) (k : string) :
  strict_eq_string (opt_member e "command") "node" = true →
  member_of e k = Ok (opt_member e k).
Proof.
  destruct e as [[| b | z | s | items | o]|]; simpl; try discriminate;
    reflexivity.
Qed.

Lemma member_not_null (v : json) (k : string) :
  v ≠ JNull → member v k = Ok (get v k).
Proof. destruct v; simpl; congruence. Qed.

Lemma detect_returns (f : FS) (p : string) :
  readJsonConfig f p ≠ JNull →
  ∃ m, detectInstallMethodFromConfig f p = Ok m.
Proof.
  intros Hnn. unfold detectInstallMethodFromConfig.
  rewrite (member_not_null _ _ Hnn).
  set (e := opt_member (get (readJsonConfig f p) SERVERS_KEY) RESERVED_KEY).
  destruct (strict_eq_string (opt_member e "command") "node") eqn:Hcmd;
    [|eauto].
  rewrite (member_of_after_command e "args" Hcmd).
  destruct (opt_member (opt_member e "args") "0") as [a0|]; [|eauto].
  destruct (truthy (Some a0)); eauto.
Qed.

(** C10, as amended.  Whenever the config file is missing, is not JSON, or
    holds any JSON value other than [null], [detectInstallMethodFromConfig]
    returns a method and does not throw.  The method is local with path [a]
    exactly when the reserved entry's [command] is the string ['node'] and
    [args[0]] is [a] and is truthy (for a string: not empty); in every other
    case, and for a missing or unparsable file in particular, it is the
    on-demand method. *)
Theorem detect_install_method_total (f : FS) (p : string) :
  readJsonConfig f p ≠ JNull →
  ∃ m,
    detectInstallMethodFromConfig f p = Ok m ∧
    (∀ a, m = Local a ↔
          strict_eq_string
            (opt_member (reserved_entry (readJsonConfig f p)) "command")
            "node" = true ∧
          opt_member (opt_member (reserved_entry (readJsonConfig f p)) "args")
            "0" = Some a ∧
          truthy (Some a) = true) ∧
    ((∀ a, m ≠ Local a) → m = Npx) ∧
    (files f !! p = None ∨ files f !! p = Some Unparsable → m = Npx).
Proof.
  intros Hnn. unfold detectInstallMethodFromConfig, reserved_entry.
  rewrite (member_not_null _ _ Hnn).
  set (e := opt_member (get (readJsonConfig f p) SERVERS_KEY) RESERVED_KEY).
  assert (Hmiss : files f !! p = None ∨ files f !! p = Some Unparsable →
                  strict_eq_string (opt_member e "command") "node" = false).
  { intros Hf. subst e. unfold readJsonConfig.
    destruct Hf as [-> | ->]; reflexivity. }
  destruct (strict_eq_string (opt_member e "command") "node") eqn:Hcmd.
  - rewrite (member_of_after_command e "args" Hcmd).
    destruct (opt_member (opt_member e "args") "0") as [a0|] eqn:Ha0.
    + destruct (truthy (Some a0)) eqn:Ht.
      * exists (Local a0). split; [reflexivity|]. split; [|split].
        -- intros a. split.
           ++ intros [= <-]. auto.
           ++ intros (_ & [= <-] & _). reflexivity.
        -- intros Hno. now destruct (Hno a0).
        -- intros Hf. specialize (Hmiss Hf). discriminate.
      * exists Npx. split; [reflexivity|]. split; [|split]; auto.
        intros a. split; [discriminate|].
        intros (_ & [= <-] & Ht'). congruence.
    + exists Npx. split; [reflexivity|]. split; [|split]; auto.
      intros a. split; [discriminate|]. intros (_ & Hd & _). discriminate.
  - exists Npx. split; [reflexivity|]. split; [|split]; auto.
    intros a. split; [discriminate|]. intros (Hd & _). discriminate.
Qed.

Lemma detect_install_method_total_witness :
  ∃ m,
    detectInstallMethodFromConfig (fs_merged local_method) "cfg.json" = Ok m ∧
    m = local_method.
Proof.
  destruct (detect_install_method_total (fs_merged local_method) "cfg.json")
    as (m & Hm & Hiff & _).
  - vm_compute. discriminate.
  - exists m. split; [exact Hm|].
    apply (Hiff (JStr "/home/u/figma-console-mcp/dist/local.js")).
    vm_compute. auto.
Defined.

(** Counterexample to C10 as the specification states it, on both counts: a
    config file that holds [null] makes [detectInstallMethodFromConfig] throw,
    and a truthy [args[0]] that is not a string (here the number 5) gives a
    local method. *)
Lemma detect_install_method_counterexample :
  detectInstallMethodFromConfig (one_file "cfg.json" (Parsed JNull)) "cfg.json"
    = Thrown "Cannot read properties of null (reading 'mcpServers')" ∧
  detectInstallMethodFromConfig
    (one_file "cfg.json" (Parsed numeric_args_config)) "cfg.json"
    = Ok (Local (JNum 5)).
Proof. split; vm_compute; reflexivity. Qed.

End ConfigSpec.

(** ** [src/steps/doctor.ts]: the batch operations *)

Module DoctorSpec.

Import ObjectFacts ConfigSpec.

Section WithCli.
Context `{CliManagedTarget}.

Lemma silent_ret {A} (a : A) : silent (ret a).
Proof. intros w. reflexivity. Qed.

Lemma silent_throw {A} (e : string) : silent (@throw _ A e).
Proof. intros w. reflexivity. Qed.

Lemma silent_of_outcome {A} (r : outcome A) : silent (of_outcome r).
Proof. intros w. reflexivity. Qed.

Lemma silent_lift {A} (f : World → outcome A) : silent (lift f).
Proof. intros w. reflexivity. Qed.

Lemma silent_on_fs {A} (f : FS → outcome A * FS) : silent (on_fs f).
Proof. intros w. unfold on_fs. now destruct (f (fs w)). Qed.

Lemma silent_on_cli {A} (f : Cli → outcome A * Cli) : silent (on_cli f).
Proof. intros w. unfold on_cli. now destruct (f (cli w)). Qed.

Lemma silent_bind {A B} (m : M A) (k : A → M B) :
  silent m → (∀ a, silent (k a)) → silent (bind m k).
Proof.
  intros Hm Hk w. unfold bind. specialize (Hm w).
  destruct (m w) as [[a|e] w1]; simpl in *; [|exact Hm].
  now rewrite Hk.
Qed.

Lemma silent_configureJsonClient c tok :
  silent (configureJsonClient c tok).
Proof.
  unfold configureJsonClient. destruct (configPath c); [|apply silent_throw].
  apply silent_bind; [apply silent_lift|]. intros existing.
  apply silent_bind; [apply silent_of_outcome|]. intros merged.
  apply silent_on_fs.
Qed.

(** One iteration of a batch loop: whatever [body] does, the iteration ends
    normally, having printed one line about [nm]: success if [body] returned,
    failure with the thrown message if it threw. *)
Lemma attempt_reports (body : M unit) (nm verb : string) (w : World) :
  silent body →
  try_catch (let* _ := body in console_log (Done nm verb))
            (λ message, console_log (Failed nm message)) w
  = (Ok tt,
     logged (snd (body w))
       (match fst (body w) with
        | Ok _ => Done nm verb
        | Thrown message => Failed nm message
        end)).
Proof.
  intros _. unfold try_catch, bind.
  destruct (body w) as [[[]|e] w1]; reflexivity.
Qed.

Lemma bind_assoc {A B C} (m : M A) (k : A → M B) (k' : B → M C) (w : World) :
  bind m (λ a, bind (k a) k') w = bind (bind m k) k' w.
Proof. unfold bind. destruct (m w) as [[a|e] w1]; reflexivity. Qed.

Lemma attempt_reports_as (whole body : M unit) (nm verb : string)
    (handler : string → M unit) (w : World) :
  silent body →
  (∀ w0, whole w0 = bind body (λ _, console_log (Done nm verb)) w0) →
  (∀ message w0, handler message w0 = console_log (Failed nm message) w0) →
  try_catch whole handler w
  = (Ok tt,
     logged (snd (body w))
       (match fst (body w) with
        | Ok _ => Done nm verb
        | Thrown message => Failed nm message
        end)).
Proof.
  intros Hs Hwhole Hhandler.
  rewrite <- (attempt_reports body nm verb w Hs).
  unfold try_catch. rewrite Hwhole.
  destruct (bind body _ w) as [[a|e] w1]; [reflexivity | apply Hhandler].
Qed.

Lemma attempt_reports_one (whole body : M unit) (nm verb : string)
    (handler : string → M unit) (w : World) :
  silent body →
  (∀ w0, whole w0 = bind body (λ _, console_log (Done nm verb)) w0) →
  (∀ message w0, handler message w0 = console_log (Failed nm message) w0) →
  ∃ w' l,
    try_catch whole handler w = (Ok tt, w') ∧
    console w' = console w ++ [l] ∧ report_of nm verb l.
Proof.
  intros Hs Hwhole Hhandler.
  rewrite (attempt_reports_as whole body nm verb handler w Hs Hwhole Hhandler).
  eexists _, _. split; [reflexivity|]. split.
  - simpl. now rewrite Hs.
  - unfold report_of. destruct (fst (body w)); eauto.
Qed.

(** A loop whose every iteration ends normally with one line printed ends
    normally with one line per element, in order. *)
Lemma for_of_reports {A} (xs : list A) (body : A → M unit)
    (R : A → line → Prop) :
  (∀ x w, In x xs →
     ∃ w' l, body x w = (Ok tt, w') ∧ console w' = console w ++ [l] ∧ R x l) →
  ∀ w, ∃ w' ls,
    for_of xs body w = (Ok tt, w') ∧
    console w' = console w ++ ls ∧ Forall2 R xs ls.
Proof.
  induction xs as [|x xs IH]; intros Hbody w.
  - exists w, []. simpl. rewrite app_nil_r. repeat split. constructor.
  - destruct (Hbody x w (or_introl eq_refl)) as (w1 & l & Hrun & Hcon & HR).
    destruct (IH (λ y w0 Hy, Hbody y w0 (or_intror Hy)) w1)
      as (w2 & ls & Hrest & Hcon2 & HRs).
    exists w2, (l :: ls). simpl. unfold bind. rewrite Hrun. split; [exact Hrest|].
    split; [|now constructor].
    rewrite Hcon2, Hcon, <- app_assoc. reflexivity.
Qed.

Lemma find_by_id_ticked (ticked : Choice → bool) (batch : list ScanResult)
    (ident : string) :
  In ident (checkbox ticked (choices_of batch)) →
  ∃ r, find_by_id batch ident = Some r ∧ In r batch ∧ id (client r) = ident.
Proof.
  unfold checkbox, choices_of. rewrite in_map_iff.
  intros (ch & <- & Hin). apply filter_In in Hin as [Hin _].
  apply in_map_iff in Hin as (r0 & <- & Hr0). simpl.
  unfold find_by_id.
  destruct (List.find _ batch) as [r|] eqn:Hf.
  - apply find_some in Hf as [Hr Heq]. exists r. split; [reflexivity|].
    split; [exact Hr|]. now apply String.eqb_eq.
  - exfalso. eapply find_none in Hf; [|exact Hr0]. simpl in Hf.
    now rewrite String.eqb_refl in Hf.
Qed.

(** *** Every target of a batch is processed and reported *)

Lemma updateToken_reports (tok : string) (results : list ScanResult) (w : World) :
  ∃ w' ls,
    updateToken (Ok tok) results w = (Ok tt, w') ∧
    console w' = console w ++ ls ∧
    Forall2 (λ r l, report_of (name (client r)) "updated" l)
            (List.filter is_configured results) ls.
Proof.
  unfold updateToken, bind at 1, of_outcome.
  apply for_of_reports. intros r w0 _.
  eapply attempt_reports_one;
    [| intros w1; apply bind_assoc | reflexivity].
  apply silent_bind.
  - destruct (truthy_path (client r)); [apply silent_lift | apply silent_ret].
  - intros method. destruct (String.eqb _ _).
    + apply silent_bind; [apply silent_on_cli | intros; apply silent_ret].
    + destruct (truthy_path (client r));
        [apply silent_configureJsonClient | apply silent_ret].
Qed.

Lemma silent_remove_target c : silent (remove_target c).
Proof.
  unfold remove_target. destruct (String.eqb _ _); [apply silent_on_cli|].
  destruct (truthy_path c); [|apply silent_ret].
  apply silent_bind; [apply silent_lift|]. intros config.
  apply silent_bind; [apply silent_of_outcome|]. intros data.
  apply silent_on_fs.
Qed.

Lemma silent_add_target tok method c : silent (add_target tok method c).
Proof.
  unfold add_target. destruct (String.eqb _ _).
  - apply silent_bind; [apply silent_on_cli | intros; apply silent_ret].
  - destruct (truthy_path c);
      [apply silent_configureJsonClient | apply silent_ret].
Qed.

Lemma for_of_cons {A} (x : A) (xs : list A) (body : A → M unit) (w w1 : World) :
  for_of [x] body w = (Ok tt, w1) →
  for_of (x :: xs) body w = for_of xs body w1.
Proof.
  simpl. unfold bind, ret. destruct (body x w) as [[[]|e] w2]; [|discriminate].
  now intros [= ->].
Qed.

(** An iteration of the remove loop whose [find] succeeded. *)
Lemma removeLoop_one (batch : list ScanResult) (ident : string)
    (r : ScanResult) (w : World) :
  find_by_id batch ident = Some r → id (client r) = ident →
  removeLoop batch [ident] w =
  (Ok tt,
   logged (snd (remove_target (client r) w))
     (match fst (remove_target (client r) w) with
      | Ok _ => Done (name (client r)) "removed"
      | Thrown message => Failed (name (client r)) message
      end)).
Proof.
  intros Hfind Hid. unfold removeLoop, remove_target. simpl for_of.
  rewrite Hfind, Hid.
  unfold try_catch, bind, client_of, ret.
  destruct (String.eqb ident "claude-code").
  - destruct (on_cli claudeMcpRemove w) as [[[]|e] w1]; reflexivity.
  - destruct (truthy_path (client r)) as [p|]; [|reflexivity].
    unfold lift, of_outcome.
    destruct (removeEntry _) as [data|e]; [|reflexivity].
    destruct (on_fs (writeJsonConfig p data) w) as [[[]|e] w1]; reflexivity.
Qed.

Lemma removeLoop_step (batch : list ScanResult) (ident : string)
    (r : ScanResult) (rest : list string) (w : World) :
  find_by_id batch ident = Some r → id (client r) = ident →
  removeLoop batch (ident :: rest) w =
  removeLoop batch rest
    (logged (snd (remove_target (client r) w))
       (match fst (remove_target (client r) w) with
        | Ok _ => Done (name (client r)) "removed"
        | Thrown message => Failed (name (client r)) message
        end)).
Proof.
  intros Hfind Hid. unfold removeLoop at 1 2.
  apply for_of_cons. now apply removeLoop_one.
Qed.

(** An iteration of the add loop whose [find] succeeded. *)
Lemma addLoop_one (tok : string) (method : InstallMethod)
    (batch : list ScanResult) (ident : string) (r : ScanResult) (w : World) :
  find_by_id batch ident = Some r → id (client r) = ident →
  addLoop tok method batch [ident] w =
  (Ok tt,
   logged (snd (add_target tok method (client r) w))
     (match fst (add_target tok method (client r) w) with
      | Ok _ => Done (name (client r)) "configured"
      | Thrown message => Failed (name (client r)) message
      end)).
Proof.
  intros Hfind Hid. unfold addLoop, add_target. simpl for_of.
  rewrite Hfind, Hid.
  unfold try_catch, bind, client_of, ret.
  destruct (String.eqb ident "claude-code").
  - destruct (on_cli (configureClaudeCode tok method) w) as [[b|e] w1];
      reflexivity.
  - destruct (truthy_path (client r)) as [p|]; [|reflexivity].
    destruct (configureJsonClient (client r) tok w) as [[[]|e] w1];
      reflexivity.
Qed.

Lemma addLoop_step (tok : string) (method : InstallMethod)
    (batch : list ScanResult) (ident : string)
    (r : ScanResult) (rest : list string) (w : World) :
  find_by_id batch ident = Some r → id (client r) = ident →
  addLoop tok method batch (ident :: rest) w =
  addLoop tok method batch rest
    (logged (snd (add_target tok method (client r) w))
       (match fst (add_target tok method (client r) w) with
        | Ok _ => Done (name (client r)) "configured"
        | Thrown message => Failed (name (client r)) message
        end)).
Proof.
  intros Hfind Hid. unfold addLoop at 1 2.
  apply for_of_cons. now apply addLoop_one.
Qed.

Lemma silent_update_target tok c : silent (update_target tok c).
Proof.
  apply silent_bind.
  - destruct (truthy_path c); [apply silent_lift | apply silent_ret].
  - intros method. destruct (String.eqb _ _).
    + apply silent_bind; [apply silent_on_cli | intros; apply silent_ret].
    + destruct (truthy_path c);
        [apply silent_configureJsonClient | apply silent_ret].
Qed.

Lemma updateToken_step (tok : string) (r : ScanResult)
    (rest : list ScanResult) (w : World) :
  is_configured r = true →
  updateToken (Ok tok) (r :: rest) w =
  updateToken (Ok tok) rest
    (logged (snd (update_target tok (client r) w))
       (match fst (update_target tok (client r) w) with
        | Ok _ => Done (name (client r)) "updated"
        | Thrown message => Failed (name (client r)) message
        end)).
Proof.
  intros Hc. unfold updateToken at 1 2, bind at 1 5, of_outcome.
  simpl List.filter. rewrite Hc.
  apply for_of_cons. simpl for_of. unfold bind at 1.
  rewrite (attempt_reports_as _ (update_target tok (client r))
             (name (client r)) "updated" _ w (silent_update_target _ _)).
  - reflexivity.
  - intros w0. unfold update_target. apply bind_assoc.
  - reflexivity.
Qed.

(** *** A file-backed target, alone *)

Lemma file_backed_configPath c p : file_backed c p → configPath c = Some p.
Proof.
  intros [_ Hp]. unfold truthy_path in Hp.
  destruct (configPath c) as [q|]; [|discriminate].
  destruct (String.eqb q ""); [discriminate | exact Hp].
Qed.

Lemma on_fs_write_ok p data (w : World) :
  unwritable (fs w) !! p = None →
  on_fs (writeJsonConfig p data) w = (Ok tt, with_fs w (written (fs w) p data)).
Proof. intros Hw. unfold on_fs, writeJsonConfig. now rewrite Hw. Qed.

Lemma on_fs_write_fail p data message (w : World) :
  unwritable (fs w) !! p = Some message →
  on_fs (writeJsonConfig p data) w = (Thrown message, w).
Proof.
  intros Hw. unfold on_fs, writeJsonConfig. rewrite Hw. now destruct w.
Qed.

Lemma configureJsonClient_ok c p tok x merged (w : World) :
  configPath c = Some p → readJsonConfig (fs w) p = x →
  mergeServerConfig x tok Npx = Ok merged →
  unwritable (fs w) !! p = None →
  configureJsonClient c tok w
  = (Ok tt, with_fs w (written (fs w) p merged)).
Proof.
  intros Hp Hx Hm Hw. unfold configureJsonClient. rewrite Hp.
  unfold bind, lift, of_outcome. rewrite Hx, Hm. now apply on_fs_write_ok.
Qed.

Lemma configureJsonClient_fail c p tok x merged message (w : World) :
  configPath c = Some p → readJsonConfig (fs w) p = x →
  mergeServerConfig x tok Npx = Ok merged →
  unwritable (fs w) !! p = Some message →
  configureJsonClient c tok w = (Thrown message, w).
Proof.
  intros Hp Hx Hm Hw. unfold configureJsonClient. rewrite Hp.
  unfold bind, lift, of_outcome. rewrite Hx, Hm. now apply on_fs_write_fail.
Qed.

Lemma add_attempt_file tok method c p x merged (w : World) :
  file_backed c p → readJsonConfig (fs w) p = x →
  mergeServerConfig x tok Npx = Ok merged →
  logged (snd (add_target tok method c w))
    (match fst (add_target tok method c w) with
     | Ok _ => Done (name c) "configured"
     | Thrown message => Failed (name c) message
     end)
  = after_attempt w c p "configured" merged.
Proof.
  intros Hfb Hx Hm. pose proof (file_backed_configPath c p Hfb) as Hp.
  destruct Hfb as [Hid Htp]. unfold add_target, after_attempt.
  rewrite Hid, Htp.
  destruct (unwritable (fs w) !! p) as [message|] eqn:Hw.
  - now rewrite (configureJsonClient_fail c p tok x merged message w).
  - now rewrite (configureJsonClient_ok c p tok x merged w).
Qed.

Lemma update_attempt_file tok method c p x merged (w : World) :
  file_backed c p → readJsonConfig (fs w) p = x →
  detectInstallMethodFromConfig (fs w) p = Ok method →
  mergeServerConfig x tok Npx = Ok merged →
  logged (snd (update_target tok c w))
    (match fst (update_target tok c w) with
     | Ok _ => Done (name c) "updated"
     | Thrown message => Failed (name c) message
     end)
  = after_attempt w c p "updated" merged.
Proof.
  intros Hfb Hx Hd Hm. pose proof (file_backed_configPath c p Hfb) as Hp.
  destruct Hfb as [Hid Htp].
  assert (Hrun : update_target tok c w = configureJsonClient c tok w).
  { unfold update_target. rewrite Hid, Htp. unfold bind, lift. now rewrite Hd. }
  rewrite Hrun. unfold after_attempt.
  destruct (unwritable (fs w) !! p) as [message|] eqn:Hw.
  - now rewrite (configureJsonClient_fail c p tok x merged message w).
  - now rewrite (configureJsonClient_ok c p tok x merged w).
Qed.

Lemma remove_attempt_file c p x data (w : World) :
  file_backed c p → readJsonConfig (fs w) p = x →
  removeEntry x = Ok data →
  logged (snd (remove_target c w))
    (match fst (remove_target c w) with
     | Ok _ => Done (name c) "removed"
     | Thrown message => Failed (name c) message
     end)
  = after_attempt w c p "removed" data.
Proof.
  intros [Hid Htp] Hx Hr. unfold remove_target, after_attempt.
  rewrite Hid, Htp. unfold bind, lift, of_outcome. rewrite Hx, Hr.
  destruct (unwritable (fs w) !! p) as [message|] eqn:Hw.
  - now rewrite (on_fs_write_fail p data message w).
  - now rewrite (on_fs_write_ok p data w).
Qed.

(** *** Three file-backed targets, the second of which cannot be written *)

Lemma read_written_eq (f : FS) p data :
  readJsonConfig (written f p data) p = data.
Proof. unfold readJsonConfig, written. simpl. now rewrite lookup_insert_eq. Qed.

Lemma read_written_ne (f : FS) p q data :
  p ≠ q → readJsonConfig (written f p data) q = readJsonConfig f q.
Proof.
  intros Hne. unfold readJsonConfig, written. simpl.
  now rewrite lookup_insert_ne.
Qed.

Lemma detect_ext (f f' : FS) p :
  readJsonConfig f p = readJsonConfig f' p →
  detectInstallMethodFromConfig f p = detectInstallMethodFromConfig f' p.
Proof. intros Hr. unfold detectInstallMethodFromConfig. now rewrite Hr. Qed.

Section ThreeTargets.

Variables (w : World) (c1 c2 c3 : Client) (p1 p2 p3 : string).
Variables (verb message : string) (d1 d2 d3 : json).
Hypothesis writable1 : unwritable (fs w) !! p1 = None.
Hypothesis unwritable2 : unwritable (fs w) !! p2 = Some message.
Hypothesis writable3 : unwritable (fs w) !! p3 = None.
Hypothesis distinct13 : p1 ≠ p3.

Local Abbreviation w1 := (after_attempt w c1 p1 verb d1).
Local Abbreviation w2 := (after_attempt w1 c2 p2 verb d2).
Local Abbreviation w3 := (after_attempt w2 c3 p3 verb d3).

Lemma distinct12 : p1 ≠ p2.
Proof. intros Heq. rewrite Heq, unwritable2 in writable1. discriminate. Qed.

Lemma distinct32 : p3 ≠ p2.
Proof. intros Heq. rewrite Heq, unwritable2 in writable3. discriminate. Qed.

Lemma first_attempt :
  w1 = logged (with_fs w (written (fs w) p1 d1)) (Done (name c1) verb).
Proof. unfold w1, after_attempt. now rewrite writable1. Qed.

Lemma second_attempt : w2 = logged w1 (Failed (name c2) message).
Proof.
  unfold after_attempt at 1. rewrite first_attempt. simpl.
  now rewrite unwritable2.
Qed.

Lemma third_attempt :
  w3 = logged (with_fs w2 (written (fs w2) p3 d3)) (Done (name c3) verb).
Proof.
  unfold after_attempt at 1. rewrite second_attempt, first_attempt. simpl.
  now rewrite writable3.
Qed.

Lemma second_reads : readJsonConfig (fs w1) p2 = readJsonConfig (fs w) p2.
Proof.
  rewrite first_attempt. simpl. apply read_written_ne, distinct12.
Qed.

Lemma third_reads : readJsonConfig (fs w2) p3 = readJsonConfig (fs w) p3.
Proof.
  rewrite second_attempt, first_attempt. simpl.
  now apply read_written_ne.
Qed.

(** The first and the third file hold what was written for them, the second is
    as it was, and the console has the three status lines. *)
Lemma three_attempts :
  console w3 = console w ++ [Done (name c1) verb; Failed (name c2) message;
                             Done (name c3) verb] ∧
  readJsonConfig (fs w3) p1 = d1 ∧
  readJsonConfig (fs w3) p3 = d3 ∧
  files (fs w3) !! p2 = files (fs w) !! p2.
Proof.
  rewrite third_attempt, second_attempt, first_attempt. simpl.
  split; [now rewrite <- !app_assoc|]. split; [|split].
  - rewrite read_written_ne by (intros Heq; now apply distinct13).
    apply read_written_eq.
  - apply read_written_eq.
  - rewrite lookup_insert_ne by apply distinct32.
    rewrite lookup_insert_ne by apply distinct12. reflexivity.
Qed.

End ThreeTargets.

Lemma find_by_id_here (r : ScanResult) (rest : list ScanResult) :
  find_by_id (r :: rest) (id (client r)) = Some r.
Proof. unfold find_by_id. simpl. now rewrite String.eqb_refl. Qed.

Lemma find_by_id_later (r : ScanResult) (rest : list ScanResult) ident :
  id (client r) ≠ ident →
  find_by_id (r :: rest) ident = find_by_id rest ident.
Proof.
  intros Hne. unfold find_by_id. simpl.
  now destruct (String.eqb_spec (id (client r)) ident).
Qed.

Lemma removeLoop_reports (batch : list ScanResult) (ids : list string) :
  (∀ ident, In ident ids →
      ∃ r, find_by_id batch ident = Some r ∧ id (client r) = ident) →
  ∀ w, ∃ w' ls,
    removeLoop batch ids w = (Ok tt, w') ∧
    console w' = console w ++ ls ∧
    Forall2 (λ ident l, ∃ r, find_by_id batch ident = Some r ∧
                             report_of (name (client r)) "removed" l) ids ls.
Proof.
  induction ids as [|ident rest IH]; intros Hfound w.
  - exists w, []. rewrite app_nil_r. repeat split. constructor.
  - destruct (Hfound ident (or_introl eq_refl)) as (r & Hfind & Hid).
    rewrite (removeLoop_step batch ident r rest w Hfind Hid).
    destruct (IH (λ i Hi, Hfound i (or_intror Hi))
                (logged (snd (remove_target (client r) w))
                   (match fst (remove_target (client r) w) with
                    | Ok _ => Done (name (client r)) "removed"
                    | Thrown message => Failed (name (client r)) message
                    end)))
      as (w' & ls & Hrun & Hcon & Hall).
    eexists w', (_ :: ls). split; [exact Hrun|]. split.
    + rewrite Hcon. simpl. rewrite silent_remove_target, <- app_assoc.
      reflexivity.
    + constructor; [|exact Hall]. exists r. split; [exact Hfind|].
      unfold report_of. destruct (fst (remove_target (client r) w)); eauto.
Qed.

Lemma addLoop_reports (tok : string) (method : InstallMethod)
    (batch : list ScanResult) (ids : list string) :
  (∀ ident, In ident ids →
      ∃ r, find_by_id batch ident = Some r ∧ id (client r) = ident) →
  ∀ w, ∃ w' ls,
    addLoop tok method batch ids w = (Ok tt, w') ∧
    console w' = console w ++ ls ∧
    Forall2 (λ ident l, ∃ r, find_by_id batch ident = Some r ∧
                             report_of (name (client r)) "configured" l)
            ids ls.
Proof.
  induction ids as [|ident rest IH]; intros Hfound w.
  - exists w, []. rewrite app_nil_r. repeat split. constructor.
  - destruct (Hfound ident (or_introl eq_refl)) as (r & Hfind & Hid).
    rewrite (addLoop_step tok method batch ident r rest w Hfind Hid).
    destruct (IH (λ i Hi, Hfound i (or_intror Hi))
                (logged (snd (add_target tok method (client r) w))
                   (match fst (add_target tok method (client r) w) with
                    | Ok _ => Done (name (client r)) "configured"
                    | Thrown message => Failed (name (client r)) message
                    end)))
      as (w' & ls & Hrun & Hcon & Hall).
    eexists w', (_ :: ls). split; [exact Hrun|]. split.
    + rewrite Hcon. simpl. rewrite silent_add_target, <- app_assoc.
      reflexivity.
    + constructor; [|exact Hall]. exists r. split; [exact Hfind|].
      unfold report_of. destruct (fst (add_target tok method (client r) w));
        eauto.
Qed.

Lemma ticked_found (ticked : Choice → bool) (batch : list ScanResult) ident :
  In ident (checkbox ticked (choices_of batch)) →
  ∃ r, find_by_id batch ident = Some r ∧ id (client r) = ident.
Proof.
  intros Hin. destruct (find_by_id_ticked ticked batch ident Hin)
    as (r & Hfind & _ & Hid). eauto.
Qed.

Lemma removeEntry_object (x : list (string * json)) :
  ∃ y, removeEntry (JObj x) = Ok (JObj y).
Proof. unfold removeEntry. simpl. eauto. Qed.

Lemma merge_returns (x : list (string * json)) tok method :
  ∃ y, mergeServerConfig (JObj x) tok method = Ok y.
Proof. rewrite merge_object. eauto. Qed.

Lemma add_three (w : World) r1 r2 r3 p1 p2 p3 x1 x2 x3 message tok method :
  second_unwritable w r1 r2 r3 p1 p2 p3 x1 x2 x3 message →
  ∃ w',
    addLoop tok method [r1; r2; r3] (ids_of [r1; r2; r3]) w = (Ok tt, w') ∧
    console w' = console w ++ three_lines "configured" r1 r2 r3 message ∧
    mergeServerConfig (JObj x1) tok Npx = Ok (readJsonConfig (fs w') p1) ∧
    mergeServerConfig (JObj x3) tok Npx = Ok (readJsonConfig (fs w') p3) ∧
    files (fs w') !! p2 = files (fs w) !! p2.
Proof.
  intros (F1 & F2 & F3 & N12 & N13 & N23 & P13 & R1 & R2 & R3 & W1 & W2 & W3).
  destruct (merge_returns x1 tok Npx) as (d1 & M1).
  destruct (merge_returns x2 tok Npx) as (d2 & M2).
  destruct (merge_returns x3 tok Npx) as (d3 & M3).
  simpl ids_of.
  rewrite (addLoop_step tok method _ _ r1 _ w (find_by_id_here _ _) eq_refl).
  rewrite (add_attempt_file tok method _ p1 (JObj x1) d1 w F1 R1 M1).
  rewrite (addLoop_step tok method _ _ r2 _ _
             (eq_trans (find_by_id_later _ _ _ N12) (find_by_id_here _ _))
             eq_refl).
  rewrite (add_attempt_file tok method _ p2 (JObj x2) d2 _ F2
             (eq_trans (second_reads w _ p1 p2 _ message d1 W1 W2) R2) M2).
  rewrite (addLoop_step tok method _ _ r3 _ _
             (eq_trans (find_by_id_later _ _ _ N13)
                (eq_trans (find_by_id_later _ _ _ N23) (find_by_id_here _ _)))
             eq_refl).
  rewrite (add_attempt_file tok method _ p3 (JObj x3) d3 _ F3
             (eq_trans (third_reads w _ _ p1 p2 p3 _ message d1 d2 W1 W2 P13)
                R3) M3).
  eexists. split; [reflexivity|].
  destruct (three_attempts w (client r1) (client r2) (client r3) p1 p2 p3
              "configured" message d1 d2 d3 W1 W2 W3 P13)
    as (Hcon & H1 & H3 & H2).
  rewrite Hcon, H1, H3, H2. auto.
Qed.

Lemma detect_returns_object (f : FS) p x :
  readJsonConfig f p = JObj x → ∃ m, detectInstallMethodFromConfig f p = Ok m.
Proof. intros Hr. apply detect_returns. now rewrite Hr. Qed.

Lemma update_three (w : World) r1 r2 r3 p1 p2 p3 x1 x2 x3 message tok :
  second_unwritable w r1 r2 r3 p1 p2 p3 x1 x2 x3 message →
  is_configured r1 = true → is_configured r2 = true →
  is_configured r3 = true →
  ∃ w',
    updateToken (Ok tok) [r1; r2; r3] w = (Ok tt, w') ∧
    console w' = console w ++ three_lines "updated" r1 r2 r3 message ∧
    mergeServerConfig (JObj x1) tok Npx = Ok (readJsonConfig (fs w') p1) ∧
    mergeServerConfig (JObj x3) tok Npx = Ok (readJsonConfig (fs w') p3) ∧
    files (fs w') !! p2 = files (fs w) !! p2.
Proof.
  intros (F1 & F2 & F3 & N12 & N13 & N23 & P13 & R1 & R2 & R3 & W1 & W2 & W3)
         C1 C2 C3.
  destruct (detect_returns_object _ _ _ R1) as (m1 & D1).
  destruct (detect_returns_object _ _ _ R2) as (m2 & D2).
  destruct (detect_returns_object _ _ _ R3) as (m3 & D3).
  destruct (merge_returns x1 tok Npx) as (d1 & M1).
  destruct (merge_returns x2 tok Npx) as (d2 & M2).
  destruct (merge_returns x3 tok Npx) as (d3 & M3).
  pose proof (second_reads w (client r1) p1 p2 "updated" message d1 W1 W2)
    as S2.
  pose proof (third_reads w (client r1) (client r2) p1 p2 p3 "updated" message
                d1 d2 W1 W2 P13) as S3.
  rewrite (updateToken_step tok r1 _ w C1).
  rewrite (update_attempt_file tok m1 _ p1 (JObj x1) d1 w F1 R1 D1 M1).
  rewrite (updateToken_step tok r2 _ _ C2).
  rewrite (update_attempt_file tok m2 _ p2 (JObj x2) d2 _ F2
             (eq_trans S2 R2) (eq_trans (detect_ext _ _ _ S2) D2) M2).
  rewrite (updateToken_step tok r3 _ _ C3).
  rewrite (update_attempt_file tok m3 _ p3 (JObj x3) d3 _ F3
             (eq_trans S3 R3) (eq_trans (detect_ext _ _ _ S3) D3) M3).
  eexists. split; [reflexivity|].
  destruct (three_attempts w (client r1) (client r2) (client r3) p1 p2 p3
              "updated" message d1 d2 d3 W1 W2 W3 P13)
    as (Hcon & H1 & H3 & H2).
  rewrite Hcon, H1, H3, H2. auto.
Qed.

Lemma remove_three (w : World) r1 r2 r3 p1 p2 p3 x1 x2 x3 message :
  second_unwritable w r1 r2 r3 p1 p2 p3 x1 x2 x3 message →
  ∃ w',
    removeLoop [r1; r2; r3] (ids_of [r1; r2; r3]) w = (Ok tt, w') ∧
    console w' = console w ++ three_lines "removed" r1 r2 r3 message ∧
    removeEntry (JObj x1) = Ok (readJsonConfig (fs w') p1) ∧
    removeEntry (JObj x3) = Ok (readJsonConfig (fs w') p3) ∧
    files (fs w') !! p2 = files (fs w) !! p2.
Proof.
  intros (F1 & F2 & F3 & N12 & N13 & N23 & P13 & R1 & R2 & R3 & W1 & W2 & W3).
  destruct (removeEntry_object x1) as (y1 & M1).
  destruct (removeEntry_object x2) as (y2 & M2).
  destruct (removeEntry_object x3) as (y3 & M3).
  simpl ids_of.
  rewrite (removeLoop_step _ _ r1 _ w (find_by_id_here _ _) eq_refl).
  rewrite (remove_attempt_file _ p1 (JObj x1) (JObj y1) w F1 R1 M1).
  rewrite (removeLoop_step _ _ r2 _ _
             (eq_trans (find_by_id_later _ _ _ N12) (find_by_id_here _ _))
             eq_refl).
  rewrite (remove_attempt_file _ p2 (JObj x2) (JObj y2) _ F2
             (eq_trans (second_reads w _ p1 p2 _ message (JObj y1) W1 W2) R2)
             M2).
  rewrite (removeLoop_step _ _ r3 _ _
             (eq_trans (find_by_id_later _ _ _ N13)
                (eq_trans (find_by_id_later _ _ _ N23) (find_by_id_here _ _)))
             eq_refl).
  rewrite (remove_attempt_file _ p3 (JObj x3) (JObj y3) _ F3
             (eq_trans (third_reads w _ _ p1 p2 p3 _ message (JObj y1)
                          (JObj y2) W1 W2 P13) R3) M3).
  eexists. split; [reflexivity|].
  destruct (three_attempts w (client r1) (client r2) (client r3) p1 p2 p3
              "removed" message (JObj y1) (JObj y2) (JObj y3) W1 W2 W3 P13)
    as (Hcon & H1 & H3 & H2).
  rewrite Hcon, H1, H3, H2. auto.
Qed.

(** When the operator ticks every entry, the checkbox returns every id. *)
Lemma checkbox_all (ticked : Choice → bool) (rs : list ScanResult) :
  Forall (λ r, ticked {| choice_name := name (client r);
                         choice_value := id (client r) |} = true) rs →
  checkbox ticked (choices_of rs) = ids_of rs.
Proof.
  unfold checkbox, choices_of, ids_of.
  induction 1 as [|r rs Hr _ IH]; [reflexivity|].
  simpl. rewrite Hr. simpl. now rewrite IH.
Qed.

Lemma filter_all {A} (f : A → bool) (xs : list A) :
  Forall (λ x, f x = true) xs → List.filter f xs = xs.
Proof.
  induction 1 as [|x xs Hx _ IH]; [reflexivity|].
  simpl. now rewrite Hx, IH.
Qed.

Lemma removeIntegrations_all (ticked : Choice → bool) r (rs : list ScanResult)
    (w : World) :
  Forall (λ r, is_configured r = true) (r :: rs) →
  Forall (λ r, ticked {| choice_name := name (client r);
                         choice_value := id (client r) |} = true) (r :: rs) →
  removeIntegrations ticked (r :: rs) w
  = removeLoop (r :: rs) (ids_of (r :: rs)) w.
Proof.
  intros Hc Ht. unfold removeIntegrations.
  rewrite (filter_all _ _ Hc), (checkbox_all _ _ Ht). reflexivity.
Qed.

Lemma addIntegrations_all (ticked : Choice → bool) tok method r
    (rs : list ScanResult) (w : World) :
  Forall (λ r, detected (client r) && negb (is_configured r) = true)
         (r :: rs) →
  Forall (λ r, ticked {| choice_name := name (client r);
                         choice_value := id (client r) |} = true) (r :: rs) →
  addIntegrations ticked (Ok (tok, method)) (r :: rs) w
  = addLoop tok method (r :: rs) (ids_of (r :: rs)) w.
Proof.
  intros Hc Ht. unfold addIntegrations.
  rewrite (filter_all _ _ Hc), (checkbox_all _ _ Ht). reflexivity.
Qed.

(** *** A batch as a sequence of reported attempts *)

Section Attempts.
Variable verb : string.
Variable target : Client → M unit.
Hypothesis target_silent : ∀ c, silent (target c).

Lemma attempts_console cs (w : World) :
  console (attempts verb target cs w)
  = console w ++ attempt_lines verb target cs w.
Proof.
  revert w. induction cs as [|c cs IH]; intros w; simpl.
  - now rewrite app_nil_r.
  - rewrite IH. simpl. rewrite target_silent. now rewrite <- app_assoc.
Qed.

Lemma attempt_lines_length cs (w : World) :
  length (attempt_lines verb target cs w) = length cs.
Proof.
  revert w. induction cs as [|c cs IH]; intros w; simpl; [reflexivity|].
  now rewrite IH.
Qed.

Lemma attempt_lines_report cs (w : World) i c l :
  cs !! i = Some c → attempt_lines verb target cs w !! i = Some l →
  report_of (name c) verb l.
Proof.
  revert w i. induction cs as [|c0 cs IH]; intros w i Hc Hl; [discriminate|].
  destruct i as [|i]; simpl in *.
  - injection Hc as ->. injection Hl as <-.
    destruct (fst (target c w)); [now left | right; eauto].
  - eapply IH; eassumption.
Qed.

(** What a successful attempt establishes, and no later attempt undoes, holds
    at the end for every target that reported success. *)
Lemma attempts_post (Q : World → Client → Prop) :
  (∀ c w l, Q w c → Q (logged w l) c) →
  (∀ c w u, fst (target c w) = Ok u → Q (snd (target c w)) c) →
  (∀ c c' w, Q w c → Q (snd (target c' w)) c) →
  ∀ cs (w : World) i c,
    cs !! i = Some c →
    attempt_lines verb target cs w !! i = Some (Done (name c) verb) →
    Q (attempts verb target cs w) c.
Proof.
  intros Hlog Hest Hpres.
  assert (Hkeep : ∀ cs (w : World) c,
             Q w c → Q (attempts verb target cs w) c).
  { induction cs as [|c0 cs IH]; intros w c HQ; [exact HQ|].
    simpl. apply IH. apply Hlog. now apply Hpres. }
  induction cs as [|c0 cs IH]; intros w i c Hc Hl; [discriminate|].
  destruct i as [|i]; simpl in *.
  - injection Hc as ->. apply Hkeep. apply Hlog.
    destruct (fst (target c w)) as [u|e] eqn:Hr; [|discriminate].
    eapply Hest; eassumption.
  - eapply IH; eassumption.
Qed.



End Attempts.

(** The three loops are such sequences. *)

Lemma updateToken_attempts tok (results : list ScanResult) (w : World) :
  updateToken (Ok tok) results w
  = (Ok tt,
     attempts "updated" (update_target tok)
       (map client (List.filter is_configured results)) w).
Proof.
  revert w. induction results as [|r rs IH]; intros w; [reflexivity|].
  destruct (is_configured r) eqn:Hc.
  - rewrite (updateToken_step tok r rs w Hc). rewrite IH. simpl.
    rewrite Hc. reflexivity.
  - simpl. rewrite Hc. rewrite <- IH. unfold updateToken. simpl.
    now rewrite Hc.
Qed.

Lemma addLoop_attempts tok m (batch : list ScanResult) ids rs (w : World) :
  Forall2 (λ ident r, find_by_id batch ident = Some r ∧ id (client r) = ident)
          ids rs →
  addLoop tok m batch ids w
  = (Ok tt, attempts "configured" (add_target tok m) (map client rs) w).
Proof.
  intros Hall. revert w.
  induction Hall as [|ident r ids rs [Hf Hid] _ IH]; intros w; [reflexivity|].
  rewrite (addLoop_step tok m batch ident r ids w Hf Hid). now rewrite IH.
Qed.

Lemma removeLoop_attempts (batch : list ScanResult) ids rs (w : World) :
  Forall2 (λ ident r, find_by_id batch ident = Some r ∧ id (client r) = ident)
          ids rs →
  removeLoop batch ids w
  = (Ok tt, attempts "removed" remove_target (map client rs) w).
Proof.
  intros Hall. revert w.
  induction Hall as [|ident r ids rs [Hf Hid] _ IH]; intros w; [reflexivity|].
  rewrite (removeLoop_step batch ident r ids w Hf Hid). now rewrite IH.
Qed.

(** The ticked ids resolve to results of the batch. *)
Lemma ticked_resolved (ticked : Choice → bool) (batch : list ScanResult) :
  ∃ rs,
    Forall2 (λ ident r, find_by_id batch ident = Some r ∧
                        id (client r) = ident)
            (checkbox ticked (choices_of batch)) rs ∧
    Forall (λ r, In r batch) rs.
Proof.
  assert (Hall : ∀ ids,
    (∀ ident, In ident ids →
       ∃ r, find_by_id batch ident = Some r ∧ In r batch ∧
            id (client r) = ident) →
    ∃ rs, Forall2 (λ ident r, find_by_id batch ident = Some r ∧
                              id (client r) = ident) ids rs ∧
          Forall (λ r, In r batch) rs).
  { induction ids as [|ident ids IH]; intros Hin.
    - exists []. split; constructor.
    - destruct (Hin ident (or_introl eq_refl)) as (r & Hf & Hb & Hid).
      destruct IH as (rs & Hrs & Hbs).
      { intros i Hi. apply Hin. now right. }
      exists (r :: rs). split; constructor; auto. }
  apply Hall. intros ident Hin. now apply (find_by_id_ticked ticked).
Qed.

(** Each line reports the outcome of the attempt on its own target, made in
    the state that the attempts before it left. *)
Lemma attempt_lines_lookup verb (target : Client → M unit) cs (w : World) i c :
  cs !! i = Some c →
  attempt_lines verb target cs w !! i
  = Some (line_of verb c
            (fst (target c (attempts verb target (take i cs) w)))).
Proof.
  revert w i. induction cs as [|c0 cs IH]; intros w i Hc; [discriminate|].
  destruct i as [|i]; simpl in *.
  - now injection Hc as ->.
  - now apply IH.
Qed.

(** C1.  Update, Remove and Add each end normally whatever happens to a
    target.  Each one is the sequence of the attempts on the targets of its
    batch, in batch order, and prints one status line per target: the line of
    a target reports the outcome of the attempt on that target alone (success
    if it returned, failure with the message of what it threw), and the next
    target is attempted in either case, in the state the attempts before it
    left (the general statements).  In particular, for three file-backed
    targets of which only the second cannot be written, each operation
    reports success, failure with the write's message, success; the first and
    the third file then hold the config merged with the on-demand entry (for
    Remove: the pruned config) and the second file is as it was. *)
Theorem batch_failure_isolation :
  (∀ verb (target : Client → M unit) cs (w : World),
     length (attempt_lines verb target cs w) = length cs ∧
     ∀ i c, cs !! i = Some c →
       attempt_lines verb target cs w !! i
       = Some (line_of verb c
                 (fst (target c (attempts verb target (take i cs) w))))) ∧
  (∀ tok results (w : World),
     let cs := map client (configured_of results) in
     updateToken (Ok tok) results w
       = (Ok tt, attempts "updated" (update_target tok) cs w) ∧
     console (attempts "updated" (update_target tok) cs w)
       = console w ++ attempt_lines "updated" (update_target tok) cs w) ∧
  (∀ ticked results (w : World), ∃ rs,
     let batch := configured_of results in
     let ids := checkbox ticked (choices_of batch) in
     let cs := map client rs in
     Forall2 (λ ident r, find_by_id batch ident = Some r ∧
                         id (client r) = ident) ids rs ∧
     removeIntegrations ticked results w
       = (Ok tt, match ids with
                 | [] => logged w (Dim "No clients selected.")
                 | _ => attempts "removed" remove_target cs w
                 end) ∧
     console (attempts "removed" remove_target cs w)
       = console w ++ attempt_lines "removed" remove_target cs w) ∧
  (∀ ticked tok method results (w : World), ∃ rs,
     let batch := unconfigured_of results in
     let ids := checkbox ticked (choices_of batch) in
     let cs := map client rs in
     Forall2 (λ ident r, find_by_id batch ident = Some r ∧
                         id (client r) = ident) ids rs ∧
     addIntegrations ticked (Ok (tok, method)) results w
       = (Ok tt, match ids with
                 | [] => logged w (Dim "No clients selected.")
                 | _ => attempts "configured" (add_target tok method) cs w
                 end) ∧
     console (attempts "configured" (add_target tok method) cs w)
       = console w ++ attempt_lines "configured" (add_target tok method) cs w) ∧
  (∀ (w : World) r1 r2 r3 p1 p2 p3 x1 x2 x3 message ticked,
     second_unwritable w r1 r2 r3 p1 p2 p3 x1 x2 x3 message →
     Forall (λ r, ticked {| choice_name := name (client r);
                            choice_value := id (client r) |} = true)
            [r1; r2; r3] →
     (Forall (λ r, detected (client r) && negb (is_configured r) = true)
             [r1; r2; r3] →
      ∀ tok method, ∃ w',
        addIntegrations ticked (Ok (tok, method)) [r1; r2; r3] w
          = (Ok tt, w') ∧
        console w' = console w ++ three_lines "configured" r1 r2 r3 message ∧
        mergeServerConfig (JObj x1) tok Npx
          = Ok (readJsonConfig (fs w') p1) ∧
        mergeServerConfig (JObj x3) tok Npx
          = Ok (readJsonConfig (fs w') p3) ∧
        files (fs w') !! p2 = files (fs w) !! p2) ∧
     (Forall (λ r, is_configured r = true) [r1; r2; r3] →
      (∀ tok, ∃ w',
         updateToken (Ok tok) [r1; r2; r3] w = (Ok tt, w') ∧
         console w' = console w ++ three_lines "updated" r1 r2 r3 message ∧
         mergeServerConfig (JObj x1) tok Npx
           = Ok (readJsonConfig (fs w') p1) ∧
         mergeServerConfig (JObj x3) tok Npx
           = Ok (readJsonConfig (fs w') p3) ∧
         files (fs w') !! p2 = files (fs w) !! p2) ∧
      (∃ w',
         removeIntegrations ticked [r1; r2; r3] w = (Ok tt, w') ∧
         console w' = console w ++ three_lines "removed" r1 r2 r3 message ∧
         removeEntry (JObj x1) = Ok (readJsonConfig (fs w') p1) ∧
         removeEntry (JObj x3) = Ok (readJsonConfig (fs w') p3) ∧
         files (fs w') !! p2 = files (fs w) !! p2))).
Proof.
  split; [|split; [|split; [|split]]].
  - intros verb target cs w. split; [apply attempt_lines_length|].
    intros i c. apply attempt_lines_lookup.
  - intros tok results w. cbv zeta. split; [apply updateToken_attempts|].
    apply attempts_console. intros c. apply silent_update_target.
  - intros ticked results w. cbv zeta.
    destruct (ticked_resolved ticked (configured_of results))
      as (rs & Hrs & _).
    exists rs. split; [exact Hrs|]. split.
    + unfold removeIntegrations. fold (configured_of results).
      destruct (checkbox ticked (choices_of (configured_of results)))
        as [|ident ids]; [reflexivity|].
      apply (removeLoop_attempts _ _ rs w Hrs).
    + apply attempts_console. intros c. apply silent_remove_target.
  - intros ticked tok method results w. cbv zeta.
    destruct (ticked_resolved ticked (unconfigured_of results))
      as (rs & Hrs & _).
    exists rs. split; [exact Hrs|]. split.
    + unfold addIntegrations. fold (unconfigured_of results).
      destruct (checkbox ticked (choices_of (unconfigured_of results)))
        as [|ident ids]; [reflexivity|].
      apply (addLoop_attempts tok method _ _ rs w Hrs).
    + apply attempts_console. intros c. apply silent_add_target.
  - intros w r1 r2 r3 p1 p2 p3 x1 x2 x3 message ticked Hthree Hticked.
    split.
    + intros Hun tok method. rewrite (addIntegrations_all _ _ _ _ _ _ Hun Hticked).
      exact (add_three w r1 r2 r3 p1 p2 p3 x1 x2 x3 message tok method Hthree).
    + intros Hc. split.
      * intros tok. inversion Hc as [|? ? C1 Hc']. inversion Hc' as [|? ? C2 Hc''].
        inversion Hc'' as [|? ? C3 _]. subst.
        exact (update_three w r1 r2 r3 p1 p2 p3 x1 x2 x3 message tok Hthree C1 C2 C3).
      * rewrite (removeIntegrations_all _ _ _ _ Hc Hticked).
        exact (remove_three w r1 r2 r3 p1 p2 p3 x1 x2 x3 message Hthree).
Qed.

(** *** Removing an entry that is not there *)

Lemma removeEntry_absent (x : list (string * json)) :
  opt_member (obj_get SERVERS_KEY x) RESERVED_KEY = None →
  removeEntry (JObj x)
  = Ok (JObj (if nullish (obj_get SERVERS_KEY x)
              then obj_set SERVERS_KEY (JObj []) x else x)).
Proof.
  intros Habsent. unfold removeEntry. simpl member. cbv beta iota.
  destruct (obj_get SERVERS_KEY x) as [[| b | z | s | items | o]|] eqn:Hget;
    simpl; try reflexivity;
    try (now rewrite (obj_set_same _ _ _ Hget)).
  simpl in Habsent. rewrite (obj_delete_absent _ _ Habsent).
  now rewrite (obj_set_same _ _ _ Hget).
Qed.

(** C7, as amended.  For every config mapping [x] in which the reserved entry
    is absent, Remove on a file-backed target whose file holds [x] and can be
    written ends normally and reports success; the mapping it writes back is
    [x] itself when [x] has a ['mcpServers'] that is not [null], and [x] with
    ['mcpServers'] set to the empty mapping otherwise.  No other file
    changes. *)
Theorem remove_absent_entry (w : World) (r : ScanResult) (p : string)
    (x : list (string * json)) (ticked : Choice → bool) :
  file_backed (client r) p →
  is_configured r = true →
  ticked {| choice_name := name (client r);
            choice_value := id (client r) |} = true →
  readJsonConfig (fs w) p = JObj x →
  opt_member (obj_get SERVERS_KEY x) RESERVED_KEY = None →
  unwritable (fs w) !! p = None →
  ∃ w',
    removeIntegrations ticked [r] w = (Ok tt, w') ∧
    console w' = console w ++ [Done (name (client r)) "removed"] ∧
    readJsonConfig (fs w') p
      = JObj (if nullish (obj_get SERVERS_KEY x)
              then obj_set SERVERS_KEY (JObj []) x else x) ∧
    (nullish (obj_get SERVERS_KEY x) = false →
     readJsonConfig (fs w') p = readJsonConfig (fs w) p) ∧
    (∀ q, q ≠ p → files (fs w') !! q = files (fs w) !! q).
Proof.
  intros Hfb Hc Ht Hread Habsent Hw.
  rewrite (removeIntegrations_all ticked r [] w) by (repeat constructor; auto).
  simpl ids_of.
  rewrite (removeLoop_step _ _ r _ w (find_by_id_here _ _) eq_refl).
  rewrite (remove_attempt_file _ p (JObj x) _ w Hfb Hread
             (removeEntry_absent x Habsent)).
  unfold after_attempt. rewrite Hw.
  eexists. split; [reflexivity|]. simpl.
  split; [reflexivity|]. split; [apply read_written_eq|]. split.
  - intros Hnn. rewrite Hnn, Hread. apply read_written_eq.
  - intros q Hq. now rewrite lookup_insert_ne.
Qed.

(** *** Scanning *)





Lemma map_outcome_each {A B} (f : A → outcome B) (xs : list A) (ys : list B) :
  map_outcome f xs = Ok ys → Forall2 (λ x y, f x = Ok y) xs ys.
Proof.
  revert ys. induction xs as [|x xs IH]; simpl; intros ys.
  - intros [= <-]. constructor.
  - destruct (f x) as [y|] eqn:Hfx; [|discriminate].
    destruct (map_outcome f xs) as [ys'|]; [|discriminate].
    intros [= <-]. constructor; [exact Hfx | now apply IH].
Qed.


Lemma read_not_null (f : FS) p : no_null_file f → readJsonConfig f p ≠ JNull.
Proof.
  intros Hnn Hr. apply (Hnn p). unfold readJsonConfig in Hr.
  destruct (files f !! p) as [[|j]|]; try discriminate. now subst.
Qed.

Lemma jsonClient_returns (w : World) nm ident p :
  no_null_file (fs w) → ∃ c, jsonClient w nm ident p = Ok c.
Proof.
  intros Hnn. unfold jsonClient, isJsonClientConfigured.
  destruct (existsSync (fs w) p); [|eauto].
  rewrite (member_not_null _ _ (read_not_null _ p Hnn)). eauto.
Qed.

Lemma getClients_returns (w : World) :
  no_null_file (fs w) → ∃ cs, getClients w = Ok cs ∧ length cs = 4%nat.
Proof.
  intros Hnn. unfold getClients.
  destruct (jsonClient_returns w "Claude Desktop" "claude-desktop"
              (if String.eqb (getPlatform w) "windows"
               then getAppDataPath w +:+ "\Claude\claude_desktop_config.json"
               else getAppDataPath w +:+ "/Claude/claude_desktop_config.json")
              Hnn) as [c1 ->].
  destruct (jsonClient_returns w "Cursor" "cursor"
              (resolveConfigPath w [".cursor"; "mcp.json"]) Hnn) as [c2 ->].
  destruct (jsonClient_returns w "Windsurf" "windsurf"
              (resolveConfigPath w [".codeium"; "windsurf"; "mcp_config.json"])
              Hnn) as [c3 ->].
  eauto.
Qed.

Lemma member_of_truthy (v : value) (k : string) :
  truthy v = true → member_of v k = Ok (opt_member v k).
Proof.
  destruct v as [[| b | z | s | items | o]|]; simpl; try discriminate;
    reflexivity.
Qed.

Lemma scanClient_returns (w : World) (c : Client) :
  no_null_file (fs w) → ∃ r, scanClient w c = Ok r.
Proof.
  intros Hnn. unfold scanClient.
  destruct (String.eqb (id c) "claude-code"); [eauto|].
  destruct (if detected c then truthy_path c else None) as [p|]; [|eauto].
  rewrite (member_not_null _ _ (read_not_null _ p Hnn)).
  destruct (truthy (opt_member (get (readJsonConfig (fs w) p) SERVERS_KEY)
                      RESERVED_KEY)) eqn:Ht; simpl; [|eauto].
  rewrite (member_of_truthy _ _ Ht). eauto.
Qed.










End WithCli.

Import Examples.

Lemma remove_absent_entry_witness :
  ∃ w',
    removeIntegrations (H := no_claude) (λ _, true)
      [result_at "Claude Desktop" "claude-desktop" desktop_path true]
      fresh_world = (Ok tt, w') ∧
    readJsonConfig (fs w') desktop_path = JObj [("mcpServers", JObj [])].
Proof.
  destruct (@remove_absent_entry no_claude fresh_world
              (result_at "Claude Desktop" "claude-desktop" desktop_path true)
              desktop_path [] (λ _, true))
    as (w' & Hrun & _ & Hread & _).
  - split; vm_compute; reflexivity.
  - reflexivity.
  - reflexivity.
  - vm_compute. reflexivity.
  - reflexivity.
  - vm_compute. reflexivity.
  - exists w'. split; [exact Hrun | exact Hread].
Defined.

(** Counterexample to C7 as the specification states it: on the empty
    mapping the entry is absent and Remove reports success, but the mapping it
    writes back has gained an empty ['mcpServers']. *)
Lemma remove_absent_entry_changes_config :
  readJsonConfig (fs fresh_world) desktop_path = JObj [] ∧
  fst (removeIntegrations (H := no_claude) (λ _, true)
         [result_at "Claude Desktop" "claude-desktop" desktop_path true]
         fresh_world) = Ok tt ∧
  readJsonConfig
    (fs (snd (removeIntegrations (H := no_claude) (λ _, true)
                [result_at "Claude Desktop" "claude-desktop" desktop_path true]
                fresh_world)))
    desktop_path = JObj [("mcpServers", JObj [])] ∧
  JObj [("mcpServers", JObj [])] ≠ JObj [].
Proof.
  split; [vm_compute; reflexivity|]. split; [vm_compute; reflexivity|].
  split; [vm_compute; reflexivity | discriminate].
Qed.



Lemma batch_failure_isolation_witness :
  ∃ w',
    addIntegrations (H := no_claude) (λ _, true) (Ok ("figd_1", Npx))
      (three_results false) fresh_world = (Ok tt, w') ∧
    console w' = [Done "Claude Desktop" "configured"; Failed "Cursor" EACCES;
                  Done "Windsurf" "configured"] ∧
    files (fs w') !! cursor_path = Some (Parsed (JObj sample_config)).
Proof.
  destruct (@batch_failure_isolation no_claude) as (_ & _ & _ & _ & Hthree).
  destruct (Hthree fresh_world
              (result_at "Claude Desktop" "claude-desktop" desktop_path false)
              (result_at "Cursor" "cursor" cursor_path false)
              (result_at "Windsurf" "windsurf" windsurf_path false)
              desktop_path cursor_path windsurf_path [] sample_config []
              EACCES (λ _, true)) as [Hadd _].
  - unfold second_unwritable, file_backed.
    repeat split; try (vm_compute; reflexivity); vm_compute; discriminate.
  - repeat constructor.
  - destruct (Hadd ltac:(repeat constructor) "figd_1" Npx)
      as (w' & Hrun & Hcon & _ & _ & Hfile).
    exists w'. split; [exact Hrun|]. split; [exact Hcon|].
    rewrite Hfile. vm_compute. reflexivity.
Defined.

End DoctorSpec.

(** ** [src/steps/healthCheck.ts]: the bridge wait *)

Module HealthCheckSpec.

Import HealthCheck.

#[local] Arguments upgrade_response : simpl never.
#[local] Arguments accept_token : simpl never.

Lemma start_waiting port tty : waiting (start port tty).
Proof. unfold waiting, start. simpl. repeat split; eauto. Qed.

Lemma step_waiting (s : Wait) (e : event) :
  waiting s →
  if fires s e then settled (outcome_of e) (step s e) else waiting (step s e).
Proof.
  destruct s as [res pr sp fr tm li cc cp tty raw fl od eh sn].
  unfold waiting, settled, torn_down. simpl.
  intros (-> & -> & -> & -> & Hli & -> & -> & -> & -> & -> & ->).
  destruct e as [| | data | [key|] |]; cbn [step fires outcome_of];
    try generalize (upgrade_response (accept_token key)); try intros text;
    simpl.
  - repeat split; auto.
  - unfold cleanup, restoreStdin, resolve. simpl.
    destruct tty; simpl; repeat split; auto.
  - destruct tty; simpl.
    + destruct (String.eqb data ESC); simpl.
      * unfold cleanup, restoreStdin, resolve. simpl. repeat split; auto.
      * repeat split; auto.
    + repeat split; auto.
  - unfold cleanup, restoreStdin, resolve.
    destruct tty; simpl; repeat split; auto.
  - unfold cleanup, restoreStdin, resolve.
    destruct tty; simpl; repeat split; auto.
  - repeat split; auto.
Qed.

(** After the wait is settled every event leaves the promise and the released
    resources as they are; the timeout and stdin data change nothing at all. *)
Lemma step_settled (r : BridgeResult) (s : Wait) (e : event) :
  settled r s →
  settled r (step s e) ∧
  (e = TimerFires ∨ (∃ data, e = Data data) → step s e = s).
Proof.
  destruct s as [res pr sp fr tm li cc cp tty raw fl od eh sn].
  unfold settled, torn_down. simpl.
  intros (-> & -> & -> & -> & -> & -> & -> & -> & ->).
  destruct e as [| | data | [key|] |]; cbn [step];
    try generalize (upgrade_response (accept_token key)); try intros text;
    simpl.
  - split; [repeat split; auto|]. intros [|[? ?]]; discriminate.
  - split; [repeat split; auto|]. reflexivity.
  - rewrite andb_false_r. split; [repeat split; auto|]. reflexivity.
  - split; [|intros [|[? ?]]; discriminate].
    unfold cleanup, resolve; simpl; repeat split; auto.
  - split; [|intros [|[? ?]]; discriminate].
    unfold cleanup, resolve; simpl; repeat split; auto.
  - split; [|intros [|[? ?]]; discriminate].
    destruct cp; [destruct tty|]; simpl; repeat split; auto.
Qed.

Lemma run_settled (r : BridgeResult) (events : list event) (s : Wait) :
  settled r s → settled r (run s events).
Proof.
  revert s. induction events as [|e events IH]; intros s Hs; [exact Hs|].
  simpl. apply IH. now apply step_settled.
Qed.

Lemma run_waiting (events : list event) (s : Wait) :
  waiting s →
  match winner s events with
  | None => waiting (run s events)
  | Some r => settled r (run s events)
  end.
Proof.
  revert s. induction events as [|e events IH]; intros s Hs; [exact Hs|].
  simpl. pose proof (step_waiting s e Hs) as Hstep.
  destruct (fires s e).
  - now apply run_settled.
  - now apply IH.
Qed.

Lemma run_app (s : Wait) (events more : list event) :
  run s (events ++ more) = run (run s events) more.
Proof. unfold run. apply fold_left_app. Qed.

Lemma winner_idle (events : list event) (s : Wait) :
  waiting s → forallb idle events = true →
  winner s events = None ∧ waiting (run s events).
Proof.
  revert s. induction events as [|e events IH]; intros s Hs Hidle.
  - split; [reflexivity | exact Hs].
  - simpl in Hidle. apply andb_prop in Hidle as [He Hrest].
    pose proof (step_waiting s e Hs) as Hstep.
    assert (Hf : fires s e = false).
    { destruct e as [| | data | key |]; simpl in *; try discriminate;
        try reflexivity.
      apply negb_true_iff in He. rewrite He. apply andb_false_r. }
    simpl. rewrite Hf in *. now apply IH.
Qed.

Lemma promise_of_waiting (events : list event) (s : Wait) :
  waiting s → promise (run s events) = winner s events.
Proof.
  intros Hs. pose proof (run_waiting events s Hs) as Hrun.
  destruct (winner s events) as [r|].
  - apply Hrun.
  - apply Hrun.
Qed.

Lemma step_isTTY (s : Wait) (e : event) : isTTY (step s e) = isTTY s.
Proof.
  destruct s as [res pr sp fr tm li cc cp tty raw fl od eh sn].
  destruct e as [| | data | [key|] |]; cbn [step];
    try generalize (upgrade_response (accept_token key)); try intros text;
    unfold resolve, cleanup, restoreStdin, removeDataListener, socket_write;
    simpl;
    repeat match goal with
           | |- context [if ?b then _ else _] => destruct b; simpl
           | |- context [match ?x with Some _ => _ | None => _ end] =>
               destruct x; simpl
           end; reflexivity.
Qed.

Lemma run_isTTY (events : list event) (s : Wait) :
  isTTY (run s events) = isTTY s.
Proof.
  revert s. induction events as [|e events IH]; intros s; [reflexivity|].
  simpl. change (isTTY (run (step s e) events) = isTTY s).
  now rewrite IH, step_isTTY.
Qed.

(** After the wait is settled: the spinner tick, the timeout, stdin data and
    an upgrade request without a key do nothing at all; an upgrade request
    with a key still gets its response written, and nothing else changes. *)
Lemma step_settled_exact (r : BridgeResult) (s : Wait) :
  settled r s →
  step s Tick = s ∧ step s TimerFires = s ∧ (∀ data, step s (Data data) = s) ∧
  step s (Upgrade None) = s ∧
  ∀ key, step s (Upgrade (Some key))
         = socket_write (upgrade_response (accept_token key)) s.
Proof.
  destruct s as [res pr sp fr tm li cc cp tty raw fl od eh sn].
  unfold settled, torn_down. simpl.
  intros (-> & -> & -> & -> & -> & -> & -> & -> & ->).
  split; [reflexivity|]. split; [reflexivity|]. split.
  { intros data. cbn [step onData flowing]. now rewrite andb_false_r. }
  split; [reflexivity|].
  intros key. cbn [step]. generalize (upgrade_response (accept_token key)).
  intros text. reflexivity.
Qed.

(** The event that settles the wait leaves the server's ['close'] event
    pending; the data listener is removed at once by Escape only. *)
Lemma step_waiting_listener (s : Wait) (e : event) :
  waiting s → fires s e = true →
  close_pending (step s e) = true ∧
  onData (step s e) = match e with Data _ => false | _ => isTTY s end.
Proof.
  destruct s as [res pr sp fr tm li cc cp tty raw fl od eh sn].
  unfold waiting. simpl.
  intros (-> & -> & -> & -> & [port ->] & -> & -> & -> & -> & -> & ->).
  destruct e as [| | data | [key|] |]; cbn [fires timer onData flowing];
    try (intros Hf; discriminate Hf).
  - intros _. destruct tty; split; reflexivity.
  - destruct tty; [|intros Hf; discriminate Hf].
    destruct (String.eqb data ESC) eqn:Hesc; [|intros Hf; discriminate Hf].
    intros _. cbn [step onData flowing andb]. rewrite Hesc.
    split; reflexivity.
  - intros _. cbn [step]. generalize (upgrade_response (accept_token key)).
    intros text. destruct tty; split; reflexivity.
  - intros _. destruct tty; split; reflexivity.
Qed.

Lemma step_settled_listener (r : BridgeResult) (s : Wait) (e : event) :
  settled r s → listener_awaits_close s →
  listener_awaits_close (step s e) ∧
  (onData s = false → onData (step s e) = false) ∧
  (e = ServerClose →
   onData (step s e) = false ∧ close_pending (step s e) = false).
Proof.
  intros Hs HJ.
  destruct (step_settled_exact r s Hs) as (Htick & Htimer & Hdata & Hnone & Hkey).
  destruct e as [| | data | [key|] |].
  - rewrite Htick. split; [exact HJ|]. split; [auto | discriminate].
  - rewrite Htimer. split; [exact HJ|]. split; [auto | discriminate].
  - rewrite Hdata. split; [exact HJ|]. split; [auto | discriminate].
  - rewrite Hkey. split; [exact HJ|]. split; [auto | discriminate].
  - rewrite Hnone. split; [exact HJ|]. split; [auto | discriminate].
  - unfold listener_awaits_close in *. cbn [step].
    destruct (close_pending s) eqn:Hcp.
    + destruct (isTTY s) eqn:Htty; simpl.
      * split; [discriminate|]. split; auto.
      * destruct (onData s) eqn:Hod.
        { destruct (HJ eq_refl) as [_ Hcontra]. discriminate. }
        split; [discriminate|]. split; auto.
    + destruct (onData s) eqn:Hod.
      { destruct (HJ eq_refl) as [Hcontra _]. discriminate. }
      split; [discriminate|]. split; auto.
Qed.

Lemma run_settled_listener (r : BridgeResult) (events : list event) (s : Wait) :
  settled r s → listener_awaits_close s →
  listener_awaits_close (run s events) ∧
  (onData s = false → onData (run s events) = false).
Proof.
  revert s. induction events as [|e events IH]; intros s Hs HJ; [auto|].
  destruct (step_settled_listener r s e Hs HJ) as (HJ' & Hoff & _).
  destruct (IH (step s e) (proj1 (step_settled r s e Hs)) HJ') as [HJ'' Hoff'].
  split; [exact HJ''|]. intros Hod. apply Hoff'. now apply Hoff.
Qed.

Lemma run_waiting_listener (events : list event) (s : Wait) :
  waiting s → is_Some (promise (run s events)) →
  listener_awaits_close (run s events).
Proof.
  revert s. induction events as [|e events IH]; intros s Hs Hp.
  - destruct Hs as (_ & Hnone & _). simpl in Hp. rewrite Hnone in Hp.
    destruct Hp as [? [=]].
  - pose proof (step_waiting s e Hs) as Hstep.
    destruct (fires s e) eqn:Hf.
    + destruct (step_waiting_listener s e Hs Hf) as [Hcp Hod].
      apply (run_settled_listener (outcome_of e) events (step s e) Hstep).
      intros Hon. split; [exact Hcp|].
      rewrite Hod in Hon. rewrite step_isTTY.
      destruct e; try exact Hon; discriminate.
    + now apply IH.
Qed.

(** C5, as amended.  From the state in which the promise's executor leaves
    the wait: the value the promise gets is the outcome of the first event
    that reaches its callback (timeout, Escape, or upgrade request), so at
    most one outcome is produced, and further events never change it; as soon
    as the promise is settled the timer and the spinner are cleared,
    [server.close()] has been called exactly once and the server no longer
    listens, and stdin is out of raw mode and paused, all within the callback
    that settles the promise and so before the caller resumes.  From then on
    the spinner tick, the timeout, stdin data and an upgrade request without
    a key do nothing at all; an upgrade request with a key is still answered
    with the 101 response, and changes nothing else.  The data listener is
    removed at once only when Escape settles the wait; when the timeout or an
    upgrade request does, it stays attached (to the paused stdin) until the
    server's ['close'] event, which removes it.  In particular, on a
    terminal, Escape arriving before any upgrade request and before the
    timeout settles the promise with [cancelled], with the listener closed
    and the data listener removed, and whatever arrives later (a connection
    attempt included) leaves that so. *)
Theorem bridge_race_single_outcome (port : Z) (tty : bool) :
  (∀ events,
     promise (run (start port tty) events) = winner (start port tty) events) ∧
  (∀ events more r,
     promise (run (start port tty) events) = Some r →
     promise (run (start port tty) (events ++ more)) = Some r) ∧
  (∀ events,
     match promise (run (start port tty) events) with
     | Some _ => torn_down (run (start port tty) events)
     | None => waiting (run (start port tty) events)
     end) ∧
  (∀ events r,
     promise (run (start port tty) events) = Some r →
     (∀ e, settled r (step (run (start port tty) events) e)) ∧
     step (run (start port tty) events) Tick = run (start port tty) events ∧
     step (run (start port tty) events) TimerFires
       = run (start port tty) events ∧
     (∀ data, step (run (start port tty) events) (Data data)
              = run (start port tty) events) ∧
     step (run (start port tty) events) (Upgrade None)
       = run (start port tty) events ∧
     (∀ key, step (run (start port tty) events) (Upgrade (Some key))
             = socket_write (upgrade_response (accept_token key))
                 (run (start port tty) events)) ∧
     onData (step (run (start port tty) events) ServerClose) = false ∧
     close_pending (step (run (start port tty) events) ServerClose) = false) ∧
  (∀ events e,
     promise (run (start port tty) events) = None →
     fires (run (start port tty) events) e = true →
     close_pending (step (run (start port tty) events) e) = true ∧
     onData (step (run (start port tty) events) e)
       = match e with Data _ => false | _ => tty end) ∧
  (∀ free pre post,
     tty = true →
     (∃ p, In p BRIDGE_PORTS ∧ free p = true) →
     forallb idle pre = true →
     ∃ s p,
       waitForBridgeWithCancel free tty (pre ++ Data ESC :: post)
       = {| tried := fst (tryPorts free BRIDGE_PORTS); bound := Some p;
            wait := Some s; returned := Some cancelled |} ∧
       promise (run (start p tty) (pre ++ [Data ESC])) = Some cancelled ∧
       settled cancelled s ∧ onData s = false).
Proof.
  pose proof (start_waiting port tty) as H0.
  assert (Hsettled : ∀ events r,
            promise (run (start port tty) events) = Some r →
            settled r (run (start port tty) events)).
  { intros events r Hp. pose proof (run_waiting events _ H0) as Hrun.
    rewrite <- (promise_of_waiting events _ H0), Hp in Hrun. exact Hrun. }
  assert (Hwaiting : ∀ events,
            promise (run (start port tty) events) = None →
            waiting (run (start port tty) events)).
  { intros events Hp. pose proof (run_waiting events _ H0) as Hrun.
    rewrite <- (promise_of_waiting events _ H0), Hp in Hrun. exact Hrun. }
  split; [intros events; now apply promise_of_waiting|].
  split; [|split; [|split; [|split]]].
  - intros events more r Hp. rewrite run_app.
    apply (run_settled r more), Hsettled, Hp.
  - intros events. pose proof (run_waiting events _ H0) as Hrun.
    rewrite <- (promise_of_waiting events _ H0) in Hrun.
    destruct (promise (run (start port tty) events)); [apply Hrun | exact Hrun].
  - intros events r Hp. pose proof (Hsettled events r Hp) as Hs.
    destruct (step_settled_exact r _ Hs)
      as (Htick & Htimer & Hdata & Hnone & Hkey).
    split; [intros e; now apply step_settled|].
    split; [exact Htick|]. split; [exact Htimer|]. split; [exact Hdata|].
    split; [exact Hnone|]. split; [exact Hkey|].
    assert (HJ : listener_awaits_close (run (start port tty) events)).
    { apply run_waiting_listener; [exact H0|]. rewrite Hp. eauto. }
    destruct (step_settled_listener r _ ServerClose Hs HJ) as (_ & _ & Hclose).
    now apply Hclose.
  - intros events e Hp Hf.
    destruct (step_waiting_listener _ e (Hwaiting events Hp) Hf) as [Hcp Hod].
    split; [exact Hcp|]. rewrite Hod, run_isTTY. reflexivity.
  - intros free pre post -> [p0 [Hin Hfree]] Hidle.
    unfold waitForBridgeWithCancel.
    destruct (tryPorts free BRIDGE_PORTS) as [ports [p|]] eqn:Htry.
    + destruct (winner_idle pre _ (start_waiting p true) Hidle) as [_ Hw].
      assert (Hf : fires (run (start p true) pre) (Data ESC) = true).
      { destruct Hw as (_ & _ & _ & _ & _ & _ & _ & _ & Hfl & Hod & _).
        simpl. rewrite Hod, Hfl, run_isTTY. reflexivity. }
      assert (Hcancel : settled cancelled (run (start p true) (pre ++ [Data ESC]))).
      { rewrite run_app.
        pose proof (step_waiting _ (Data ESC) Hw) as Hstep.
        rewrite Hf in Hstep. exact Hstep. }
      assert (Hoff : onData (run (start p true) (pre ++ [Data ESC])) = false).
      { rewrite run_app.
        destruct (step_waiting_listener _ (Data ESC) Hw Hf) as [_ Hod].
        exact Hod. }
      assert (HJ : listener_awaits_close
                     (run (start p true) (pre ++ [Data ESC]))).
      { intros Hon. rewrite Hoff in Hon. discriminate. }
      exists (run (start p true) (pre ++ Data ESC :: post)), p.
      replace (pre ++ Data ESC :: post) with ((pre ++ [Data ESC]) ++ post)
        by (now rewrite <- app_assoc).
      rewrite run_app.
      pose proof (run_settled cancelled post _ Hcancel) as Hlater.
      destruct (run_settled_listener cancelled post _ Hcancel HJ) as [_ Hstay].
      split; [|split; [apply Hcancel | split; [exact Hlater | now apply Hstay]]].
      simpl. f_equal. apply Hlater.
    + exfalso. clear -Htry Hin Hfree. revert ports Htry Hin.
      induction BRIDGE_PORTS as [|q qs IH]; intros ports Htry Hin; [destruct Hin|].
      simpl in Htry. unfold tryListen in Htry.
      destruct (free q) eqn:Hq; [discriminate|].
      destruct (tryPorts free qs) as [tried' b'].
      injection Htry as _ ->.
      destruct Hin as [-> | Hin]; [congruence | now apply (IH tried')].
Qed.

Lemma bridge_race_single_outcome_witness :
  returned
    (waitForBridgeWithCancel (λ p, Z.eqb p 9225) true
       ([Tick; Data "a"; Tick] ++
        Data ESC :: [Upgrade (Some "dGhlIHNhbXBsZSBub25jZQ=="); TimerFires]))
  = Some cancelled.
Proof.
  destruct (bridge_race_single_outcome 9225 true)
    as (_ & _ & _ & _ & _ & Hcancel).
  destruct (Hcancel (λ p, Z.eqb p 9225) [Tick; Data "a"; Tick]
              [Upgrade (Some "dGhlIHNhbXBsZSBub25jZQ=="); TimerFires])
    as (s & p & Hrun & _ & _).
  - reflexivity.
  - exists 9225%Z. split; [simpl; tauto | reflexivity].
  - reflexivity.
  - rewrite Hrun. reflexivity.
Defined.

(** Counterexample to C5 as the specification states it: on a terminal the
    timeout settles the wait, yet the data listener is still attached, and an
    upgrade request that arrives afterwards is not a no-op: its 101 response
    is written (the outcome stays [timeout]). *)
Lemma bridge_race_late_upgrade_is_answered :
  promise (run (start 9223 true) [TimerFires]) = Some timeout ∧
  onData (run (start 9223 true) [TimerFires]) = true ∧
  sent (run (start 9223 true) [TimerFires]) = [] ∧
  promise (run (start 9223 true)
             [TimerFires; Upgrade (Some RFC_SAMPLE_NONCE)]) = Some timeout ∧
  sent (run (start 9223 true) [TimerFires; Upgrade (Some RFC_SAMPLE_NONCE)])
    = [upgrade_response (accept_token RFC_SAMPLE_NONCE)] ∧
  run (start 9223 true) [TimerFires; Upgrade (Some RFC_SAMPLE_NONCE)]
    ≠ run (start 9223 true) [TimerFires].
Proof.
  split; [reflexivity|]. split; [reflexivity|]. split; [reflexivity|].
  split; [reflexivity|]. split; [reflexivity|].
  intros Heq. apply (f_equal (λ s, length (sent s))) in Heq. discriminate Heq.
Qed.

(** What [tryPorts] tries and binds: the ports up to and including the first
    free one, in the order of the list; all of them when none is free. *)
Lemma tryPorts_spec (free : Z → bool) (ports : list Z) :
  ∃ rest,
    ports = fst (tryPorts free ports) ++ rest ∧
    match snd (tryPorts free ports) with
    | Some p =>
        ∃ before, fst (tryPorts free ports) = before ++ [p] ∧
                  free p = true ∧ Forall (λ q, free q = false) before
    | None => rest = [] ∧ Forall (λ q, free q = false) ports
    end.
Proof.
  induction ports as [|q qs IH]; simpl.
  - exists []. split; [reflexivity|]. split; [reflexivity | constructor].
  - unfold tryListen. destruct (free q) eqn:Hq; simpl.
    + exists qs. split; [reflexivity|]. exists []. repeat split; auto.
    + destruct (tryPorts free qs) as [tried' b]. simpl in *.
      destruct IH as (rest & Heq & Hb). exists rest.
      split; [now rewrite Heq at 1|].
      destruct b as [p|].
      * destruct Hb as (before & -> & Hp & Hall).
        exists (q :: before). repeat split; auto.
      * destruct Hb as [-> Hall]. split; [reflexivity|]. now constructor.
Qed.

(** C6.  The candidate ports are the ten consecutive numbers that follow the
    debug port, 9223 to 9232, in ascending order; the verifier tries them in
    that order and stops at the first it can bind; and when it can bind none
    it has tried all ten and returns [connected] at once, with no port bound
    and no wait started. *)
Theorem all_ports_bound_is_connected :
  BRIDGE_PORTS = map (λ i, (CDP_PORT + 1 + Z.of_nat i)%Z) (seq 0 10) ∧
  length BRIDGE_PORTS = 10%nat ∧
  StronglySorted Z.lt BRIDGE_PORTS ∧
  (∀ free, ∃ rest,
     BRIDGE_PORTS = fst (tryPorts free BRIDGE_PORTS) ++ rest ∧
     match snd (tryPorts free BRIDGE_PORTS) with
     | Some p =>
         ∃ before, fst (tryPorts free BRIDGE_PORTS) = before ++ [p] ∧
                   free p = true ∧ Forall (λ q, free q = false) before
     | None => rest = [] ∧ Forall (λ q, free q = false) BRIDGE_PORTS
     end) ∧
  (∀ free tty events,
     (∀ p, In p BRIDGE_PORTS → free p = false) →
     waitForBridgeWithCancel free tty events
     = {| tried := BRIDGE_PORTS; bound := None; wait := None;
          returned := Some connected |}).
Proof.
  split; [reflexivity|]. split; [reflexivity|]. split; [|split].
  - unfold BRIDGE_PORTS. repeat constructor.
  - intros free. apply tryPorts_spec.
  - intros free tty events Hbound. unfold waitForBridgeWithCancel.
    destruct (tryPorts_spec free BRIDGE_PORTS) as (rest & Heq & Hb).
    destruct (tryPorts free BRIDGE_PORTS) as [ports [p|]]; cbn [fst snd] in *.
    + destruct Hb as (before & -> & Hp & _).
      rewrite Hbound in Hp; [discriminate|].
      rewrite Heq. apply in_or_app. left. apply in_or_app. right. now left.
    + destruct Hb as [-> _]. rewrite app_nil_r in Heq. now rewrite <- Heq.
Qed.

Lemma all_ports_bound_is_connected_witness :
  waitForBridgeWithCancel (λ _, false) true [Upgrade None; TimerFires]
  = {| tried := [9223; 9224; 9225; 9226; 9227; 9228; 9229; 9230; 9231; 9232]%Z;
       bound := None; wait := None; returned := Some connected |}.
Proof.
  destruct all_ports_bound_is_connected as (_ & _ & _ & _ & Hall).
  apply (Hall (λ _, false) true [Upgrade None; TimerFires]).
  reflexivity.
Defined.

(** The SHA-1 of the embedding on the test vectors of FIPS 180. *)
Lemma sha1_test_vectors :
  Crypto.hex (Crypto.sha1 (Crypto.utf8 "abc"))
    = "a9993e364706816aba3e25717850c26c9cd0d89d" ∧
  Crypto.hex (Crypto.sha1 (Crypto.utf8 ""))
    = "da39a3ee5e6b4b0d3255bfef95601890afd80709" ∧
  Crypto.hex (Crypto.sha1 (Crypto.utf8
      "abcdbcdecdefdefgefghfghighijhijkijkljklmklmnlmnomnopnopq"))
    = "84983e441c3bd26ebaae4aa1f95129e5e54670f1".
Proof. repeat split; vm_compute; reflexivity. Qed.

(** C9.  The response to an upgrade request with nonce [key] is the 101 header
    carrying the base64 of the SHA-1 of [key] followed by the program's
    constant.  That constant is not the identifier of RFC 6455: with the
    RFC's identifier the example nonce gives the published accept value, with
    the program's constant it gives another. *)
Theorem accept_token_is_not_the_reference_value :
  (∀ (s : Wait) key,
     sent (step s (Upgrade (Some key)))
     = sent s ++ [upgrade_response
                    (Crypto.sha1_base64 (key +:+ WS_MAGIC))]) ∧
  Crypto.sha1_base64 (RFC_SAMPLE_NONCE +:+ RFC6455_GUID) = RFC_SAMPLE_ACCEPT ∧
  accept_token RFC_SAMPLE_NONCE = "dxBSPk62+Dss7jrffkSJhSzPSEY=" ∧
  accept_token RFC_SAMPLE_NONCE ≠ RFC_SAMPLE_ACCEPT.
Proof.
  split; [|split; [|split]].
  - intros s key. cbn [step]. unfold accept_token.
    generalize (upgrade_response (Crypto.sha1_base64 (key +:+ WS_MAGIC))).
    intros text. unfold resolve, cleanup, restoreStdin, socket_write.
    cbn [resolved promise isTTY isRaw sent].
    destruct (resolved s); cbn [resolved promise isTTY isRaw sent];
      [|destruct (isTTY s && isRaw s); cbn [resolved promise isTTY isRaw sent]];
      destruct (promise s); reflexivity.
  - vm_compute. reflexivity.
  - vm_compute. reflexivity.
  - vm_compute. discriminate.
Qed.

End HealthCheckSpec.

(** * Further properties of the code *)

(** ** Merging, removing and scanning, composed *)

Module ConfigLaws.

Import ObjectFacts ConfigSpec.

(** Whatever [mergeServerConfig] returns is a mapping whose ['mcpServers'] is
    a mapping holding the fresh entry. *)
Lemma merge_shape (x y : json) t m :
  mergeServerConfig x t m = Ok y →
  ∃ o ms, y = JObj (obj_set SERVERS_KEY
                      (JObj (obj_set RESERVED_KEY (serverEntry t m) ms)) o) ∧
          o = own_props (Some x) ∧
          (∀ v, member x SERVERS_KEY = Ok v → ms = own_props v).
Proof.
  unfold mergeServerConfig.
  destruct (member x SERVERS_KEY) as [v|] eqn:Hm; [|discriminate].
  intros [= <-]. eexists _, _. split; [reflexivity|]. split; [reflexivity|].
  intros v' [= <-]. apply own_props_or_empty.
Qed.

(** X1.  Merging over an earlier merge gives what merging the original config
    gives: the entry written last replaces the earlier one and nothing of the
    earlier token or method is left. *)
Theorem merge_last_wins (x : list (string * json)) (t1 t2 : string)
    (m1 m2 : InstallMethod) :
  ∃ y, mergeServerConfig (JObj x) t1 m1 = Ok (JObj y) ∧
       mergeServerConfig (JObj y) t2 m2 = mergeServerConfig (JObj x) t2 m2.
Proof.
  eexists. split; [apply merge_object|].
  rewrite !merge_object, obj_get_set_eq. simpl own_props.
  now rewrite !obj_set_set.
Qed.

(** X2.  Remove undoes Add.  For a config mapping whose ['mcpServers'] is a
    mapping, [null] or missing, removing the entry from the merged config gives
    exactly what removing it from the original gives; and when the original
    has an ['mcpServers'] mapping without the entry, that is the original
    itself. *)
Theorem remove_after_merge (x : list (string * json)) (t : string)
    (m : InstallMethod) :
  plain_collection x →
  ∃ y, mergeServerConfig (JObj x) t m = Ok y ∧
       removeEntry y = removeEntry (JObj x) ∧
       (∀ ms, obj_get SERVERS_KEY x = Some (JObj ms) →
              obj_get RESERVED_KEY ms = None →
              removeEntry y = Ok (JObj x)).
Proof.
  intros Hplain. eexists. split; [apply merge_object|].
  assert (Hrm : removeEntry
            (JObj (obj_set SERVERS_KEY
                     (JObj (obj_set RESERVED_KEY (serverEntry t m)
                              (own_props (obj_get SERVERS_KEY x)))) x))
          = removeEntry (JObj x)).
  { unfold removeEntry. simpl member. cbv beta iota.
    rewrite obj_get_set_eq, obj_delete_set, obj_set_set.
    unfold plain_collection in Hplain.
    destruct (obj_get SERVERS_KEY x) as [[| b | z | s | items | o]|];
      try contradiction; reflexivity. }
  split; [exact Hrm|].
  intros ms Hget Habsent. rewrite Hrm. unfold removeEntry. simpl member.
  rewrite Hget. cbv beta iota.
  now rewrite (obj_delete_absent _ _ Habsent), (obj_set_same _ _ _ Hget).
Qed.

Lemma remove_after_merge_witness :
  ∃ y, mergeServerConfig (JObj Examples.sample_config) "figd_1" Npx = Ok y ∧
       removeEntry y = Ok (JObj Examples.sample_config).
Proof.
  destruct (remove_after_merge Examples.sample_config "figd_1" Npx)
    as (y & Hm & _ & Hback); [exact I|].
  exists y. split; [exact Hm|].
  apply (Hback [("other", JObj [("command", JStr "x")])]); reflexivity.
Defined.

End ConfigLaws.

(** ** The batch operations and the scan, composed *)

Module DoctorLaws.

Import ObjectFacts ConfigSpec DoctorSpec ConfigLaws.

Lemma obj_get_delete_eq k o : obj_get k (obj_delete k o) = None.
Proof.
  induction o as [|[k0 v0] o IH]; simpl; [reflexivity|].
  destruct (String.eqb_spec k0 k); [exact IH|]. simpl.
  now destruct (String.eqb_spec k0 k).
Qed.

(** What [removeEntry] returns has no reserved entry. *)
Lemma removeEntry_no_entry (x y : json) :
  removeEntry x = Ok y →
  ∃ v, member y SERVERS_KEY = Ok v ∧ opt_member v RESERVED_KEY = None.
Proof.
  unfold removeEntry.
  destruct (member x SERVERS_KEY) as [m|] eqn:Hm; [|discriminate].
  destruct x as [| b | z | s | items | o]; try discriminate.
  - intros [= <-]. simpl in *. injection Hm as <-. eauto.
  - intros [= <-]. simpl. rewrite obj_get_set_eq. eexists. split; [reflexivity|].
    destruct m as [[| b | z | s | items | o']|]; simpl; try reflexivity.
    apply obj_get_delete_eq.
Qed.

(** What [detectInstallMethodFromConfig] returns can be inferred back. *)
Lemma detect_recoverable (f : FS) p m :
  detectInstallMethodFromConfig f p = Ok m → recoverable m.
Proof.
  unfold detectInstallMethodFromConfig.
  destruct (member _ _) as [v|]; [|discriminate].
  destruct (strict_eq_string _ _); [|now intros [= <-]].
  destruct (member_of _ _) as [args|]; [|discriminate].
  destruct (opt_member args "0") as [a0|]; [|now intros [= <-]].
  destruct (truthy (Some a0)) eqn:Ht; intros [= <-]; simpl; auto.
Qed.

Section WithCli.
Context `{CliManagedTarget}.

(** *** What an attempt on a file-backed target does to the world *)

Lemma configureJsonClient_effect c p tok (w : World) :
  configPath c = Some p →
  match configureJsonClient c tok w with
  | (Ok _, w1) =>
      ∃ merged,
        mergeServerConfig (readJsonConfig (fs w) p) tok Npx = Ok merged ∧
        w1 = with_fs w (written (fs w) p merged)
  | (Thrown _, w1) => w1 = w
  end.
Proof.
  intros Hp. unfold configureJsonClient. rewrite Hp.
  unfold bind, lift, of_outcome.
  destruct (mergeServerConfig _ tok Npx) as [merged|e]; [|reflexivity].
  destruct (unwritable (fs w) !! p) as [message|] eqn:Hw.
  - now rewrite (on_fs_write_fail p merged message w Hw).
  - rewrite (on_fs_write_ok p merged w Hw). eauto.
Qed.

(** The install method handed to [addIntegrations] does not reach the file:
    the merge is the on-demand one. *)
Lemma add_target_effect tok m c p (w : World) :
  file_backed c p →
  match add_target tok m c w with
  | (Ok _, w1) =>
      ∃ merged,
        mergeServerConfig (readJsonConfig (fs w) p) tok Npx = Ok merged ∧
        w1 = with_fs w (written (fs w) p merged)
  | (Thrown _, w1) => w1 = w
  end.
Proof.
  intros Hfb. pose proof (file_backed_configPath c p Hfb) as Hp.
  destruct Hfb as [Hid Htp]. unfold add_target. rewrite Hid, Htp.
  now apply configureJsonClient_effect.
Qed.

(** Update Token infers the install method from the file first, which can
    throw, and then merges with the on-demand method whatever it inferred. *)
Lemma update_target_effect tok c p (w : World) :
  file_backed c p →
  match update_target tok c w with
  | (Ok _, w1) =>
      ∃ m merged,
        detectInstallMethodFromConfig (fs w) p = Ok m ∧
        mergeServerConfig (readJsonConfig (fs w) p) tok Npx = Ok merged ∧
        w1 = with_fs w (written (fs w) p merged)
  | (Thrown _, w1) => w1 = w
  end.
Proof.
  intros Hfb. pose proof (file_backed_configPath c p Hfb) as Hp.
  destruct Hfb as [Hid Htp]. unfold update_target. rewrite Hid, Htp.
  unfold bind at 1, lift at 1.
  destruct (detectInstallMethodFromConfig (fs w) p) as [m|e] eqn:Hd;
    [|reflexivity].
  pose proof (configureJsonClient_effect c p tok w Hp) as Heff.
  destruct (configureJsonClient c tok w) as [[u|e] w1]; [|exact Heff].
  destruct Heff as (merged & Hm & ->). eauto.
Qed.

Lemma remove_target_effect c p (w : World) :
  file_backed c p →
  match remove_target c w with
  | (Ok _, w1) =>
      ∃ data,
        removeEntry (readJsonConfig (fs w) p) = Ok data ∧
        w1 = with_fs w (written (fs w) p data)
  | (Thrown _, w1) => w1 = w
  end.
Proof.
  intros [Hid Htp]. unfold remove_target. rewrite Hid, Htp.
  unfold bind, lift, of_outcome.
  destruct (removeEntry _) as [data|e]; [|reflexivity].
  destruct (unwritable (fs w) !! p) as [message|] eqn:Hw.
  - now rewrite (on_fs_write_fail p data message w Hw).
  - rewrite (on_fs_write_ok p data w Hw). eauto.
Qed.

(** *** An operation on a single target *)

Lemma add_single (ticked : Choice → bool) tok m (r : ScanResult) (w : World) :
  detected (client r) = true → is_configured r = false →
  ticked (choice_of r) = true →
  addIntegrations ticked (Ok (tok, m)) [r] w
  = (Ok tt,
     logged (snd (add_target tok m (client r) w))
       (match fst (add_target tok m (client r) w) with
        | Ok _ => Done (name (client r)) "configured"
        | Thrown message => Failed (name (client r)) message
        end)).
Proof.
  intros Hd Hc Ht.
  rewrite (addIntegrations_all ticked tok m r [] w).
  - apply addLoop_one; [apply find_by_id_here | reflexivity].
  - repeat constructor. now rewrite Hd, Hc.
  - repeat constructor. exact Ht.
Qed.

Lemma remove_single (ticked : Choice → bool) (r : ScanResult) (w : World) :
  is_configured r = true → ticked (choice_of r) = true →
  removeIntegrations ticked [r] w
  = (Ok tt,
     logged (snd (remove_target (client r) w))
       (match fst (remove_target (client r) w) with
        | Ok _ => Done (name (client r)) "removed"
        | Thrown message => Failed (name (client r)) message
        end)).
Proof.
  intros Hc Ht.
  rewrite (removeIntegrations_all ticked r [] w).
  - apply removeLoop_one; [apply find_by_id_here | reflexivity].
  - repeat constructor. exact Hc.
  - repeat constructor. exact Ht.
Qed.

Lemma update_single tok (r : ScanResult) (w : World) :
  is_configured r = true →
  updateToken (Ok tok) [r] w
  = (Ok tt,
     logged (snd (update_target tok (client r) w))
       (match fst (update_target tok (client r) w) with
        | Ok _ => Done (name (client r)) "updated"
        | Thrown message => Failed (name (client r)) message
        end)).
Proof. intros Hc. now rewrite (updateToken_step tok r [] w Hc). Qed.

(** The line an attempt printed tells how it ended. *)
Lemma printed_done {A} (m : M A) (w : World) (l : line) nm verb :
  silent m →
  console (logged (snd (m w)) l) = console w ++ [Done nm verb] →
  l = Done nm verb.
Proof.
  intros Hs. simpl. rewrite Hs. intros Heq.
  apply app_inv_head in Heq. now injection Heq.
Qed.

Lemma printed_failed {A} (m : M A) (w : World) (l : line) nm message :
  silent m →
  console (logged (snd (m w)) l) = console w ++ [Failed nm message] →
  l = Failed nm message.
Proof.
  intros Hs. simpl. rewrite Hs. intros Heq.
  apply app_inv_head in Heq. now injection Heq.
Qed.

(** *** What the attempts do to the files *)

Lemma file_backed_or_not (c : Client) :
  (∃ p, file_backed c p) ∨ not_file_backed c.
Proof.
  unfold file_backed, not_file_backed.
  destruct (String.eqb (id c) "claude-code"); [now right; left|].
  destruct (truthy_path c) as [p|]; [left; eauto | now right; right].
Qed.

Lemma add_target_other tok m c (w : World) :
  not_file_backed c → fs (snd (add_target tok m c w)) = fs w.
Proof.
  unfold add_target, bind, on_cli, ret.
  intros [-> | Hp].
  - now destruct (configureClaudeCode tok m (cli w)) as [[b|e] c1].
  - rewrite Hp. destruct (String.eqb _ _); [|reflexivity].
    now destruct (configureClaudeCode tok m (cli w)) as [[b|e] c1].
Qed.

Lemma remove_target_other c (w : World) :
  not_file_backed c → fs (snd (remove_target c w)) = fs w.
Proof.
  unfold remove_target, on_cli.
  intros [-> | Hp].
  - now destruct (claudeMcpRemove (cli w)).
  - rewrite Hp. destruct (String.eqb _ _); [|reflexivity].
    now destruct (claudeMcpRemove (cli w)).
Qed.

Lemma update_target_other tok c (w : World) :
  not_file_backed c → fs (snd (update_target tok c w)) = fs w.
Proof.
  unfold update_target.
  intros [Hid | Hp].
  - rewrite Hid. unfold bind at 1.
    destruct (truthy_path c) as [p|]; unfold lift, ret.
    + destruct (detectInstallMethodFromConfig (fs w) p) as [m|e];
        [|reflexivity].
      unfold bind, on_cli.
      now destruct (configureClaudeCode tok m (cli w)) as [[b|e] c1].
    + unfold bind, on_cli.
      now destruct (configureClaudeCode tok Npx (cli w)) as [[b|e] c1].
  - rewrite Hp. unfold bind at 1, ret at 1.
    destruct (String.eqb _ _); [|reflexivity].
    unfold bind, on_cli.
    now destruct (configureClaudeCode tok Npx (cli w)) as [[b|e] c1].
Qed.

Lemma add_writes_own_file tok m : writes_own_file (add_target tok m).
Proof.
  intros c w. destruct (file_backed_or_not c) as [[p Hfb] | Hn].
  - pose proof (add_target_effect tok m c p w Hfb) as Heff.
    destruct (add_target tok m c w) as [[u|e] w1]; simpl.
    + destruct Heff as (merged & _ & ->). right. exists p, merged, u. eauto.
    + left. now rewrite Heff.
  - left. now apply add_target_other.
Qed.

Lemma update_writes_own_file tok : writes_own_file (update_target tok).
Proof.
  intros c w. destruct (file_backed_or_not c) as [[p Hfb] | Hn].
  - pose proof (update_target_effect tok c p w Hfb) as Heff.
    destruct (update_target tok c w) as [[u|e] w1]; simpl.
    + destruct Heff as (m & merged & _ & _ & ->). right.
      exists p, merged, u. eauto.
    + left. now rewrite Heff.
  - left. now apply update_target_other.
Qed.

Lemma remove_writes_own_file : writes_own_file remove_target.
Proof.
  intros c w. destruct (file_backed_or_not c) as [[p Hfb] | Hn].
  - pose proof (remove_target_effect c p w Hfb) as Heff.
    destruct (remove_target c w) as [[u|e] w1]; simpl.
    + destruct Heff as (data & _ & ->). right. exists p, data, u. eauto.
    + left. now rewrite Heff.
  - left. now apply remove_target_other.
Qed.




(** *** The scan after a batch *)

Lemma scanClient_read (c : Client) p (w1 w2 : World) :
  file_backed c p →
  readJsonConfig (fs w1) p = readJsonConfig (fs w2) p →
  scanClient w1 c = scanClient w2 c.
Proof.
  intros [Hid Hp] Hr. unfold scanClient. rewrite Hid, Hp.
  destruct (detected c); [|reflexivity]. now rewrite Hr.
Qed.

Lemma scan_of_merged (c : Client) p (w : World) x tok m :
  file_backed c p → detected c = true →
  mergeServerConfig x tok m = Ok (readJsonConfig (fs w) p) →
  scans_configured w c tok.
Proof.
  intros [Hid Hp] Hd Hm. unfold scans_configured, scanClient.
  rewrite Hid, Hd, Hp.
  destruct (merge_shape _ _ _ _ Hm) as (o & ms & -> & _ & _).
  cbn [member get]. rewrite obj_get_set_eq.
  cbn [opt_member get]. rewrite obj_get_set_eq.
  now destruct m.
Qed.

Lemma scan_of_removed (c : Client) p (w : World) x :
  file_backed c p →
  removeEntry x = Ok (readJsonConfig (fs w) p) →
  scans_unconfigured w c.
Proof.
  intros [Hid Hp] Hr. unfold scans_unconfigured, scanClient.
  rewrite Hid, Hp. destruct (detected c); [|reflexivity].
  destruct (removeEntry_no_entry _ _ Hr) as (v & -> & ->). reflexivity.
Qed.

Lemma scan_undetected (c : Client) p (w : World) :
  file_backed c p → detected c = false → scans_unconfigured w c.
Proof.
  intros [Hid Hp] Hd. unfold scans_unconfigured, scanClient.
  now rewrite Hid, Hd.
Qed.

(** A later attempt of the same kind does not undo what the scan finds. *)
Lemma scan_kept (Q : World → Client → Prop) target :
  writes_own_file target →
  (∀ c p w1 w2, file_backed c p →
     readJsonConfig (fs w1) p = readJsonConfig (fs w2) p → Q w2 c → Q w1 c) →
  (∀ c c' p data u (w : World),
     file_backed c p → file_backed c' p →
     fst (target c' w) = Ok u →
     fs (snd (target c' w)) = written (fs w) p data →
     Q (snd (target c' w)) c) →
  ∀ c c' p (w : World),
    file_backed c p → Q w c → Q (snd (target c' w)) c.
Proof.
  intros Hown Hread Hsame c c' p w Hfb HQ.
  destruct (Hown c' w) as [Heq | (p' & data & u & Hfb' & Hok & Hw)].
  - apply (Hread c p _ w Hfb); [now rewrite Heq | exact HQ].
  - destruct (String.eqb_spec p' p) as [-> | Hne].
    + eapply Hsame; eassumption.
    + apply (Hread c p _ w Hfb); [|exact HQ].
      rewrite Hw. now apply read_written_ne.
Qed.

Lemma add_establishes tok m c p u (w : World) :
  file_backed c p → detected c = true →
  fst (add_target tok m c w) = Ok u →
  scans_configured (snd (add_target tok m c w)) c tok.
Proof.
  intros Hfb Hd Hok. pose proof (add_target_effect tok m c p w Hfb) as Heff.
  destruct (add_target tok m c w) as [[u'|e] w1]; [|discriminate].
  destruct Heff as (merged & Hm & ->). simpl.
  eapply (scan_of_merged c p _ _ tok Npx Hfb Hd).
  simpl. rewrite read_written_eq. exact Hm.
Qed.

Lemma add_keeps_scan tok m c c' p (w : World) :
  file_backed c p → detected c = true →
  scans_configured w c tok →
  scans_configured (snd (add_target tok m c' w)) c tok.
Proof.
  intros Hfb Hd Hs.
  refine (scan_kept (λ w c, detected c = true → scans_configured w c tok)
            (add_target tok m) _ _ _ c c' p w Hfb (λ _, Hs) Hd).
  - apply add_writes_own_file.
  - intros c0 p0 w1 w2 Hfb0 Hr HQ Hd0. unfold scans_configured.
    rewrite (scanClient_read c0 p0 w1 w2 Hfb0 Hr). now apply HQ.
  - intros c0 c1 p0 data u w0 Hfb0 Hfb1 Hok Hw Hd0.
    pose proof (add_target_effect tok m c1 p0 w0 Hfb1) as Heff.
    destruct (add_target tok m c1 w0) as [[u'|e] w1]; [|discriminate].
    destruct Heff as (merged & Hm & ->). simpl.
    eapply (scan_of_merged c0 p0 _ _ tok Npx Hfb0 Hd0).
    simpl. rewrite read_written_eq. exact Hm.
Qed.

Lemma update_establishes tok c p u (w : World) :
  file_backed c p → detected c = true →
  fst (update_target tok c w) = Ok u →
  scans_configured (snd (update_target tok c w)) c tok.
Proof.
  intros Hfb Hd Hok. pose proof (update_target_effect tok c p w Hfb) as Heff.
  destruct (update_target tok c w) as [[u'|e] w1]; [|discriminate].
  destruct Heff as (m & merged & _ & Hm & ->). simpl.
  eapply (scan_of_merged c p _ _ tok Npx Hfb Hd).
  simpl. rewrite read_written_eq. exact Hm.
Qed.

Lemma update_keeps_scan tok c c' p (w : World) :
  file_backed c p → detected c = true →
  scans_configured w c tok →
  scans_configured (snd (update_target tok c' w)) c tok.
Proof.
  intros Hfb Hd Hs.
  refine (scan_kept (λ w c, detected c = true → scans_configured w c tok)
            (update_target tok) _ _ _ c c' p w Hfb (λ _, Hs) Hd).
  - apply update_writes_own_file.
  - intros c0 p0 w1 w2 Hfb0 Hr HQ Hd0. unfold scans_configured.
    rewrite (scanClient_read c0 p0 w1 w2 Hfb0 Hr). now apply HQ.
  - intros c0 c1 p0 data u w0 Hfb0 Hfb1 Hok Hw Hd0.
    pose proof (update_target_effect tok c1 p0 w0 Hfb1) as Heff.
    destruct (update_target tok c1 w0) as [[u'|e] w1]; [|discriminate].
    destruct Heff as (m & merged & _ & Hm & ->). simpl.
    eapply (scan_of_merged c0 p0 _ _ tok Npx Hfb0 Hd0).
    simpl. rewrite read_written_eq. exact Hm.
Qed.

Lemma remove_establishes c p u (w : World) :
  file_backed c p →
  fst (remove_target c w) = Ok u →
  scans_unconfigured (snd (remove_target c w)) c.
Proof.
  intros Hfb Hok. pose proof (remove_target_effect c p w Hfb) as Heff.
  destruct (remove_target c w) as [[u'|e] w1]; [|discriminate].
  destruct Heff as (data & Hm & ->). simpl.
  eapply (scan_of_removed c p _ _ Hfb).
  simpl. rewrite read_written_eq. exact Hm.
Qed.

Lemma remove_keeps_scan c c' p (w : World) :
  file_backed c p →
  scans_unconfigured w c →
  scans_unconfigured (snd (remove_target c' w)) c.
Proof.
  intros Hfb.
  refine (scan_kept scans_unconfigured remove_target _ _ _ c c' p w Hfb).
  - apply remove_writes_own_file.
  - intros c0 p0 w1 w2 Hfb0 Hr HQ. unfold scans_unconfigured.
    now rewrite (scanClient_read c0 p0 w1 w2 Hfb0 Hr).
  - intros c0 c1 p0 data u w0 Hfb0 Hfb1 Hok Hw.
    pose proof (remove_target_effect c1 p0 w0 Hfb1) as Heff.
    destruct (remove_target c1 w0) as [[u'|e] w1]; [|discriminate].
    destruct Heff as (data' & Hm & ->). simpl.
    eapply (scan_of_removed c0 p0 _ _ Hfb0).
    simpl. rewrite read_written_eq. exact Hm.
Qed.

Lemma lookup_map_client (rs : list ScanResult) i r :
  rs !! i = Some r → map client rs !! i = Some (client r).
Proof.
  revert i. induction rs as [|r0 rs IH]; intros [|i] Hi; try discriminate.
  - now injection Hi as ->.
  - simpl. now apply IH.
Qed.


Lemma lookup_In {A} (xs : list A) i x : xs !! i = Some x → In x xs.
Proof.
  revert i. induction xs as [|x0 xs IH]; intros [|i] Hi; try discriminate.
  - injection Hi as ->. now left.
  - right. eapply IH. exact Hi.
Qed.

Lemma resolved_at (batch : list ScanResult) ids rs i ident r :
  Forall2 (λ ident r, find_by_id batch ident = Some r ∧ id (client r) = ident)
          ids rs →
  ids !! i = Some ident → find_by_id batch ident = Some r →
  rs !! i = Some r.
Proof.
  intros Hrs Hi Hf.
  destruct (Forall2_lookup_l _ _ _ _ _ Hrs Hi) as (r' & Hr' & Hf' & _).
  rewrite Hf in Hf'. now injection Hf' as <-.
Qed.


(** X3. After Add, every file-backed target that reported "configured" is
    found configured by the next scan, with the token that was entered. *)
Theorem add_then_scan (ticked : Choice → bool) tok m
    (results : list ScanResult) (w : World) :
  ∃ w' ls,
    addIntegrations ticked (Ok (tok, m)) results w = (Ok tt, w') ∧
    console w' = console w ++ ls ∧
    ∀ i ident r p,
      checkbox ticked (choices_of (unconfigured_of results)) !! i
        = Some ident →
      find_by_id (unconfigured_of results) ident = Some r →
      file_backed (client r) p →
      ls !! i = Some (Done (name (client r)) "configured") →
      scans_configured w' (client r) tok.
Proof.
  destruct (ticked_resolved ticked (unconfigured_of results))
    as (rs & Hrs & Hin).
  unfold addIntegrations. fold (unconfigured_of results).
  destruct (checkbox ticked (choices_of (unconfigured_of results)))
    as [|i0 ids] eqn:Hids.
  { eexists _, [_]. split; [reflexivity|]. split; [reflexivity|].
    intros i ident r p Hi. now rewrite lookup_nil in Hi. }
  change (∃ w' ls,
    addLoop tok m (unconfigured_of results) (i0 :: ids) w = (Ok tt, w') ∧
    console w' = console w ++ ls ∧
    ∀ i ident r p,
      (i0 :: ids) !! i = Some ident →
      find_by_id (unconfigured_of results) ident = Some r →
      file_backed (client r) p →
      ls !! i = Some (Done (name (client r)) "configured") →
      scans_configured w' (client r) tok).
  rewrite (addLoop_attempts tok m _ _ rs w Hrs).
  eexists _, _. split; [reflexivity|]. split.
  { apply attempts_console. intros c. apply silent_add_target. }
  intros i ident r p Hi Hf Hfb Hl.
  pose proof (resolved_at _ _ _ _ _ _ Hrs Hi Hf) as Hr.
  assert (Hd : detected (client r) = true).
  { pose proof (proj1 (List.Forall_forall _ _) Hin r) as Hb.
    assert (Hmem : In r rs) by (eapply lookup_In; eassumption).
    apply Hb in Hmem. apply filter_In in Hmem as [_ Hmem].
    now apply andb_prop in Hmem as [Hmem _]. }
  refine (attempts_post "configured" (add_target tok m)
            (λ w c, ∀ p, file_backed c p → detected c = true →
                         scans_configured w c tok)
            _ _ _ (map client rs) w i (client r)
            (lookup_map_client rs i r Hr) Hl p Hfb Hd).
  - intros c w0 l HQ. exact HQ.
  - intros c w0 u Hok p0 Hfb0 Hd0. eapply add_establishes; eassumption.
  - intros c c' w0 HQ p0 Hfb0 Hd0.
    eapply add_keeps_scan; [eassumption..|]. now apply (HQ p0).
Qed.

(** X4. After Update, every file-backed, detected target that reported
    "updated" is found configured by the next scan, with the new token. *)
Theorem update_then_scan tok (results : list ScanResult) (w : World) :
  ∃ w' ls,
    updateToken (Ok tok) results w = (Ok tt, w') ∧
    console w' = console w ++ ls ∧
    ∀ i r p,
      configured_of results !! i = Some r →
      file_backed (client r) p → detected (client r) = true →
      ls !! i = Some (Done (name (client r)) "updated") →
      scans_configured w' (client r) tok.
Proof.
  rewrite updateToken_attempts.
  eexists _, _. split; [reflexivity|]. split.
  { apply attempts_console. intros c. apply silent_update_target. }
  intros i r p Hr Hfb Hd Hl.
  refine (attempts_post "updated" (update_target tok)
            (λ w c, ∀ p, file_backed c p → detected c = true →
                         scans_configured w c tok)
            _ _ _ (map client (configured_of results)) w i (client r)
            (lookup_map_client _ i r Hr) Hl p Hfb Hd).
  - intros c w0 l HQ. exact HQ.
  - intros c w0 u Hok p0 Hfb0 Hd0. eapply update_establishes; eassumption.
  - intros c c' w0 HQ p0 Hfb0 Hd0.
    eapply update_keeps_scan; [eassumption..|]. now apply (HQ p0).
Qed.

(** X5. After Remove, every file-backed target that reported "removed" is
    found not configured by the next scan. *)
Theorem remove_then_scan (ticked : Choice → bool)
    (results : list ScanResult) (w : World) :
  ∃ w' ls,
    removeIntegrations ticked results w = (Ok tt, w') ∧
    console w' = console w ++ ls ∧
    ∀ i ident r p,
      checkbox ticked (choices_of (configured_of results)) !! i
        = Some ident →
      find_by_id (configured_of results) ident = Some r →
      file_backed (client r) p →
      ls !! i = Some (Done (name (client r)) "removed") →
      scans_unconfigured w' (client r).
Proof.
  destruct (ticked_resolved ticked (configured_of results))
    as (rs & Hrs & Hin).
  unfold removeIntegrations. fold (configured_of results).
  destruct (checkbox ticked (choices_of (configured_of results)))
    as [|i0 ids] eqn:Hids.
  { eexists _, [_]. split; [reflexivity|]. split; [reflexivity|].
    intros i ident r p Hi. now rewrite lookup_nil in Hi. }
  rewrite (removeLoop_attempts _ _ rs w Hrs).
  eexists _, _. split; [reflexivity|]. split.
  { apply attempts_console. intros c. apply silent_remove_target. }
  intros i ident r p Hi Hf Hfb Hl.
  pose proof (resolved_at _ _ _ _ _ _ Hrs Hi Hf) as Hr.
  refine (attempts_post "removed" remove_target
            (λ w c, ∀ p, file_backed c p → scans_unconfigured w c)
            _ _ _ (map client rs) w i (client r)
            (lookup_map_client rs i r Hr) Hl p Hfb).
  - intros c w0 l HQ. exact HQ.
  - intros c w0 u Hok p0 Hfb0. eapply remove_establishes; eassumption.
  - intros c c' w0 HQ p0 Hfb0.
    eapply remove_keeps_scan; [eassumption|]. now apply (HQ p0).
Qed.

(** *** The files after a batch *)





Lemma file_backed_path (c : Client) p q :
  file_backed c p → file_backed c q → p = q.
Proof. intros [_ Hp] [_ Hq]. rewrite Hp in Hq. now injection Hq. Qed.

Lemma update_writes_npx tok c p u (w : World) :
  file_backed c p →
  fst (update_target tok c w) = Ok u →
  detectInstallMethodFromConfig (fs (snd (update_target tok c w))) p = Ok Npx.
Proof.
  intros Hfb Hok. pose proof (update_target_effect tok c p w Hfb) as Heff.
  destruct (update_target tok c w) as [[u'|e] w1]; [|discriminate].
  destruct Heff as (m & merged & _ & Hm & ->). simpl.
  destruct (merge_shape _ _ _ _ Hm) as (o & ms & -> & _ & _).
  eapply detect_of_merged.
  - apply read_written_eq.
  - rewrite obj_get_set_eq. simpl. now rewrite obj_set_set.
  - exact I.
Qed.

Lemma update_keeps_npx tok c c' p (w : World) :
  file_backed c p →
  detectInstallMethodFromConfig (fs w) p = Ok Npx →
  detectInstallMethodFromConfig (fs (snd (update_target tok c' w))) p = Ok Npx.
Proof.
  intros Hfb Hd.
  destruct (update_writes_own_file tok c' w)
    as [Heq | (p' & data & u & Hfb' & Hok & Hw)].
  - now rewrite Heq.
  - destruct (String.eqb_spec p' p) as [-> | Hne].
    + eapply update_writes_npx; eassumption.
    + rewrite <- Hd. apply detect_ext. rewrite Hw. now apply read_written_ne.
Qed.

(** X9. Update Token resets the install method: after the batch, the file of
    every file-backed target that reported "updated" holds the on-demand
    entry, so [detectInstallMethodFromConfig] gives the on-demand method for
    it, whatever it gave before. *)
Theorem update_resets_install_method tok (results : list ScanResult)
    (w : World) :
  ∃ w' ls,
    updateToken (Ok tok) results w = (Ok tt, w') ∧
    console w' = console w ++ ls ∧
    ∀ i r p,
      configured_of results !! i = Some r →
      file_backed (client r) p →
      ls !! i = Some (Done (name (client r)) "updated") →
      detectInstallMethodFromConfig (fs w') p = Ok Npx.
Proof.
  rewrite updateToken_attempts.
  eexists _, _. split; [reflexivity|]. split.
  { apply attempts_console. intros c. apply silent_update_target. }
  intros i r p Hr Hfb Hl.
  refine (attempts_post "updated" (update_target tok)
            (λ w c, ∀ p, file_backed c p →
                         detectInstallMethodFromConfig (fs w) p = Ok Npx)
            _ _ _ (map client (configured_of results)) w i (client r)
            (lookup_map_client _ i r Hr) Hl p Hfb).
  - intros c w0 l HQ. exact HQ.
  - intros c w0 u Hok p0 Hfb0. eapply update_writes_npx; eassumption.
  - intros c c' w0 HQ p0 Hfb0.
    eapply update_keeps_npx; [eassumption|]. now apply HQ.
Qed.

End WithCli.

(** The theorems above at the three clients of [fresh_world], of which
    Cursor's config file cannot be written. *)




Lemma add_then_scan_witness :
  scans_configured (H := Examples.no_claude)
    (snd (addIntegrations (H := Examples.no_claude) (λ _, true)
            (Ok ("figd_1", Npx)) (Examples.three_results false)
            Examples.fresh_world))
    (MoreExamples.desktop_client false) "figd_1".
Proof.
  destruct (@add_then_scan Examples.no_claude (λ _, true) "figd_1" Npx
              (Examples.three_results false) Examples.fresh_world)
    as (w' & ls & Hrun & Hc & Hscan).
  assert (Hw : w' = snd (addIntegrations (H := Examples.no_claude) (λ _, true)
                           (Ok ("figd_1", Npx)) (Examples.three_results false)
                           Examples.fresh_world)) by now rewrite Hrun.
  rewrite <- Hw.
  apply (Hscan 0%nat "claude-desktop"
           (Examples.result_at "Claude Desktop" "claude-desktop"
              Examples.desktop_path false) Examples.desktop_path).
  - reflexivity.
  - reflexivity.
  - split; reflexivity.
  - change (ls !! 0%nat) with ((console Examples.fresh_world ++ ls) !! 0%nat).
    rewrite <- Hc, Hw. vm_compute. reflexivity.
Defined.

Lemma update_then_scan_witness :
  scans_configured (H := Examples.no_claude)
    (snd (updateToken (H := Examples.no_claude) (Ok "figd_2")
            (Examples.three_results true) Examples.fresh_world))
    (MoreExamples.desktop_client true) "figd_2".
Proof.
  destruct (@update_then_scan Examples.no_claude "figd_2"
              (Examples.three_results true) Examples.fresh_world)
    as (w' & ls & Hrun & Hc & Hscan).
  assert (Hw : w' = snd (updateToken (H := Examples.no_claude) (Ok "figd_2")
                           (Examples.three_results true)
                           Examples.fresh_world)) by now rewrite Hrun.
  rewrite <- Hw.
  apply (Hscan 0%nat
           (Examples.result_at "Claude Desktop" "claude-desktop"
              Examples.desktop_path true) Examples.desktop_path).
  - reflexivity.
  - split; reflexivity.
  - reflexivity.
  - change (ls !! 0%nat) with ((console Examples.fresh_world ++ ls) !! 0%nat).
    rewrite <- Hc, Hw. vm_compute. reflexivity.
Defined.

Lemma remove_then_scan_witness :
  scans_unconfigured (H := Examples.no_claude)
    (snd (removeIntegrations (H := Examples.no_claude) (λ _, true)
            (Examples.three_results true) Examples.fresh_world))
    (MoreExamples.desktop_client true).
Proof.
  destruct (@remove_then_scan Examples.no_claude (λ _, true)
              (Examples.three_results true) Examples.fresh_world)
    as (w' & ls & Hrun & Hc & Hscan).
  assert (Hw : w' = snd (removeIntegrations (H := Examples.no_claude)
                           (λ _, true) (Examples.three_results true)
                           Examples.fresh_world)) by now rewrite Hrun.
  rewrite <- Hw.
  apply (Hscan 0%nat "claude-desktop"
           (Examples.result_at "Claude Desktop" "claude-desktop"
              Examples.desktop_path true) Examples.desktop_path).
  - reflexivity.
  - reflexivity.
  - split; reflexivity.
  - change (ls !! 0%nat) with ((console Examples.fresh_world ++ ls) !! 0%nat).
    rewrite <- Hc, Hw. vm_compute. reflexivity.
Defined.




(** In [local_world] the file of Claude Desktop records a local build; after
    Update Token it records the on-demand method. *)
Lemma update_resets_install_method_witness :
  detectInstallMethodFromConfig (fs MoreExamples.local_world)
    Examples.desktop_path = Ok Examples.local_method ∧
  detectInstallMethodFromConfig
    (fs (snd (updateToken (H := Examples.no_claude) (Ok "figd_2")
                [Examples.result_at "Claude Desktop" "claude-desktop"
                   Examples.desktop_path true]
                MoreExamples.local_world)))
    Examples.desktop_path = Ok Npx.
Proof.
  split; [vm_compute; reflexivity|].
  destruct (@update_resets_install_method Examples.no_claude "figd_2"
              [Examples.result_at "Claude Desktop" "claude-desktop"
                 Examples.desktop_path true]
              MoreExamples.local_world)
    as (w' & ls & Hrun & Hc & Hnpx).
  assert (Hw : w' = snd (updateToken (H := Examples.no_claude) (Ok "figd_2")
                           [Examples.result_at "Claude Desktop"
                              "claude-desktop" Examples.desktop_path true]
                           MoreExamples.local_world)) by now rewrite Hrun.
  rewrite <- Hw.
  apply (Hnpx 0%nat
           (Examples.result_at "Claude Desktop" "claude-desktop"
              Examples.desktop_path true) Examples.desktop_path).
  - reflexivity.
  - split; reflexivity.
  - change (ls !! 0%nat)
      with ((console MoreExamples.local_world ++ ls) !! 0%nat).
    rewrite <- Hc, Hw. vm_compute. reflexivity.
Defined.

End DoctorLaws.

(** ** The scan and the client list *)

Module ScanLaws.

Import ObjectFacts ConfigSpec DoctorSpec.


Lemma find_by_id_unique (rs : list ScanResult) (r : ScanResult) :
  List.NoDup (ids_of rs) → In r rs → find_by_id rs (id (client r)) = Some r.
Proof.
  unfold find_by_id. induction rs as [|r0 rs IH]; intros Hnd Hin; [easy|].
  simpl in *. apply List.NoDup_cons_iff in Hnd as [Hnotin Hnd].
  destruct Hin as [-> | Hin].
  - now rewrite String.eqb_refl.
  - destruct (String.eqb_spec (id (client r0)) (id (client r))) as [Heq|Hne].
    + exfalso. apply Hnotin. rewrite Heq. unfold ids_of.
      apply in_map_iff. now exists r.
    + now apply IH.
Qed.

Lemma ids_of_filter_NoDup (f : ScanResult → bool) (rs : list ScanResult) :
  List.NoDup (ids_of rs) → List.NoDup (ids_of (List.filter f rs)).
Proof.
  induction rs as [|r rs IH]; intros Hnd; [constructor|].
  simpl in *. apply List.NoDup_cons_iff in Hnd as [Hnotin Hnd].
  destruct (f r); [|now apply IH].
  simpl. apply List.NoDup_cons_iff. split; [|now apply IH].
  intros Hin. apply Hnotin. unfold ids_of in *.
  apply in_map_iff in Hin as (r' & Hid & Hr').
  apply filter_In in Hr' as [Hr' _]. apply in_map_iff. now exists r'.
Qed.

Section WithCli.
Context `{CliManagedTarget}.

Lemma jsonClient_configured (w : World) nm ident p c :
  jsonClient w nm ident p = Ok c →
  name c = nm ∧ id c = ident ∧ configPath c = Some p ∧
  (detected c = true → isJsonClientConfigured w p = Ok (configured c)).
Proof.
  unfold jsonClient. destruct (existsSync (fs w) p).
  - destruct (isJsonClientConfigured w p) as [b|e]; [|discriminate].
    intros [= <-]. simpl. auto.
  - intros [= <-]. simpl. repeat split. discriminate.
Qed.

(** The four clients of [getClients]. *)
Lemma getClients_shape (w : World) cs :
  getClients w = Ok cs →
  ∃ code desktop cursor windsurf,
    cs = [code; desktop; cursor; windsurf] ∧
    (id code = "claude-code" ∧
     configured code = detected code && isFigmaConsoleConfigured w) ∧
    (∃ p, jsonClient w "Claude Desktop" "claude-desktop" p = Ok desktop) ∧
    (∃ p, jsonClient w "Cursor" "cursor" p = Ok cursor) ∧
    (∃ p, jsonClient w "Windsurf" "windsurf" p = Ok windsurf).
Proof.
  unfold getClients.
  destruct (jsonClient w "Claude Desktop" _ _) as [desktop|] eqn:Hd;
    [|discriminate].
  destruct (jsonClient w "Cursor" _ _) as [cursor|] eqn:Hc; [|discriminate].
  destruct (jsonClient w "Windsurf" _ _) as [windsurf|] eqn:Hw;
    [|discriminate].
  intros [= <-]. eexists _, desktop, cursor, windsurf.
  split; [reflexivity|]. split; [split; reflexivity|].
  split; [eexists; exact Hd|]. split; eexists; [exact Hc | exact Hw].
Qed.

Lemma scanClient_client (w : World) c r : scanClient w c = Ok r → client r = c.
Proof.
  unfold scanClient. destruct (String.eqb _ _); [now intros [= <-]|].
  destruct (if detected c then truthy_path c else None) as [p|];
    [|now intros [= <-]].
  destruct (member _ _) as [v|]; [|discriminate].
  destruct (negb _); [now intros [= <-]|].
  destruct (member_of _ _); [|discriminate]. now intros [= <-].
Qed.

(** What the scan calls configured, [getClients] calls configured. *)
Lemma scan_json_configured (w : World) nm ident p c r :
  jsonClient w nm ident p = Ok c → ident ≠ "claude-code" →
  scanClient w c = Ok r → is_configured r = true → configured c = true.
Proof.
  intros Hj Hne Hs Hr.
  destruct (jsonClient_configured w nm ident p c Hj) as (_ & Hid & Hp & Hc).
  unfold scanClient in Hs. rewrite Hid in Hs.
  destruct (String.eqb_spec ident "claude-code") as [|_]; [contradiction|].
  unfold truthy_path in Hs. rewrite Hp in Hs.
  destruct (detected c) eqn:Hd; [|injection Hs as <-; discriminate].
  specialize (Hc eq_refl). unfold isJsonClientConfigured in Hc.
  destruct (String.eqb p ""); [injection Hs as <-; discriminate|].
  destruct (member (readJsonConfig (fs w) p) SERVERS_KEY) as [v|];
    [|discriminate].
  injection Hc as <-.
  destruct (opt_member v RESERVED_KEY) as [entry|].
  - apply bool_decide_eq_true. eauto.
  - simpl in Hs. injection Hs as <-. discriminate.
Qed.

Lemma scanClients_each (w : World) rs :
  scanClients w = Ok rs →
  ∃ cs, getClients w = Ok cs ∧ Forall2 (λ c r, scanClient w c = Ok r) cs rs.
Proof.
  unfold scanClients. destruct (getClients w) as [cs|]; [|discriminate].
  intros Hm. exists cs. split; [reflexivity|]. now apply map_outcome_each.
Qed.

Lemma scanClients_four (w : World) rs :
  scanClients w = Ok rs →
  ∃ cs code desktop cursor windsurf r1 r2 r3 r4,
    getClients w = Ok cs ∧
    cs = [code; desktop; cursor; windsurf] ∧ rs = [r1; r2; r3; r4] ∧
    scanClient w code = Ok r1 ∧ scanClient w desktop = Ok r2 ∧
    scanClient w cursor = Ok r3 ∧ scanClient w windsurf = Ok r4.
Proof.
  intros Hs. destruct (scanClients_each w rs Hs) as (cs & Hg & Hall).
  destruct (getClients_shape w cs Hg)
    as (code & desktop & cursor & windsurf & -> & _).
  inversion Hall as [|? r1 ? l1 H1 Hall1]; subst.
  inversion Hall1 as [|? r2 ? l2 H2 Hall2]; subst.
  inversion Hall2 as [|? r3 ? l3 H3 Hall3]; subst.
  inversion Hall3 as [|? r4 ? l4 H4 Hall4]; subst.
  inversion Hall4; subst.
  eexists _, _, _, _, _, _, _, _, _. repeat split; eauto.
Qed.

(** X10. Whatever the scan of Doctor reports as configured, the client list
    of [getClients] has as configured too. *)
Theorem scan_configured_is_listed (w : World) (rs : list ScanResult) :
  scanClients w = Ok rs →
  Forall (λ r, is_configured r = true → configured (client r) = true) rs.
Proof.
  intros Hs.
  destruct (scanClients_four w rs Hs)
    as (cs & code & desktop & cursor & windsurf & r1 & r2 & r3 & r4 &
        Hg & -> & -> & H1 & H2 & H3 & H4).
  destruct (getClients_shape w _ Hg)
    as (c0 & d0 & u0 & w0 & [= <- <- <- <-] & (Hid & Hcc) &
        (pd & Hd) & (pc & Hc) & (pw & Hw)).
  repeat constructor.
  - rewrite (scanClient_client w code r1 H1).
    unfold scanClient in H1. rewrite Hid in H1. simpl in H1.
    injection H1 as <-. simpl. now rewrite Hcc.
  - rewrite (scanClient_client w desktop r2 H2).
    now apply (scan_json_configured w _ _ pd desktop r2 Hd).
  - rewrite (scanClient_client w cursor r3 H3).
    now apply (scan_json_configured w _ _ pc cursor r3 Hc).
  - rewrite (scanClient_client w windsurf r4 H4).
    now apply (scan_json_configured w _ _ pw windsurf r4 Hw).
Qed.

Lemma scanClients_ids (w : World) rs :
  scanClients w = Ok rs → ids_of rs = CLIENT_IDS.
Proof.
  intros Hs.
  destruct (scanClients_four w rs Hs)
    as (cs & code & desktop & cursor & windsurf & r1 & r2 & r3 & r4 &
        Hg & -> & -> & H1 & H2 & H3 & H4).
  destruct (getClients_shape w _ Hg)
    as (c0 & d0 & u0 & w0 & [= <- <- <- <-] & (Hid & Hcc) &
        (pd & Hd) & (pc & Hc) & (pw & Hw)).
  unfold ids_of. simpl.
  rewrite (scanClient_client w code r1 H1), (scanClient_client w desktop r2 H2),
    (scanClient_client w cursor r3 H3), (scanClient_client w windsurf r4 H4).
  rewrite Hid.
  destruct (jsonClient_configured w _ _ _ _ Hd) as (_ & -> & _).
  destruct (jsonClient_configured w _ _ _ _ Hc) as (_ & -> & _).
  destruct (jsonClient_configured w _ _ _ _ Hw) as (_ & -> & _).
  reflexivity.
Qed.

Lemma CLIENT_IDS_NoDup : List.NoDup CLIENT_IDS.
Proof.
  unfold CLIENT_IDS.
  repeat (apply List.NoDup_cons_iff; split;
          [simpl; intros Hin; repeat destruct Hin as [Hin|Hin]; discriminate || exact Hin|]).
  constructor.
Qed.

(** X11. The scan lists the four clients under distinct ids, in a fixed
    order; so in the batches of Update, Remove and Add an id finds the very
    result it was taken from. *)
Theorem scan_results_resolve (w : World) (rs : list ScanResult) :
  scanClients w = Ok rs →
  ids_of rs = CLIENT_IDS ∧
  (∀ r, In r (configured_of rs) →
        find_by_id (configured_of rs) (id (client r)) = Some r) ∧
  (∀ r, In r (unconfigured_of rs) →
        find_by_id (unconfigured_of rs) (id (client r)) = Some r).
Proof.
  intros Hs. pose proof (scanClients_ids w rs Hs) as Hids.
  assert (Hnd : List.NoDup (ids_of rs)) by (rewrite Hids; apply CLIENT_IDS_NoDup).
  split; [exact Hids|].
  split; intros r Hin; apply find_by_id_unique; try exact Hin;
    now apply ids_of_filter_NoDup.
Qed.


End WithCli.

Lemma scan_configured_is_listed_witness :
  Forall (λ r, is_configured r = true → configured (client r) = true)
         MoreExamples.desktop_scan.
Proof.
  apply (@scan_configured_is_listed Examples.no_claude
           MoreExamples.desktop_world).
  vm_compute. reflexivity.
Defined.

Lemma scan_results_resolve_witness :
  ids_of MoreExamples.desktop_scan = CLIENT_IDS ∧
  (∀ r, In r (configured_of MoreExamples.desktop_scan) →
        find_by_id (configured_of MoreExamples.desktop_scan) (id (client r))
        = Some r) ∧
  (∀ r, In r (unconfigured_of MoreExamples.desktop_scan) →
        find_by_id (unconfigured_of MoreExamples.desktop_scan) (id (client r))
        = Some r).
Proof.
  apply (@scan_results_resolve Examples.no_claude MoreExamples.desktop_world).
  vm_compute. reflexivity.
Defined.


End ScanLaws.

(** ** [configureClients] of the wizard *)

Module ConfigureLaws.

Import ObjectFacts ConfigSpec DoctorSpec DoctorLaws Configure.

Section WithCli.
Context `{CliManagedTarget}.

(** The wizard's attempt on a client leaves the world that Add's attempt with
    the on-demand method leaves. *)
Lemma configureClient_world c tok (w : World) :
  snd (configureClient c tok w) = snd (add_target tok Npx c w).
Proof.
  unfold configureClient, add_target, try_catch, bind, on_cli, ret.
  destruct (String.eqb (id c) "claude-code").
  - destruct (configureClaudeCode tok Npx (cli w)) as [[[|]|e] c1];
      reflexivity.
  - destruct (truthy_path c) as [p|]; [|reflexivity].
    now destruct (configureJsonClient c tok w) as [[u|e] w1].
Qed.

Lemma configureClient_result c tok (w : World) :
  ∃ kept l,
    fst (configureClient c tok w) = Ok (kept, l) ∧
    ((kept = Some c ∧ l = Configured (name c) ∧
      ∃ u, fst (add_target tok Npx c w) = Ok u) ∨
     (kept = None ∧ l = Skipped (name c) ∧ id c = "claude-code") ∨
     (kept = None ∧ ∃ message, l = NotConfigured (name c) message)).
Proof.
  unfold configureClient, add_target, try_catch, bind, on_cli, ret.
  destruct (String.eqb_spec (id c) "claude-code") as [Hid|Hid].
  - destruct (configureClaudeCode tok Npx (cli w)) as [[[|]|e] c1];
      eexists _, _; (split; [reflexivity|]); eauto 10.
  - destruct (truthy_path c) as [p|].
    + destruct (configureJsonClient c tok w) as [[u|e] w1];
        eexists _, _; (split; [reflexivity|]); eauto 10.
    + eexists _, _. split; [reflexivity|]. eauto 10.
Qed.

Lemma configureClients_cons c cs tok (w : World) kept l first others w1 w2 :
  configureClient c tok w = (Ok (kept, l), w1) →
  configureClients cs tok w1 = (Ok (first, others), w2) →
  configureClients (c :: cs) tok w
  = (Ok (match kept with Some k => k :: first | None => first end,
         l :: others), w2).
Proof.
  intros H1 H2. cbn [configureClients]. unfold bind at 1. rewrite H1.
  unfold bind at 1. rewrite H2. reflexivity.
Qed.

Lemma configureClients_spec clients tok :
  ∀ w : World, ∃ kept lines w',
    configureClients clients tok w = (Ok (kept, lines), w') ∧
    Forall2 (λ c l, l = Configured (name c) ∨
                    (l = Skipped (name c) ∧ id c = "claude-code") ∨
                    ∃ message, l = NotConfigured (name c) message)
            clients lines ∧
    kept = reported_configured clients lines ∧
    (∀ c p, file_backed c p → detected c = true →
            scans_configured w c tok → scans_configured w' c tok) ∧
    (∀ c p, In c kept → file_backed c p → detected c = true →
            scans_configured w' c tok).
Proof.
  induction clients as [|c cs IH]; intros w.
  - exists [], [], w. split; [reflexivity|]. split; [constructor|].
    split; [reflexivity|]. split; [auto|]. intros c p [].
  - destruct (configureClient_result c tok w) as (kept & l & Hfst & Hcase).
    pose proof (configureClient_world c tok w) as Hsnd.
    destruct (configureClient c tok w) as [r w1] eqn:Hrun.
    cbn [fst snd] in *. subst r w1.
    destruct (IH (snd (add_target tok Npx c w)))
      as (first & others & w2 & Hrest & Hlines & Hkept & Hkeep & Hscan).
    rewrite (configureClients_cons c cs tok w kept l first others _ w2
               Hrun Hrest).
    eexists _, _, _. split; [reflexivity|].
    assert (Hstep : ∀ c0 p, file_backed c0 p → detected c0 = true →
              scans_configured w c0 tok → scans_configured w2 c0 tok).
    { intros c0 p Hfb Hd Hs. apply (Hkeep c0 p Hfb Hd).
      now apply (add_keeps_scan tok Npx c0 c p w). }
    destruct Hcase as [(-> & -> & u & Hok) |
                       [(-> & -> & Hid) | (-> & message & ->)]].
    + split; [constructor; auto|]. split.
      { unfold reported_configured. simpl. now rewrite Hkept. }
      split; [exact Hstep|].
      intros c0 p [<- | Hin] Hfb Hd.
      * apply (Hkeep c p Hfb Hd). eapply add_establishes; eassumption.
      * now apply (Hscan c0 p).
    + split; [constructor; auto|]. split; [exact Hkept|].
      split; [exact Hstep | exact Hscan].
    + split; [constructor; eauto|]. split; [exact Hkept|].
      split; [exact Hstep | exact Hscan].
Qed.


(** X14. Every file-backed, detected client that [configureClients] returns
    is found configured by a scan of the world it leaves, with the token that
    was given. *)
Theorem wizard_then_scan clients tok (w : World) :
  ∃ kept lines w',
    configureClients clients tok w = (Ok (kept, lines), w') ∧
    ∀ c p, In c kept → file_backed c p → detected c = true →
           scans_configured w' c tok.
Proof.
  destruct (configureClients_spec clients tok w)
    as (kept & lines & w' & Hrun & _ & _ & _ & Hscan).
  eauto 10.
Qed.

End WithCli.

Lemma wizard_then_scan_witness :
  scans_configured (H := Examples.no_claude)
    (snd (configureClients (H := Examples.no_claude)
            [MoreExamples.desktop_client false;
             Examples.client_at "Cursor" "cursor" Examples.cursor_path false]
            "figd_1" Examples.fresh_world))
    (MoreExamples.desktop_client false) "figd_1".
Proof.
  destruct (@wizard_then_scan Examples.no_claude
              [MoreExamples.desktop_client false;
               Examples.client_at "Cursor" "cursor" Examples.cursor_path false]
              "figd_1" Examples.fresh_world)
    as (kept & lines & w' & Hrun & Hscan).
  rewrite Hrun. cbn [snd].
  apply (Hscan (MoreExamples.desktop_client false) Examples.desktop_path).
  - assert (Hk : Ok (kept, lines)
                 = fst (configureClients (H := Examples.no_claude)
                          [MoreExamples.desktop_client false;
                           Examples.client_at "Cursor" "cursor"
                             Examples.cursor_path false]
                          "figd_1" Examples.fresh_world))
      by now rewrite Hrun.
    vm_compute in Hk. injection Hk as -> _. now left.
  - split; reflexivity.
  - reflexivity.
Defined.

End ConfigureLaws.

(** ** The wizard: selecting the clients and configuring them *)

Module WizardLaws.

Import DoctorSpec DoctorLaws ScanLaws ConfigureLaws ClientSelect Configure.

Lemma same_id_same_client (cs : list Client) (c c' : Client) :
  List.NoDup (map id cs) → In c cs → In c' cs → id c = id c' → c = c'.
Proof.
  induction cs as [|c0 cs IH]; intros Hnd Hc Hc' Hid; [destruct Hc|].
  simpl in Hnd. apply List.NoDup_cons_iff in Hnd as [Hnotin Hnd].
  destruct Hc as [-> | Hc], Hc' as [-> | Hc']; auto.
  - exfalso. apply Hnotin. rewrite Hid. now apply in_map.
  - exfalso. apply Hnotin. rewrite <- Hid. now apply in_map.
Qed.

Lemma checkbox_ids (ticked : Choice → bool) (cs : list Client) :
  checkbox ticked (map choice_for cs)
  = map id (List.filter (λ c, ticked (choice_for c)) cs).
Proof.
  unfold checkbox. induction cs as [|c cs IH]; [reflexivity|].
  simpl. destruct (ticked (choice_for c)); simpl; now rewrite IH.
Qed.

(** With distinct ids, looking the ticked ids up again gives the ticked
    clients. *)
Lemma selected_are_ticked (ticked : Choice → bool) (cs : list Client) :
  List.NoDup (map id cs) →
  List.filter (λ c, existsb (String.eqb (id c))
                      (checkbox ticked (map choice_for cs))) cs
  = List.filter (λ c, ticked (choice_for c)) cs.
Proof.
  intros Hnd. apply filter_ext_in. intros c Hc. rewrite checkbox_ids.
  destruct (ticked (choice_for c)) eqn:Ht.
  - apply existsb_exists. exists (id c). split; [|apply String.eqb_refl].
    apply in_map. apply filter_In. now split.
  - apply not_true_is_false. intros Hex.
    apply existsb_exists in Hex as (ident & Hin & Heq).
    apply String.eqb_eq in Heq. subst ident.
    apply in_map_iff in Hin as (c' & Hid & Hc').
    apply filter_In in Hc' as [Hc' Ht'].
    rewrite (same_id_same_client cs c c' Hnd Hc Hc' (eq_sym Hid)) in Ht.
    congruence.
Qed.

Lemma filter_filter {A} (f g : A → bool) (xs : list A) :
  List.filter g (List.filter f xs) = List.filter (λ x, f x && g x) xs.
Proof.
  induction xs as [|x xs IH]; [reflexivity|]. simpl.
  destruct (f x); simpl; [destruct (g x)|]; now rewrite IH.
Qed.

Lemma filter_NoDup_ids (f : Client → bool) (cs : list Client) :
  List.NoDup (map id cs) → List.NoDup (map id (List.filter f cs)).
Proof.
  induction cs as [|c cs IH]; intros Hnd; [constructor|].
  simpl in *. apply List.NoDup_cons_iff in Hnd as [Hnotin Hnd].
  destruct (f c); [|now apply IH].
  simpl. apply List.NoDup_cons_iff. split; [|now apply IH].
  intros Hin. apply Hnotin.
  apply in_map_iff in Hin as (c' & Hid & Hc').
  apply filter_In in Hc' as [Hc' _]. apply in_map_iff. now exists c'.
Qed.

Section WithCli.
Context `{CliManagedTarget}.

Lemma getClients_ids (w : World) cs :
  getClients w = Ok cs → map id cs = CLIENT_IDS.
Proof.
  intros Hg.
  destruct (getClients_shape w cs Hg)
    as (code & desktop & cursor & windsurf & -> & (Hid & _) &
        (pd & Hd) & (pc & Hc) & (pw & Hw)).
  simpl. rewrite Hid.
  destruct (jsonClient_configured w _ _ _ _ Hd) as (_ & -> & _).
  destruct (jsonClient_configured w _ _ _ _ Hc) as (_ & -> & _).
  destruct (jsonClient_configured w _ _ _ _ Hw) as (_ & -> & _).
  reflexivity.
Qed.

Lemma detectAndSelectClients_selected ticked (w : World) chosen printed :
  detectAndSelectClients (Ok ticked) w = Ok (chosen, printed) →
  ∃ clients,
    getClients w = Ok clients ∧
    chosen = List.filter (λ c, detected c && ticked (choice_for c)) clients.
Proof.
  unfold detectAndSelectClients.
  destruct (getClients w) as [clients|e] eqn:Hg; [|discriminate].
  intros Hrun. exists clients. split; [reflexivity|].
  assert (Hnd : List.NoDup (map id (List.filter detected clients))).
  { apply filter_NoDup_ids. rewrite (getClients_ids w clients Hg).
    apply CLIENT_IDS_NoDup. }
  rewrite <- filter_filter.
  destruct (List.filter detected clients) as [|c0 found] eqn:Hf.
  - now injection Hrun as <- _.
  - injection Hrun as <- _.
    exact (selected_are_ticked ticked (c0 :: found) Hnd).
Qed.

(** X15. [detectAndSelectClients] returns exactly the clients that were
    detected and ticked, in the order of the client list. *)
Theorem selection_is_detected_and_ticked ticked (w : World) chosen printed :
  detectAndSelectClients (Ok ticked) w = Ok (chosen, printed) →
  ∃ clients,
    getClients w = Ok clients ∧
    chosen = List.filter (λ c, detected c && ticked (choice_for c)) clients ∧
    Forall (λ c, detected c = true) chosen.
Proof.
  intros Hrun.
  destruct (detectAndSelectClients_selected ticked w chosen printed Hrun)
    as (clients & Hg & ->).
  exists clients. split; [exact Hg|]. split; [reflexivity|].
  apply List.Forall_forall. intros c Hc.
  apply filter_In in Hc as [_ Hc]. now apply andb_prop in Hc as [Hc _].
Qed.

(** X16. In the wizard, every client with a config file that
    [configureClients] returns for the selection of
    [detectAndSelectClients] is found configured by a scan afterwards, with
    the token that was entered. *)
Theorem wizard_configures_the_selection ticked tok (w : World) chosen printed :
  detectAndSelectClients (Ok ticked) w = Ok (chosen, printed) →
  ∃ kept lines w',
    configureClients chosen tok w = (Ok (kept, lines), w') ∧
    kept = reported_configured chosen lines ∧
    ∀ c p, In c kept → file_backed c p → scans_configured w' c tok.
Proof.
  intros Hrun.
  destruct (detectAndSelectClients_selected ticked w chosen printed Hrun)
    as (clients & Hg & ->).
  destruct (configureClients_spec
              (List.filter (λ c, detected c && ticked (choice_for c)) clients)
              tok w)
    as (kept & lines & w' & Hconf & Hlines & Hkept & _ & Hscan).
  exists kept, lines, w'. split; [exact Hconf|]. split; [exact Hkept|].
  intros c p Hin Hfb. apply (Hscan c p Hin Hfb).
  assert (Hsub : ∀ cs ls c0,
            In c0 (reported_configured cs ls) → In c0 cs).
  { unfold reported_configured. intros cs ls c0 Hc0.
    apply in_map_iff in Hc0 as ([c1 l1] & <- & Hc1).
    apply filter_In in Hc1 as [Hc1 _]. simpl.
    eapply in_combine_l. exact Hc1. }
  rewrite Hkept in Hin. apply Hsub in Hin.
  apply filter_In in Hin as [_ Hin]. now apply andb_prop in Hin as [Hin _].
Qed.

End WithCli.

Lemma selection_is_detected_and_ticked_witness :
  ∃ clients,
    getClients (H := Examples.no_claude) Examples.fresh_world = Ok clients ∧
    fst MoreExamples.fresh_selection
    = List.filter (λ c, detected c && true) clients ∧
    Forall (λ c, detected c = true) (fst MoreExamples.fresh_selection).
Proof.
  apply (@selection_is_detected_and_ticked Examples.no_claude (λ _, true)
           Examples.fresh_world (fst MoreExamples.fresh_selection)
           (snd MoreExamples.fresh_selection)).
  vm_compute. reflexivity.
Defined.

Lemma wizard_configures_the_selection_witness :
  ∃ kept lines w',
    configureClients (H := Examples.no_claude)
      (fst MoreExamples.fresh_selection) "figd_1" Examples.fresh_world
    = (Ok (kept, lines), w') ∧
    kept = reported_configured (fst MoreExamples.fresh_selection) lines ∧
    ∀ c p, In c kept → file_backed c p →
           scans_configured (H := Examples.no_claude) w' c "figd_1".
Proof.
  apply (@wizard_configures_the_selection Examples.no_claude (λ _, true)
           "figd_1" Examples.fresh_world (fst MoreExamples.fresh_selection)
           (snd MoreExamples.fresh_selection)).
  vm_compute. reflexivity.
Defined.

End WizardLaws.

(** ** The wait for the plugin and the health check *)

Module HealthLaws.

Import HealthCheck HealthLoop HealthCheckSpec.

#[local] Arguments upgrade_response : simpl never.
#[local] Arguments accept_token : simpl never.

Lemma step_sent (s : Wait) (e : event) :
  sent (step s e) = sent s ++ responses [e].
Proof.
  destruct s as [res pr sp fr tm li cc cp tty raw fl od eh sn].
  destruct e as [| | data | [key|] |]; cbn [step responses flat_map];
    try generalize (upgrade_response (accept_token key)); try intros text;
    unfold resolve, cleanup, restoreStdin, removeDataListener, socket_write;
    simpl;
    repeat match goal with
           | |- context [if ?b then _ else _] => destruct b; simpl
           | |- context [match ?x with Some _ => _ | None => _ end] =>
               destruct x; simpl
           end; rewrite ?app_nil_r; reflexivity.
Qed.

Lemma run_sent (events : list event) (s : Wait) :
  sent (run s events) = sent s ++ responses events.
Proof.
  revert s. induction events as [|e events IH]; intros s; simpl.
  - now rewrite app_nil_r.
  - change (run s (e :: events)) with (run (step s e) events).
    rewrite IH, step_sent, <- app_assoc. f_equal.
    unfold responses. simpl. now rewrite app_nil_r.
Qed.

Lemma winner_without_terminal (events : list event) (s : Wait) :
  waiting s → isTTY s = false → winner s events ≠ Some cancelled.
Proof.
  revert s. induction events as [|e events IH]; intros s Hs Htty;
    [discriminate|].
  simpl. pose proof (step_waiting s e Hs) as Hstep.
  destruct (fires s e) eqn:Hf.
  - destruct e as [| | data | key |]; simpl in *; try discriminate.
    destruct Hs as (_ & _ & _ & _ & _ & _ & _ & _ & _ & Hod & _).
    rewrite Hod, Htty in Hf. discriminate.
  - apply IH; [exact Hstep|]. now rewrite step_isTTY.
Qed.

Lemma tryPorts_none (free : Z → bool) (ports : list Z) :
  (∀ p, In p ports → free p = false) → tryPorts free ports = (ports, None).
Proof.
  induction ports as [|q qs IH]; intros Hall; [reflexivity|].
  simpl. unfold tryListen. rewrite (Hall q (or_introl eq_refl)).
  rewrite IH; [reflexivity|]. intros p Hp. apply Hall. now right.
Qed.

(** X17. Without a terminal on stdin the wait cannot be cancelled: whatever
    the event loop delivers, it ends connected or timed out, or goes on. *)
Theorem no_cancel_without_terminal (free : Z → bool) (events : list event) :
  returned (waitForBridgeWithCancel free false events) ≠ Some cancelled.
Proof.
  unfold waitForBridgeWithCancel.
  destruct (tryPorts free BRIDGE_PORTS) as [ports [port|]]; simpl;
    [|discriminate].
  rewrite (promise_of_waiting events _ (start_waiting port false)).
  apply winner_without_terminal; [apply start_waiting | reflexivity].
Qed.

(** X18. What the wait writes to sockets is exactly one handshake response
    for every upgrade request that carries a key, in the order of the
    requests, also for those that arrive after the result is settled; a
    request without a key gets nothing. *)
Theorem sockets_get_the_responses (free : Z → bool) (tty : bool)
    (events : list event) :
  match wait (waitForBridgeWithCancel free tty events) with
  | Some s => sent s = responses events
  | None => bound (waitForBridgeWithCancel free tty events) = None
  end.
Proof.
  unfold waitForBridgeWithCancel.
  destruct (tryPorts free BRIDGE_PORTS) as [ports [port|]]; simpl;
    [|reflexivity].
  now rewrite run_sent.
Qed.

(** *** [runHealthCheck] *)

Lemma healthLoop_dashboard clients method turns :
  In SetupComplete (snd (healthLoop clients method turns)) →
  fst (healthLoop clients method turns) = Some (Ok tt) ∧
  ∃ pre t post,
    turns = pre ++ t :: post ∧ healthy method t = true ∧
    Forall (λ t', healthy method t' = false ∧ answer t' = Ok retry) pre.
Proof.
  induction turns as [|t turns IH]; [intros []|].
  cbn [healthLoop]. unfold healthy in *.
  destruct method.
  - destruct (returned (waitForBridgeWithCancel (free t) (tty t) (events t)))
      as [[| |]|] eqn:Hr; cbn [fst snd].
    + intros _. split; [reflexivity|]. exists [], t, turns.
      rewrite Hr. repeat split. constructor.
    + destruct (answer t) as [[|]|e] eqn:Ha; cbn [fst snd].
      * destruct (healthLoop clients bridge turns) as [r printed] eqn:Hl.
        cbn [fst snd] in *.
        intros [[=]|[[=]|[[=]|Hin]]].
        destruct (IH Hin) as (Hok & pre & t' & post & -> & Hh & Hpre).
        split; [exact Hok|]. exists (t :: pre), t', post.
        repeat split; auto. constructor; [|exact Hpre]. now rewrite Hr.
      * intros [[=]|[[=]|[[=]|[]]]].
      * intros [[=]|[[=]|[]]].
    + intros [[=]|[[=]|[]]].
    + intros [[=]|[]].
  - destruct (checkCdp (fetched t)) eqn:Hc; cbn [fst snd].
    + intros _. split; [reflexivity|]. exists [], t, turns.
      repeat split; auto.
    + destruct (answer t) as [[|]|e] eqn:Ha; cbn [fst snd].
      * destruct (healthLoop clients cdp turns) as [r printed] eqn:Hl.
        cbn [fst snd] in *.
        intros [[=]|[[=]|Hin]].
        destruct (IH Hin) as (Hok & pre & t' & post & -> & Hh & Hpre).
        split; [exact Hok|]. exists (t :: pre), t', post.
        repeat split; auto.
      * intros [[=]|[[=]|[]]].
      * intros [[=]|[]].
Qed.

(** X19. The banner "Setup Complete!" is printed only after a positive
    check: the run then ends well, every turn before was a failed check
    answered with Retry, and with the debug-port method the confirmation was
    given. *)
Theorem dashboard_only_after_positive_check clients method ready turns :
  In SetupComplete (snd (runHealthCheck clients method ready turns)) →
  fst (runHealthCheck clients method ready turns) = Some (Ok tt) ∧
  (method = cdp → ready = Ok true) ∧
  ∃ pre t post,
    turns = pre ++ t :: post ∧ healthy method t = true ∧
    Forall (λ t', healthy method t' = false ∧ answer t' = Ok retry) pre.
Proof.
  unfold runHealthCheck. destruct method.
  - pose proof (healthLoop_dashboard clients bridge turns) as Hl.
    destruct (healthLoop clients bridge turns) as [r printed].
    cbn [fst snd] in *. intros [[=]|Hin].
    destruct (Hl Hin) as (Hok & Hex). repeat split; auto. discriminate.
  - destruct ready as [[|]|e].
    + pose proof (healthLoop_dashboard clients cdp turns) as Hl.
      destruct (healthLoop clients cdp turns) as [r printed].
      cbn [fst snd] in *. intros [[=]|Hin].
      destruct (Hl Hin) as (Hok & Hex). repeat split; auto.
    + intros [[=]|[[=]|[]]].
    + intros [[=]|[]].
Qed.

(** X20. When every port from 9223 to 9232 is taken, the health check of the
    bridge method reports the plugin as connected and prints the banner at
    once, whatever happens on the machine and whatever is left to answer. *)
Theorem all_ports_taken_completes clients ready (t : Turn) turns :
  (∀ p, In p BRIDGE_PORTS → free t p = false) →
  runHealthCheck clients bridge ready (t :: turns)
  = (Some (Ok tt),
     Heading :: StartPlugin :: BridgeConnected :: dashboard clients).
Proof.
  intros Hall. unfold runHealthCheck. cbn [healthLoop].
  unfold waitForBridgeWithCancel. now rewrite (tryPorts_none _ _ Hall).
Qed.

(** X21. With the debug-port method every HTTP response counts as reachable,
    whatever its status (an error status too); only a rejected fetch fails
    the check. *)
Theorem any_response_is_reachable clients (t : Turn) turns :
  (checkCdp (fetched t) = true ↔ ∃ status, fetched t = Response status ∧
                                           (0 < status)%Z) ∧
  (checkCdp (fetched t) = true →
   runHealthCheck clients cdp (Ok true) (t :: turns)
   = (Some (Ok tt), Heading :: CdpReachable :: dashboard clients)).
Proof.
  split.
  - unfold checkCdp. destruct (fetched t) as [status|].
    + rewrite orb_true_iff, andb_true_iff, !Z.leb_le, Z.ltb_lt. split.
      * intros [[Hlo _]|Hpos]; exists status; split; auto; lia.
      * intros (s & [= <-] & Hpos). now right.
    + split; [discriminate | intros (s & [=] & _)].
  - intros Hc. unfold runHealthCheck. cbn [healthLoop]. now rewrite Hc.
Qed.

(** X22. The health check throws only what one of its prompts throws. *)
Theorem health_check_throws_only_prompts clients method ready turns e :
  fst (runHealthCheck clients method ready turns) = Some (Thrown e) →
  ready = Thrown e ∨ ∃ t, In t turns ∧ answer t = Thrown e.
Proof.
  assert (Hloop : ∀ method turns,
    fst (healthLoop clients method turns) = Some (Thrown e) →
    ∃ t, In t turns ∧ answer t = Thrown e).
  { intros m ts. induction ts as [|t ts IH]; [discriminate|].
    cbn [healthLoop].
    assert (Hagain :
      fst (match answer t with
           | Thrown e0 => (Some (Thrown e0), [])
           | Ok exit => (Some (Ok tt), [SetupIncomplete])
           | Ok retry =>
               let '(r, printed) := healthLoop clients m ts in
               (r, Blank :: printed)
           end) = Some (Thrown e) →
      ∃ t0, In t0 (t :: ts) ∧ answer t0 = Thrown e).
    { destruct (answer t) as [[|]|e0] eqn:Ha.
      - destruct (healthLoop clients m ts) as [r printed]. cbn [fst] in *.
        intros Hr. destruct (IH Hr) as (t0 & Hin & Ht0).
        exists t0. split; [now right | exact Ht0].
      - discriminate.
      - intros [= ->]. exists t. split; [now left | exact Ha]. }
    destruct m.
    - destruct (returned _) as [[| |]|]; cbn [fst]; try discriminate.
      exact Hagain.
    - destruct (checkCdp _); cbn [fst]; [discriminate | exact Hagain]. }
  unfold runHealthCheck. destruct method.
  - pose proof (Hloop bridge turns) as Hl.
    destruct (healthLoop clients bridge turns) as [r printed].
    cbn [fst] in *. intros Hr. right. now apply Hl.
  - destruct ready as [[|]|e0].
    + pose proof (Hloop cdp turns) as Hl.
      destruct (healthLoop clients cdp turns) as [r printed].
      cbn [fst] in *. intros Hr. right. now apply Hl.
    + discriminate.
    + intros [= ->]. now left.
Qed.

Lemma dashboard_only_after_positive_check_witness :
  fst (runHealthCheck [] cdp (Ok true)
         [MoreExamples.refused; MoreExamples.answered 500])
  = Some (Ok tt).
Proof.
  destruct (dashboard_only_after_positive_check [] cdp (Ok true)
              [MoreExamples.refused; MoreExamples.answered 500])
    as [Hok _]; [|exact Hok].
  simpl. do 4 right. now left.
Defined.

Lemma all_ports_taken_completes_witness :
  runHealthCheck [MoreExamples.claude_code] bridge (Ok true)
    [MoreExamples.ports_taken]
  = (Some (Ok tt),
     [Heading; StartPlugin; BridgeConnected; SetupComplete;
      ConfiguredClient "Claude Code"; TryThesePrompts]).
Proof.
  apply (all_ports_taken_completes [MoreExamples.claude_code] (Ok true)
           MoreExamples.ports_taken []).
  intros p _. reflexivity.
Defined.

Lemma any_response_is_reachable_witness :
  runHealthCheck [] cdp (Ok true) [MoreExamples.answered 500]
  = (Some (Ok tt), [Heading; CdpReachable; SetupComplete; TryThesePrompts]).
Proof.
  destruct (any_response_is_reachable [] (MoreExamples.answered 500) [])
    as [_ Hrun].
  apply Hrun. reflexivity.
Defined.

Lemma health_check_throws_only_prompts_witness :
  Ok true = Thrown "User force closed the prompt" ∨
  ∃ t, In t [MoreExamples.refused; MoreExamples.interrupted] ∧
       answer t = Thrown "User force closed the prompt".
Proof.
  apply (health_check_throws_only_prompts [] cdp (Ok true)
           [MoreExamples.refused; MoreExamples.interrupted]).
  reflexivity.
Defined.

End HealthLaws.

(** ** The token: its mask and its prompt *)

Module TokenLaws.

Import Display Auth.

Lemma length_append (a b : string) :
  String.length (a +:+ b) = (String.length a + String.length b)%nat.
Proof. induction a as [|c a IH]; simpl; [reflexivity | now rewrite IH]. Qed.

Lemma length_substring (s : string) (n m : nat) :
  (n + m <= String.length s)%nat → String.length (String.substring n m s) = m.
Proof.
  revert n m. induction s as [|c s IH]; intros n m Hle; simpl in *.
  - destruct n, m; simpl; lia.
  - destruct n as [|n].
    + destruct m as [|m]; [reflexivity|]. simpl. rewrite IH; lia.
    + apply IH. lia.
Qed.

(** X23. A token of more than nine characters is shown as its first five
    characters, four asterisks and its last four characters: thirteen
    characters whatever its length.  A shorter one is shown as it is. *)
Theorem mask_shows_nine_characters (token : string) :
  ((String.length token <= 9)%nat → maskToken token = token) ∧
  ((9 < String.length token)%nat →
   maskToken token
   = String.substring 0 5 token +:+ "****" +:+
     String.substring (String.length token - 4) 4 token ∧
   String.length (maskToken token) = 13%nat).
Proof.
  unfold maskToken. split; intros Hlen.
  - apply Nat.leb_le in Hlen. now rewrite Hlen.
  - assert (Hgt : (String.length token <=? 9)%nat = false)
      by (apply Nat.leb_gt; lia).
    rewrite Hgt. unfold slice, slice_index.
    assert (H5 : Z.min 5 (Z.of_nat (String.length token)) = 5%Z) by lia.
    assert (H0 : Z.min 0 (Z.of_nat (String.length token)) = 0%Z) by lia.
    assert (H4 : Z.max (Z.of_nat (String.length token) + -4) 0
                 = (Z.of_nat (String.length token) - 4)%Z) by lia.
    cbn [Z.ltb Z.compare]. rewrite H5, H0, H4.
    replace (Z.to_nat 0) with 0%nat by reflexivity.
    replace (Z.to_nat (5 - 0)) with 5%nat by reflexivity.
    replace (Z.to_nat (Z.of_nat (String.length token) - 4))
      with (String.length token - 4)%nat by lia.
    replace (Z.to_nat (Z.of_nat (String.length token)
                       - (Z.of_nat (String.length token) - 4)))
      with 4%nat by lia.
    split; [reflexivity|].
    rewrite !length_append, !length_substring by lia. reflexivity.
Qed.

(** X24. A token that [promptForToken] returns starts with ["figd_"]; every
    answer before it was not empty and did not start so, and got the line
    "Invalid token"; the accepted one got "Token accepted". *)
Theorem prompt_returns_prefixed_token (answers : list (outcome string))
    (tok : string) (printed : list auth_line) :
  promptForToken answers = (Some (Ok tok), printed) →
  String.prefix "figd_" tok = true ∧
  ∃ rejected rest,
    answers = map Ok rejected ++ Ok tok :: rest ∧
    Forall (λ a, a ≠ "" ∧ String.prefix "figd_" a = false) rejected ∧
    printed = repeat InvalidToken (length rejected) ++ [TokenAccepted].
Proof.
  revert printed. induction answers as [|[a|e] answers IH]; intros printed;
    cbn [promptForToken]; try discriminate.
  destruct (String.eqb_spec a "") as [->|Hne]; [discriminate|].
  destruct (String.prefix "figd_" a) eqn:Hp.
  - intros [= <- <-]. split; [exact Hp|]. exists [], answers.
    repeat split. constructor.
  - destruct (promptForToken answers) as [r printed'].
    intros [= -> <-].
    destruct (IH printed' eq_refl) as (Hpre & rejected & rest & -> & Hrej & ->).
    split; [exact Hpre|]. exists (a :: rejected), rest.
    repeat split. constructor; auto.
Qed.

(** X25. The first empty answer, after answers that were rejected, ends the
    prompt with the error "Setup cancelled"; no later answer is read. *)
Theorem empty_answer_cancels (rejected : list string)
    (rest : list (outcome string)) :
  Forall (λ a, a ≠ "" ∧ String.prefix "figd_" a = false) rejected →
  promptForToken (map Ok rejected ++ Ok "" :: rest)
  = (Some (Thrown "Setup cancelled"),
     repeat InvalidToken (length rejected)).
Proof.
  induction 1 as [|a rejected [Hne Hp] _ IH]; [reflexivity|].
  cbn [map app promptForToken length repeat].
  destruct (String.eqb_spec a "") as [|_]; [contradiction|].
  rewrite Hp, IH. reflexivity.
Qed.

Lemma mask_shows_nine_characters_witness :
  maskToken "figd_0123456789abcdef" = "figd_****cdef".
Proof.
  destruct (mask_shows_nine_characters "figd_0123456789abcdef") as [_ Hlong].
  destruct Hlong as [Hmask _]; [simpl; lia|].
  rewrite Hmask. reflexivity.
Defined.

Lemma prompt_returns_prefixed_token_witness :
  String.prefix "figd_" "figd_x" = true.
Proof.
  destruct (prompt_returns_prefixed_token
              [Ok "abc"; Ok "figd_x"; Ok ""] "figd_x"
              [InvalidToken; TokenAccepted]) as [Hp _]; [reflexivity|].
  exact Hp.
Defined.

Lemma empty_answer_cancels_witness :
  promptForToken [Ok "abc"; Ok "token"; Ok ""; Ok "figd_late"]
  = (Some (Thrown "Setup cancelled"), [InvalidToken; InvalidToken]).
Proof.
  apply (empty_answer_cancels ["abc"; "token"] [Ok "figd_late"]).
  repeat constructor; discriminate.
Defined.

End TokenLaws.

(** ** The retry loop of [runCommandWithSpinner] *)

Module ProcessLaws.

Import Process.

Lemma retryLoop_runs (runSingle : nat → outcome unit) (limit : nat) :
  ∀ (left_over fuel a : nat),
    (a + left_over = limit)%nat → (left_over < fuel)%nat →
    ∃ n,
      retryLoop fuel runSingle (Z.of_nat limit) (Z.of_nat a) a
        (map Z.of_nat (seq 1 (a - 1)))
      = Some (runSingle n, S n, map Z.of_nat (seq 1 n)) ∧
      (a <= n <= limit)%nat ∧
      (∀ i, (a <= i < n)%nat → ∃ e, runSingle i = Thrown e) ∧
      (n < limit → runSingle n = Ok tt)%nat.
Proof.
  assert (Hnotice : ∀ a : nat,
    (if (0 <? Z.of_nat a)%Z
     then map Z.of_nat (seq 1 (a - 1)) ++ [Z.of_nat a]
     else map Z.of_nat (seq 1 (a - 1))) = map Z.of_nat (seq 1 a)).
  { intros [|a]; [reflexivity|].
    assert (Hpos : (0 <? Z.of_nat (S a))%Z = true) by (apply Z.ltb_lt; lia).
    rewrite Hpos. replace (S a - 1)%nat with a by lia.
    rewrite seq_S, map_app. reflexivity. }
  induction left_over as [|d IH]; intros fuel a Hsum Hfuel;
    (destruct fuel as [|fuel]; [lia|]); cbn [retryLoop]; rewrite Hnotice.
  - assert (Hle : (Z.of_nat a <=? Z.of_nat limit)%Z = true)
      by (apply Z.leb_le; lia).
    assert (Heq : (Z.of_nat a =? Z.of_nat limit)%Z = true)
      by (apply Z.eqb_eq; lia).
    rewrite Hle, Heq. exists a.
    split; [now destruct (runSingle a) as [[]|e]|].
    split; [lia|]. split; intros; lia.
  - assert (Hle : (Z.of_nat a <=? Z.of_nat limit)%Z = true)
      by (apply Z.leb_le; lia).
    assert (Hne : (Z.of_nat a =? Z.of_nat limit)%Z = false)
      by (apply Z.eqb_neq; lia).
    rewrite Hle, Hne.
    destruct (runSingle a) as [[]|e] eqn:Hrun.
    + exists a. rewrite Hrun. split; [reflexivity|].
      split; [lia|]. split; [intros; lia | reflexivity].
    + destruct (IH fuel (S a)) as (n & Hloop & Hn & Hfail & Hlast);
        [lia | lia |].
      replace (Z.of_nat a + 1)%Z with (Z.of_nat (S a)) by lia.
      replace (S a - 1)%nat with a in Hloop by lia.
      exists n. split; [exact Hloop|]. split; [lia|].
      split; [|exact Hlast]. intros i Hi.
      destruct (Nat.eq_dec i a) as [->|Hia]; [eauto|]. apply Hfail. lia.
Qed.

(** X26. With a number of retries that is not negative, the command is run
    until it succeeds for the first time, at most [retries + 1] times; the
    result is that of the last run, and a notice numbered 1, 2, ... precedes
    every run but the first. *)
Theorem retry_until_first_success (runSingle : nat → outcome unit)
    (retries : Z) :
  (0 <= retries)%Z →
  ∃ n,
    runCommandWithSpinner runSingle retries
    = Some (runSingle n, S n, map Z.of_nat (seq 1 n)) ∧
    (Z.of_nat n <= retries)%Z ∧
    (∀ i, (i < n)%nat → ∃ e, runSingle i = Thrown e) ∧
    ((Z.of_nat n < retries)%Z → runSingle n = Ok tt).
Proof.
  intros Hpos. unfold runCommandWithSpinner.
  destruct (retryLoop_runs runSingle (Z.to_nat retries) (Z.to_nat retries)
              (S (Z.to_nat (retries + 1))) 0)
    as (n & Hloop & Hn & Hfail & Hlast); [lia | lia |].
  rewrite Z2Nat.id in Hloop by lia.
  exists n. split; [exact Hloop|]. split; [lia|].
  split; [intros i Hi; apply Hfail; lia|]. intros Hlt. apply Hlast. lia.
Qed.

(** X27. With a negative number of retries no command is run at all, and the
    call still ends well. *)
Theorem negative_retries_run_nothing (runSingle : nat → outcome unit)
    (retries : Z) :
  (retries < 0)%Z →
  runCommandWithSpinner runSingle retries = Some (Ok tt, 0%nat, []).
Proof.
  intros Hneg. unfold runCommandWithSpinner.
  replace (Z.to_nat (retries + 1)) with 0%nat by lia.
  cbn [retryLoop].
  assert (Hle : (0 <=? retries)%Z = false) by (apply Z.leb_gt; lia).
  now rewrite Hle.
Qed.

Lemma retry_until_first_success_witness :
  ∃ n,
    runCommandWithSpinner MoreExamples.third_time 5
    = Some (MoreExamples.third_time n, S n, map Z.of_nat (seq 1 n)) ∧
    (Z.of_nat n <= 5)%Z ∧
    (∀ i, (i < n)%nat → ∃ e, MoreExamples.third_time i = Thrown e) ∧
    ((Z.of_nat n < 5)%Z → MoreExamples.third_time n = Ok tt).
Proof. apply (retry_until_first_success MoreExamples.third_time 5). lia. Defined.

Lemma negative_retries_run_nothing_witness :
  runCommandWithSpinner MoreExamples.third_time (-1) = Some (Ok tt, 0%nat, []).
Proof.
  apply (negative_retries_run_nothing MoreExamples.third_time (-1)). lia.
Defined.

End ProcessLaws.

(** ** The promise of [runSingleCommand] *)

Module CommandLaws.

Import Command.

Lemma step_settled_stays (s : Run) (e : event) v :
  settled s = Some v → settled (step s e) = Some v.
Proof.
  destruct s as [st sp fr er err ki tm]. simpl. intros ->.
  destruct e as [| chunk | [[|p|p]|] | message |]; simpl;
    try reflexivity; destruct sp, tm; reflexivity.
Qed.

Lemma run_settled_stays (events : list event) (s : Run) v :
  settled s = Some v → settled (run s events) = Some v.
Proof.
  revert s. induction events as [|e events IH]; intros s Hs; [exact Hs|].
  simpl. apply IH. now apply step_settled_stays.
Qed.

Lemma run_verdict (events : list event) (s : Run) :
  settled s = None →
  settled (run s events) = first_verdict (timer s) (stderrOutput s) events.
Proof.
  revert s. induction events as [|e events IH]; intros s Hs; [exact Hs|].
  destruct s as [st sp fr er err ki tm]. simpl in Hs. subst st.
  destruct e as [| chunk | [[|p|p]|] | message |];
    cbn [run fold_left first_verdict step timer stderrOutput];
    try (apply run_settled_stays; reflexivity).
  - destruct sp; (etransitivity; [apply IH; reflexivity | reflexivity]).
  - etransitivity; [apply IH; reflexivity | reflexivity].
  - destruct tm as [ms|].
    + apply run_settled_stays. reflexivity.
    + etransitivity; [apply IH; reflexivity | reflexivity].
Qed.

Lemma run_erased (events : list event) (s : Run) :
  erased (run s events) = (erased s + cleanups (timer s) events)%nat ∧
  kills (run s events)
  = (kills s + match timer s with
               | Some _ => if timeout_among events then 1 else 0
               | None => 0
               end)%nat.
Proof.
  unfold timeout_among.
  revert s. induction events as [|e events IH]; intros s.
  - simpl. destruct (timer s); split; lia.
  - change (run s (e :: events)) with (run (step s e) events).
    destruct (IH (step s e)) as [-> ->].
    destruct s as [[v|] [|] fr er err ki [ms|]];
      destruct e as [| chunk | [[|p|p]|] | message |]; simpl;
      try destruct (existsb _ events); split; lia.
Qed.

Lemma step_spinner (s : Run) (e : event) :
  (is_Some (settled s) → spinner s = false) →
  is_Some (settled (step s e)) → spinner (step s e) = false.
Proof.
  destruct s as [st sp fr er err ki tm]. simpl.
  destruct e as [| chunk | [[|p|p]|] | message |]; simpl; intros Hs;
    try (destruct st; reflexivity); try exact Hs.
  - destruct sp; simpl; [intros Hst; now apply Hs | exact Hs].
  - destruct tm; [destruct st; reflexivity | exact Hs].
Qed.

Lemma run_spinner (events : list event) (s : Run) :
  (is_Some (settled s) → spinner s = false) →
  is_Some (settled (run s events)) → spinner (run s events) = false.
Proof.
  revert s. induction events as [|e events IH]; intros s Hs; [exact Hs|].
  simpl. apply IH. now apply step_spinner.
Qed.

(** X28. The promise of [runSingleCommand] is settled by the first of the
    child's close, its error and the timeout, with that event's verdict, and
    later events never change it; once it is settled the spinner is stopped.
    But the timer is never cleared and no listener is removed: [cleanup]
    runs again for every later close, error or timeout, and a timeout that
    fires after the command has ended still kills the child. *)
Theorem command_settles_once (timeout : option Z) (events : list event) :
  settled (runSingleCommand timeout events)
    = first_verdict (timer (start timeout)) "" events ∧
  (∀ more, is_Some (settled (runSingleCommand timeout events)) →
           settled (runSingleCommand timeout (events ++ more))
           = settled (runSingleCommand timeout events)) ∧
  (is_Some (settled (runSingleCommand timeout events)) →
   spinner (runSingleCommand timeout events) = false) ∧
  erased (runSingleCommand timeout events)
    = cleanups (timer (start timeout)) events ∧
  kills (runSingleCommand timeout events)
    = match timer (start timeout) with
      | Some _ => if timeout_among events then 1%nat else 0%nat
      | None => 0%nat
      end.
Proof.
  unfold runSingleCommand. split; [|split; [|split]].
  - now apply run_verdict.
  - intros more [v Hv]. unfold run in *. rewrite fold_left_app.
    rewrite Hv. now apply run_settled_stays.
  - apply run_spinner. intros [v Hv]. discriminate Hv.
  - destruct (run_erased events (start timeout)) as [He Hk].
    split; [exact He | exact Hk].
Qed.

Lemma command_settles_once_witness :
  settled (runSingleCommand (Some 30000%Z)
             [Tick; Stderr "warn"; Close (Some 0%Z); TimeoutFires])
    = Some Resolved ∧
  erased (runSingleCommand (Some 30000%Z)
            [Tick; Stderr "warn"; Close (Some 0%Z); TimeoutFires]) = 2%nat ∧
  kills (runSingleCommand (Some 30000%Z)
           [Tick; Stderr "warn"; Close (Some 0%Z); TimeoutFires]) = 1%nat.
Proof.
  destruct (command_settles_once (Some 30000%Z)
              [Tick; Stderr "warn"; Close (Some 0%Z); TimeoutFires])
    as (Hv & _ & _ & He & Hk).
  rewrite Hv, He, Hk. repeat split.
Defined.

End CommandLaws.

(** ** The system check *)

Module SystemCheckLaws.

Import SystemCheck.

Lemma to_uint_nonnil (n : nat) : Nat.to_uint n ≠ Decimal.Nil.
Proof.
  intros Hnil. pose proof (DecimalNat.Unsigned.of_to n) as Hn.
  rewrite Hnil in Hn. simpl in Hn. subst n. discriminate Hnil.
Qed.

Lemma first_segment_digits (d : Decimal.uint) (rest : string) :
  first_segment (NilEmpty.string_of_uint d +:+ String "." rest)
  = NilEmpty.string_of_uint d.
Proof. induction d; simpl; [reflexivity | now rewrite IHd ..]. Qed.

Lemma digits_of_uint (d : Decimal.uint) (acc : nat) :
  digits (NilEmpty.string_of_uint d) acc = Nat.of_uint_acc d acc.
Proof.
  revert acc. induction d; intros acc;
    cbn [NilEmpty.string_of_uint digits Nat.of_uint_acc];
    [reflexivity | ..];
    (match goal with
     | |- context [is_digit ?c] => change (is_digit c) with true
     end);
    cbv iota; rewrite IHd, Nat.tail_mul_spec; f_equal;
    (match goal with
     | |- context [digit_value ?c] =>
         let v := eval vm_compute in (digit_value c) in
         change (digit_value c) with v
     end); lia.
Qed.

Lemma parseInt_decimal (n : nat) :
  parseInt (NilEmpty.string_of_uint (Nat.to_uint n)) = Some (Z.of_nat n).
Proof.
  pose proof (DecimalNat.Unsigned.of_to n) as Hn.
  pose proof (to_uint_nonnil n) as Hnil.
  unfold Nat.of_uint in Hn. rewrite <- digits_of_uint in Hn.
  destruct (Nat.to_uint n) as [|d|d|d|d|d|d|d|d|d|d]; [contradiction | ..];
    unfold parseInt; cbn [NilEmpty.string_of_uint skip_space];
    (match goal with
     | |- context [is_space ?c] => change (is_space c) with false
     end);
    cbv iota;
    (match goal with
     | |- context [is_digit ?c] => change (is_digit c) with true
     end);
    cbv iota; cbn [NilEmpty.string_of_uint] in Hn; now rewrite Hn.
Qed.

(** X29. A release of Node.js passes the check exactly when its major
    version is 18 or more. *)
Theorem node_18_is_required (n : nat) (rest : string) :
  supported (node_version n rest) = (18 <=? n)%nat.
Proof.
  unfold supported, major, node_version.
  change (drop_first ("v" +:+ NilEmpty.string_of_uint (Nat.to_uint n) +:+
                      "." +:+ rest))
    with (NilEmpty.string_of_uint (Nat.to_uint n) +:+ String "." rest).
  rewrite first_segment_digits, parseInt_decimal.
  destruct (Nat.leb_spec 18 n); [apply Z.leb_le | apply Z.leb_gt]; lia.
Qed.

Section WithCli.
Context `{CliManagedTarget}.

(** X30. Figma Desktop is looked for on macOS and Windows only: on any
    other platform the check reports it as not found, whatever is
    installed. *)
Theorem figma_is_never_found_elsewhere nodeVersion (w : World) localAppData :
  os_platform (machine w) ≠ "darwin" → os_platform (machine w) ≠ "win32" →
  figmaInstalled w localAppData = false ∧
  (supported nodeVersion = true →
   runSystemCheck nodeVersion w localAppData
   = ([NodeOk nodeVersion; FigmaNotFound], None)).
Proof.
  intros Hmac Hwin.
  assert (Hf : figmaInstalled w localAppData = false).
  { unfold figmaInstalled, getPlatform.
    destruct (String.eqb_spec (os_platform (machine w)) "darwin");
      [contradiction|].
    destruct (String.eqb_spec (os_platform (machine w)) "win32");
      [contradiction | reflexivity]. }
  split; [exact Hf|]. intros Hs. unfold runSystemCheck. now rewrite Hs, Hf.
Qed.

End WithCli.

Lemma figma_is_never_found_elsewhere_witness :
  runSystemCheck (H := Examples.no_claude) (node_version 20 "11.0")
    (@Build_World Examples.no_claude
       (Examples.one_file "/Applications/Figma.app" Unparsable) tt
       Examples.linux_machine [])
    None
  = ([NodeOk "v20.11.0"; FigmaNotFound], None).
Proof.
  destruct (@figma_is_never_found_elsewhere Examples.no_claude
              (node_version 20 "11.0")
              (@Build_World Examples.no_claude
                 (Examples.one_file "/Applications/Figma.app" Unparsable) tt
                 Examples.linux_machine [])
              None) as [_ Hrun]; [discriminate | discriminate |].
  apply Hrun. reflexivity.
Defined.

End SystemCheckLaws.
